(** * Third-person controller: locomotion, collision and camera orbit

    A shallow embedding of [src/entities/Unit.ts] ([Unit.update],
    [Unit.checkCollisions]) and of the camera-orbit part of
    [src/components/GameCanvas.tsx] ([onMouseDown], [onMouseMove],
    [onMouseUp] and the camera block of [animate]); further of the dust
    particles of [GameCanvas.tsx] ([spawnDust] and the particle loop of
    [animate]), of the keyboard and gamepad input of
    [src/hooks/useControls.ts], of the speed read-out of [App]
    ([updateUI]) and of the handlers of the on-screen [Joystick].

    Numbers.  A JavaScript [number] is read as a real number: [+ - * /],
    [Math.sqrt], [Math.sin], [Math.cos], [Math.min] and [Math.max] are the
    operations of [R].  Rounding, signed zeros, infinities and NaN are not
    part of this model.  The yaw wrap of [update], whose result at a
    difference of half a turn depends on rounding, is given a second
    time on binary64 numbers ([Binary64]).

    three.js.  The methods of [Vector2], [Vector3], [Box3] and [MathUtils]
    that the two source files call are transcribed from the three.js
    sources, one definition per method, under the method's name.  Objects
    mutated in place become values returned by the function.

    Effects.  The calls made on the dust callback and on the animation
    actions are appended to two logs carried in the unit's state. *)

From stdpp Require Import gmap strings.
From Stdlib Require Import Reals Lra Lia ZArith List.
From Stdlib Require Floats.PrimFloat.
Import ListNotations.

Local Open Scope R_scope.

(** ** JavaScript built-ins *)

Module JsMath.

(** [Math.atan2(y, x)] on the reals: the angle of the point [(x, y)],
    in [(-PI, PI]], and [0] at the origin. *)
Definition atan2 (y x : R) : R :=
  if Rlt_dec 0 x then atan (y / x)
  else if Rlt_dec x 0 then
    (if Rle_dec 0 y then atan (y / x) + PI else atan (y / x) - PI)
  else if Rlt_dec 0 y then PI / 2
  else if Rlt_dec y 0 then - (PI / 2)
  else 0.

(** [a || b] on numbers: [b] when [a] is [0] (NaN does not occur). *)
Definition or_num (a b : R) : R :=
  if Req_dec_T a 0 then b else a.

(** [a || b] where [a : string | null | undefined]: the empty string,
    [null] and [undefined] are falsy. *)
Definition or_str (a : option string) (b : string) : string :=
  match a with
  | Some s => if String.eqb s EmptyString then b else s
  | None => b
  end.

End JsMath.

(** ** three.js: MathUtils, Vector2, Vector3, Box3 *)

Module MathUtils.

(** [lerp(x, y, t) = (1 - t) * x + t * y] *)
Definition lerp (x y t : R) : R := (1 - t) * x + t * y.

(** [clamp(value, min, max) = Math.max(min, Math.min(max, value))] *)
Definition clamp (value lo hi : R) : R := Rmax lo (Rmin hi value).

End MathUtils.

Record Vector2 : Type := mkV2 { x2 : R; y2 : R }.

Module Vector2.
Definition length (v : Vector2) : R :=
  sqrt (x2 v * x2 v + y2 v * y2 v).
End Vector2.

Record Vector3 : Type := mkV3 { vx : R; vy : R; vz : R }.

Module Vector3.

Definition zero : Vector3 := mkV3 0 0 0.

Definition add (a b : Vector3) : Vector3 :=
  mkV3 (vx a + vx b) (vy a + vy b) (vz a + vz b).

Definition sub (a b : Vector3) : Vector3 :=
  mkV3 (vx a - vx b) (vy a - vy b) (vz a - vz b).

Definition multiplyScalar (a : Vector3) (s : R) : Vector3 :=
  mkV3 (vx a * s) (vy a * s) (vz a * s).

(** [divideScalar(s) = multiplyScalar(1 / s)] *)
Definition divideScalar (a : Vector3) (s : R) : Vector3 :=
  multiplyScalar a (1 / s).

Definition addScaledVector (a v : Vector3) (s : R) : Vector3 :=
  mkV3 (vx a + vx v * s) (vy a + vy v * s) (vz a + vz v * s).

Definition dot (a b : Vector3) : R :=
  vx a * vx b + vy a * vy b + vz a * vz b.

Definition lengthSq (a : Vector3) : R :=
  vx a * vx a + vy a * vy a + vz a * vz a.

Definition length (a : Vector3) : R := sqrt (lengthSq a).

(** [normalize() = divideScalar(length() || 1)] *)
Definition normalize (a : Vector3) : Vector3 :=
  divideScalar a (JsMath.or_num (length a) 1).

Definition distanceToSquared (a b : Vector3) : R :=
  let dx := vx a - vx b in
  let dy := vy a - vy b in
  let dz := vz a - vz b in
  dx * dx + dy * dy + dz * dz.

Definition distanceTo (a b : Vector3) : R := sqrt (distanceToSquared a b).

(** [clamp(min, max)]: componentwise [MathUtils.clamp] *)
Definition clamp (a lo hi : Vector3) : Vector3 :=
  mkV3 (MathUtils.clamp (vx a) (vx lo) (vx hi))
       (MathUtils.clamp (vy a) (vy lo) (vy hi))
       (MathUtils.clamp (vz a) (vz lo) (vz hi)).

(** [projectOnVector(v)]: the zero vector when [v] has length zero,
    otherwise [v * (v.dot(this) / v.lengthSq())]. *)
Definition projectOnVector (a v : Vector3) : Vector3 :=
  let denominator := lengthSq v in
  if Req_dec_T denominator 0 then zero
  else multiplyScalar v (dot v a / denominator).

(** [projectOnPlane(n) = this - this.projectOnVector(n)] *)
Definition projectOnPlane (a planeNormal : Vector3) : Vector3 :=
  sub a (projectOnVector a planeNormal).

End Vector3.

Record Box3 : Type := mkBox3 { bmin : Vector3; bmax : Vector3 }.

Record Sphere : Type := mkSphere { center : Vector3; sradius : R }.

Module Box3.

(** [clampPoint(point, target)]: [target.copy(point).clamp(min, max)] *)
Definition clampPoint (b : Box3) (point : Vector3) : Vector3 :=
  Vector3.clamp point (bmin b) (bmax b).

(** [intersectsSphere(sphere)]: the closest point of the box to the
    centre is within the sphere's radius (squared distances). *)
Definition intersectsSphere (b : Box3) (s : Sphere) : bool :=
  let closest := clampPoint b (center s) in
  if Rle_dec (Vector3.distanceToSquared closest (center s))
             (sradius s * sradius s)
  then true else false.

End Box3.

(** ** Input records ([src/unnamed/part_001], [useControls.ts]) *)

Module ControlState.
Record t : Type := mk {
  forward : bool;
  backward : bool;
  left : bool;
  right : bool;
  jump : bool;
  run : bool;
  resetCamera : bool
}.
End ControlState.

Module JoystickData.
Record t : Type := mk { x : R; y : R; active : bool }.
End JoystickData.

(** ** The unit ([src/entities/Unit.ts]) *)

(** Calls made on the animation actions of the unit. *)
Inductive AnimCall : Type :=
| PlayIdle                          (* actions['Idle'].play() *)
| JumpOnce                          (* actions['Jump'].reset().setLoop(LoopOnce, 1).play() *)
| FadeOut (name : string) (d : R)   (* actions[name].fadeOut(d) *)
| FadeIn (name : string) (d : R).   (* actions[name].reset().fadeIn(d).play() *)

Definition Idle : string := "Idle".
Definition Jump : string := "Jump".
Definition Running : string := "Running".
Definition Walking : string := "Walking".

(** The fields of [Unit].  [position] and [rotationY] are
    [group.position] and [group.rotation.y].  [mixer] is [None] while the
    field is [undefined] and holds the mixer's clock once [load] has set
    it.  [actions] holds the keys of the [actions] record (the values are
    opaque three.js handles; keys inherited from [Object.prototype] are
    not modelled).  [dustCalls] lists the arguments of the calls made to
    [spawnDustCallback], oldest first; [animCalls] the calls made on the
    actions. *)
Record Unit : Type := mkUnit {
  position : Vector3;
  rotationY : R;
  mixer : option R;
  actions : gset string;
  currentAction : string;
  velocity : Vector3;
  isGrounded : bool;
  capsuleStart : Vector3;
  capsuleEnd : Vector3;
  dustCalls : list Vector3;
  animCalls : list AnimCall
}.

Definition radius : R := 0.5.
Definition height : R := 1.6.

(** Assignments to the fields of a unit. *)

Definition setPosition (p : Vector3) (u : Unit) : Unit :=
  mkUnit p (rotationY u) (mixer u) (actions u) (currentAction u)
    (velocity u) (isGrounded u) (capsuleStart u) (capsuleEnd u)
    (dustCalls u) (animCalls u).

Definition setRotationY (r : R) (u : Unit) : Unit :=
  mkUnit (position u) r (mixer u) (actions u) (currentAction u)
    (velocity u) (isGrounded u) (capsuleStart u) (capsuleEnd u)
    (dustCalls u) (animCalls u).

Definition setMixer (m : option R) (u : Unit) : Unit :=
  mkUnit (position u) (rotationY u) m (actions u) (currentAction u)
    (velocity u) (isGrounded u) (capsuleStart u) (capsuleEnd u)
    (dustCalls u) (animCalls u).

Definition setActions (a : gset string) (u : Unit) : Unit :=
  mkUnit (position u) (rotationY u) (mixer u) a (currentAction u)
    (velocity u) (isGrounded u) (capsuleStart u) (capsuleEnd u)
    (dustCalls u) (animCalls u).

Definition setCurrentAction (c : string) (u : Unit) : Unit :=
  mkUnit (position u) (rotationY u) (mixer u) (actions u) c
    (velocity u) (isGrounded u) (capsuleStart u) (capsuleEnd u)
    (dustCalls u) (animCalls u).

Definition setVelocity (v : Vector3) (u : Unit) : Unit :=
  mkUnit (position u) (rotationY u) (mixer u) (actions u) (currentAction u)
    v (isGrounded u) (capsuleStart u) (capsuleEnd u)
    (dustCalls u) (animCalls u).

Definition setIsGrounded (g : bool) (u : Unit) : Unit :=
  mkUnit (position u) (rotationY u) (mixer u) (actions u) (currentAction u)
    (velocity u) g (capsuleStart u) (capsuleEnd u)
    (dustCalls u) (animCalls u).

Definition setCapsule (cs ce : Vector3) (u : Unit) : Unit :=
  mkUnit (position u) (rotationY u) (mixer u) (actions u) (currentAction u)
    (velocity u) (isGrounded u) cs ce
    (dustCalls u) (animCalls u).

(** [this.spawnDustCallback(p)] *)
Definition callDust (p : Vector3) (u : Unit) : Unit :=
  mkUnit (position u) (rotationY u) (mixer u) (actions u) (currentAction u)
    (velocity u) (isGrounded u) (capsuleStart u) (capsuleEnd u)
    (dustCalls u ++ [p]) (animCalls u).

(** A call on one of the actions. *)
Definition callAnim (c : AnimCall) (u : Unit) : Unit :=
  mkUnit (position u) (rotationY u) (mixer u) (actions u) (currentAction u)
    (velocity u) (isGrounded u) (capsuleStart u) (capsuleEnd u)
    (dustCalls u) (animCalls u ++ [c]).

(** [new Unit(spawnPos, onDust)] *)
Definition newUnit (spawnPos : Vector3) : Unit :=
  {| position := spawnPos;
     rotationY := 0;
     mixer := None;
     actions := ∅;
     currentAction := Idle;
     velocity := Vector3.zero;
     isGrounded := false;
     capsuleStart := mkV3 0 radius 0;
     capsuleEnd := mkV3 0 (height - radius) 0;
     dustCalls := [];
     animCalls := [] |}.

(** The completion of [load]: the mixer is created (clock at 0), every
    clip of the asset is entered in [actions] under its name, and
    ['Idle'] is played when the table has it. *)
Definition load (clips : list string) (u : Unit) : Unit :=
  let u := setMixer (Some 0) u in
  let u :=
    setActions
      (foldl (fun (m : gset string) name => m ∪ {[ name ]}) (actions u) clips)
      u in
  if bool_decide (Idle ∈ actions u) then callAnim PlayIdle u else u.

(** *** The two [while] loops of the yaw wrap

    [while (diff < -Math.PI) diff += Math.PI * 2;]
    [while (diff > Math.PI) diff -= Math.PI * 2;]

    Each loop is run on a number of iterations that is enough for it to
    reach its exit test ([whileBelow_exit], [whileAbove_exit]); more
    iterations leave the result as it is ([whileBelow_stable],
    [whileAbove_stable]). *)

Fixpoint whileBelow (fuel : nat) (diff : R) : R :=
  match fuel with
  | O => diff
  | S k => if Rlt_dec diff (- PI) then whileBelow k (diff + PI * 2) else diff
  end.

Fixpoint whileAbove (fuel : nat) (diff : R) : R :=
  match fuel with
  | O => diff
  | S k => if Rgt_dec diff PI then whileAbove k (diff - PI * 2) else diff
  end.

Definition itersBelow (diff : R) : nat :=
  Z.to_nat (up ((- PI - diff) / (PI * 2))).

Definition itersAbove (diff : R) : nat :=
  Z.to_nat (up ((diff - PI) / (PI * 2))).

Definition wrapAngle (diff : R) : R :=
  let d1 := whileBelow (itersBelow diff) diff in
  whileAbove (itersAbove d1) d1.

(** [diff * 0.15], the amount added to [group.rotation.y], for
    [diff = targetRot - this.group.rotation.y] after the two loops. *)
Definition yawDelta (rotY targetRot : R) : R :=
  wrapAngle (targetRot - rotY) * 0.15.

(** ** The yaw wrap on binary64 numbers

    The same statements of [update] on the numbers JavaScript computes
    with: [targetRot - this.group.rotation.y], the two loops and the
    product with [0.15], each operation rounded to binary64.  A loop
    that has not reached its exit test when the iterations run out
    gives [None]. *)

Module Binary64.

Import PrimFloat.

(** [Math.PI] *)
Definition PI : float := 0x1.921fb54442d18p+1%float.

(** [while (diff < -Math.PI) diff += Math.PI * 2;] *)
Fixpoint whileBelow (fuel : nat) (diff : float) : option float :=
  if ltb diff (opp PI) then
    match fuel with
    | O => None
    | S k => whileBelow k (add diff (mul PI 2%float))
    end
  else Some diff.

(** [while (diff > Math.PI) diff -= Math.PI * 2;] *)
Fixpoint whileAbove (fuel : nat) (diff : float) : option float :=
  if ltb PI diff then
    match fuel with
    | O => None
    | S k => whileAbove k (sub diff (mul PI 2%float))
    end
  else Some diff.

(** [diff * 0.15] for [diff = targetRot - this.group.rotation.y] after
    the two loops; the literal [0.15] is the binary64 number
    [0x1.3333333333333p-3]. *)
Definition yawDelta (fuel : nat) (rotY targetRot : float) : option float :=
  match whileBelow fuel (sub targetRot rotY) with
  | Some d1 =>
      match whileAbove fuel d1 with
      | Some diff => Some (mul diff 0x1.3333333333333p-3%float)
      | None => None
      end
  | None => None
  end.

(** The heading [0.9] (the binary64 number [0x1.ccccccccccccdp-1]) and
    the two targets [0.9 + Math.PI] and [0.9 + 3 * Math.PI]. *)
Definition heading : float := 0x1.ccccccccccccdp-1%float.

Definition headingPlusPI : float := add heading PI.

Definition headingPlus3PI : float := add heading (mul 3%float PI).

(** -0.47123889803846886 and 0.47123889803846897 *)
Definition deltaPlusPI : float := (-0x1.e28c731eb694ep-2)%float.

Definition deltaPlus3PI : float := 0x1.e28c731eb695p-2%float.

Definition zero : float := 0%float.

End Binary64.

(** *** [update] *)

Section Update.

Variable delta : R.
Variable controls : ControlState.t.
Variable joystick : JoystickData.t.
Variable cameraTheta : R.
Variable testAnimation : option string.

(** 1. Handle Movement Input: [(moveX, moveZ)] *)
Definition moveInput : R * R :=
  let moveX := 0 in
  let moveZ := 0 in
  let moveZ := if ControlState.forward controls then moveZ + 1 else moveZ in
  let moveZ := if ControlState.backward controls then moveZ - 1 else moveZ in
  let moveX := if ControlState.left controls then moveX - 1 else moveX in
  let moveX := if ControlState.right controls then moveX + 1 else moveX in
  if JoystickData.active joystick
  then (JoystickData.x joystick, - JoystickData.y joystick)
  else (moveX, moveZ).

Definition speed : R :=
  if ControlState.run controls then 12.0 else 6.0.

Definition inputMag : R :=
  let '(moveX, moveZ) := moveInput in
  Rmin (Vector2.length (mkV2 moveX moveZ)) 1.0.

(** The vector on which [update] calls [normalize()]. *)
Definition moveDirRaw : Vector3 :=
  let '(moveX, moveZ) := moveInput in
  let forward := mkV3 (- sin cameraTheta) 0 (- cos cameraTheta) in
  let right := mkV3 (cos cameraTheta) 0 (- sin cameraTheta) in
  Vector3.addScaledVector
    (Vector3.addScaledVector Vector3.zero forward moveZ) right moveX.

Definition moveDir : Vector3 := Vector3.normalize moveDirRaw.

Definition targetRot : R := JsMath.atan2 (vx moveDir) (vz moveDir).

(** The branch on the deadzone: heading and horizontal velocity *)
Definition steer (u : Unit) : Unit :=
  if Rgt_dec inputMag 0.05 then
    let u := setRotationY (rotationY u + yawDelta (rotationY u) targetRot) u in
    let u :=
      setVelocity
        (mkV3 (MathUtils.lerp (vx (velocity u)) (vx moveDir * inputMag * speed) 0.15)
              (vy (velocity u))
              (vz (velocity u))) u in
    setVelocity
      (mkV3 (vx (velocity u))
            (vy (velocity u))
            (MathUtils.lerp (vz (velocity u)) (vz moveDir * inputMag * speed) 0.15)) u
  else
    let u :=
      setVelocity
        (mkV3 (MathUtils.lerp (vx (velocity u)) 0 0.15)
              (vy (velocity u))
              (vz (velocity u))) u in
    setVelocity
      (mkV3 (vx (velocity u))
            (vy (velocity u))
            (MathUtils.lerp (vz (velocity u)) 0 0.15)) u.

(** 2. Gravity & Jumping *)
Definition gravityJump (u : Unit) : Unit :=
  if isGrounded u then
    let u := setVelocity (mkV3 (vx (velocity u)) 0 (vz (velocity u))) u in
    if ControlState.jump controls then
      let u := setVelocity (mkV3 (vx (velocity u)) 13.0 (vz (velocity u))) u in
      let u := setIsGrounded false u in
      if bool_decide (Jump ∈ actions u) then callAnim JumpOnce u else u
    else u
  else
    setVelocity
      (mkV3 (vx (velocity u)) (vy (velocity u) - 32.0 * delta) (vz (velocity u)))
      u.

(** 3. Apply Velocity, and the capsule sync that follows it *)
Definition applyVelocity (u : Unit) : Unit :=
  let u :=
    setPosition
      (Vector3.add (position u) (Vector3.multiplyScalar (velocity u) delta)) u in
  setCapsule (Vector3.add (mkV3 0 radius 0) (position u))
             (Vector3.add (mkV3 0 (height - radius) 0) (position u)) u.

(** 4. Animations: the horizontal speed and the clip chosen from the
    motion state *)
Definition velMag (u : Unit) : R :=
  Vector2.length (mkV2 (vx (velocity u)) (vz (velocity u))).

Definition nextAnimation (u : Unit) : string :=
  if negb (isGrounded u) then Jump
  else if Rgt_dec (velMag u) 7.0 then Running
  else if Rgt_dec (velMag u) 0.5 then Walking
  else Idle.

Definition stepAnimations (u : Unit) : Unit :=
  let u := setMixer (option_map (fun t => t + delta) (mixer u)) u in
  let activeAction := JsMath.or_str testAnimation (nextAnimation u) in
  if negb (String.eqb (currentAction u) activeAction)
     && bool_decide (activeAction ∈ actions u)
  then
    let u :=
      if bool_decide (currentAction u ∈ actions u)
      then callAnim (FadeOut (currentAction u) 0.2) u
      else u in
    let u := callAnim (FadeIn activeAction 0.2) u in
    setCurrentAction activeAction u
  else u.

Definition update (u : Unit) : Unit :=
  match mixer u with
  | None => u
  | Some _ => stepAnimations (applyVelocity (gravityJump (steer u)))
  end.

End Update.

(** *** [checkCollisions]

    An obstacle is given by its world box, the value of
    [mesh.geometry.boundingBox.clone().applyMatrix4(mesh.matrixWorld)].
    The [floor] argument is not read by the method and is left out. *)

(** Collide with Floor *)
Definition collideFloor (u : Unit) : Unit :=
  let wasGroundedBefore := isGrounded u in
  let u := setIsGrounded false u in
  if Rle_dec (vy (position u)) 0 then
    let u := setPosition (mkV3 (vx (position u)) 0 (vz (position u))) u in
    let u := setIsGrounded true u in
    if negb wasGroundedBefore then callDust (position u) u else u
  else u.

(** The two tests of the loop body: the broad phase
    [box.intersectsSphere(new Sphere(position, height))] and
    [distance < radius].  When both pass, the closest point of the box and
    its distance to the position. *)
Definition penetration (box : Box3) (u : Unit) : option (Vector3 * R) :=
  if Box3.intersectsSphere box (mkSphere (position u) height) then
    let closestPoint := Box3.clampPoint box (position u) in
    let distance := Vector3.distanceTo (position u) closestPoint in
    if Rlt_dec distance radius then Some (closestPoint, distance) else None
  else None.

(** The vector on which the loop body calls [normalize()]. *)
Definition normalRaw (u : Unit) (closestPoint : Vector3) : Vector3 :=
  Vector3.sub (position u) closestPoint.

(** One iteration of the loop over the obstacles.  [multiplyScalar]
    scales [normal] in place, so [projectOnPlane] receives the scaled
    vector. *)
Definition collideObstacle (u : Unit) (box : Box3) : Unit :=
  match penetration box u with
  | Some (closestPoint, distance) =>
      let normal := Vector3.normalize (normalRaw u closestPoint) in
      let overlap := radius - distance in
      let normal := Vector3.multiplyScalar normal overlap in
      let u := setPosition (Vector3.add (position u) normal) u in
      setVelocity (Vector3.projectOnPlane (velocity u) normal) u
  | None => u
  end.

Definition checkCollisions (obstacles : list Box3) (u : Unit) : Unit :=
  foldl collideObstacle (collideFloor u) obstacles.

(** One simulation tick of [animate]: [char.update(...)] followed by
    [char.checkCollisions(...)]. *)
Definition tick (delta : R) (controls : ControlState.t)
    (joystick : JoystickData.t) (cameraTheta : R)
    (testAnimation : option string) (obstacles : list Box3) (u : Unit) : Unit :=
  checkCollisions obstacles
    (update delta controls joystick cameraTheta testAnimation u).

(** ** The camera orbit ([src/components/GameCanvas.tsx]) *)

Record CameraOrbit : Type := mkOrbit {
  theta : R;
  phi : R;
  distance : R;
  targetTheta : R;
  targetPhi : R
}.

(** The refs [cameraOrbit], [isDragging] and [previousMouse]. *)
Record CameraRig : Type := mkRig {
  cameraOrbit : CameraOrbit;
  isDragging : bool;
  previousMouse : R * R
}.

Definition initialRig : CameraRig :=
  {| cameraOrbit :=
       {| theta := PI; phi := 0.3; distance := 7.0;
          targetTheta := PI; targetPhi := 0.3 |};
     isDragging := false;
     previousMouse := (0, 0) |}.

Definition onMouseDown (clientX clientY : R) (c : CameraRig) : CameraRig :=
  {| cameraOrbit := cameraOrbit c;
     isDragging := true;
     previousMouse := (clientX, clientY) |}.

Definition onMouseMove (clientX clientY : R) (c : CameraRig) : CameraRig :=
  if negb (isDragging c) then c
  else
    let dx := clientX - fst (previousMouse c) in
    let dy := clientY - snd (previousMouse c) in
    let o := cameraOrbit c in
    {| cameraOrbit :=
         {| theta := theta o;
            phi := phi o;
            distance := distance o;
            targetTheta := targetTheta o - dx * 0.008;
            targetPhi :=
              MathUtils.clamp (targetPhi o + dy * 0.008) (- 0.2) 1.3 |};
       isDragging := isDragging c;
       previousMouse := (clientX, clientY) |}.

Definition onMouseUp (c : CameraRig) : CameraRig :=
  {| cameraOrbit := cameraOrbit c;
     isDragging := false;
     previousMouse := previousMouse c |}.

(** The camera block of [animate]; [char] is the heading
    [char.group.rotation.y] of the current character, [None] when
    [characterInstanceRef.current] is [null]. *)
Definition animateCamera (char : option R) (resetCamera : bool)
    (c : CameraRig) : CameraRig :=
  match char with
  | None => c
  | Some heading =>
      let o := cameraOrbit c in
      let tTheta := if resetCamera then heading + PI else targetTheta o in
      let tPhi := if resetCamera then 0.3 else targetPhi o in
      {| cameraOrbit :=
           {| theta := MathUtils.lerp (theta o) tTheta 0.1;
              phi := MathUtils.lerp (phi o) tPhi 0.1;
              distance := distance o;
              targetTheta := tTheta;
              targetPhi := tPhi |};
         isDragging := isDragging c;
         previousMouse := previousMouse c |}
  end.

Inductive CameraEvent : Type :=
| MouseDown (clientX clientY : R)
| MouseMove (clientX clientY : R)
| MouseUp
| Frame (char : option R) (resetCamera : bool).

Definition cameraStep (c : CameraRig) (e : CameraEvent) : CameraRig :=
  match e with
  | MouseDown x y => onMouseDown x y c
  | MouseMove x y => onMouseMove x y c
  | MouseUp => onMouseUp c
  | Frame char reset => animateCamera char reset c
  end.

Definition cameraRun (events : list CameraEvent) : CameraRig :=
  foldl cameraStep initialRig events.

(** ** Concrete inputs used by the examples *)

Definition origin : Vector3 := mkV3 0 0 0.

Definition noKeys : ControlState.t :=
  ControlState.mk false false false false false false false.

Definition jumpKey : ControlState.t :=
  ControlState.mk false false false false true false false.

Definition forwardKey : ControlState.t :=
  ControlState.mk true false false false false false false.

Definition idleStick : JoystickData.t := JoystickData.mk 0 0 false.

(** The clips of the default asset that [update] refers to. *)
Definition robotClips : list string := [Idle; Walking; Running; Jump].

(** The world boxes of the three obstacles of [GameCanvas]:
    [createObstacle(pos, size)] centres a box of that size at [pos]
    raised by half its height. *)
Definition sceneObstacles : list Box3 :=
  [ mkBox3 (mkV3 8 0 8) (mkV3 12 8 12);
    mkBox3 (mkV3 (-18) 0 2) (mkV3 (-12) 4 8);
    mkBox3 (mkV3 0 0 (-21)) (mkV3 10 2 (-19)) ].

(** ** Predicates used in the statements *)

(** Both pitch angles of the rig are within the clamp bounds. *)
Definition pitchInRange (c : CameraRig) : Prop :=
  - 0.2 <= targetPhi (cameraOrbit c) <= 1.3 /\
  - 0.2 <= phi (cameraOrbit c) <= 1.3.

(** The position is on or above the floor and within [radius] of no
    obstacle: neither rule of [checkCollisions] applies to it. *)
Definition resolved (obstacles : list Box3) (u : Unit) : Prop :=
  0 <= vy (position u) /\
  Forall (fun box =>
            ~ Vector3.distanceTo (position u)
                (Box3.clampPoint box (position u)) < radius) obstacles.

(** [min <= max] on every axis. *)
Definition boxOrdered (box : Box3) : Prop :=
  vx (bmin box) <= vx (bmax box) /\
  vy (bmin box) <= vy (bmax box) /\
  vz (bmin box) <= vz (bmax box).

(** The point lies in the box, faces included. *)
Definition insideBox (box : Box3) (p : Vector3) : Prop :=
  vx (bmin box) <= vx p <= vx (bmax box) /\
  vy (bmin box) <= vy p <= vy (bmax box) /\
  vz (bmin box) <= vz p <= vz (bmax box).

(** One tick of the walking scenario: [forward] held, no run, joystick
    idle, camera angle 0, [delta = 0.016], no animation override. *)
Definition walkTick (obstacles : list Box3) (u : Unit) : Unit :=
  tick 0.016 forwardKey idleStick 0 None obstacles u.

(** Flat ground along the walk: no obstacle is within [radius] of a
    floor point of the segment from the origin to [(0, 0, -6)]. *)
Definition clearPath (obstacles : list Box3) : Prop :=
  forall z : R, - 6 <= z <= 0 ->
    Forall (fun box =>
              ~ Vector3.distanceTo (mkV3 0 0 z)
                  (Box3.clampPoint box (mkV3 0 0 z)) < radius) obstacles.

(** The state of the walking scenario after [n] ticks, counted from a
    unit at the origin, at rest and grounded. *)
Definition walking (n : nat) (u : Unit) : Prop :=
  (exists t, mixer u = Some t) /\
  isGrounded u = true /\
  Walking ∈ actions u /\
  vx (position u) = 0 /\
  vy (position u) = 0 /\
  - 0.096 * INR n <= vz (position u) <= 0 /\
  vx (velocity u) = 0 /\
  vz (velocity u) = - (6 * (1 - 0.85 ^ n)).

(** ** Runs of ticks *)

(** What [animate] passes to [char.update] in one frame, besides
    [delta]. *)
Record TickInput : Type := mkTickInput {
  tiControls : ControlState.t;
  tiJoystick : JoystickData.t;
  tiCameraTheta : R;
  tiTestAnimation : option string
}.

Definition updateWith (delta : R) (u : Unit) (i : TickInput) : Unit :=
  update delta (tiControls i) (tiJoystick i) (tiCameraTheta i)
    (tiTestAnimation i) u.

Definition tickWith (delta : R) (obstacles : list Box3) (u : Unit)
    (i : TickInput) : Unit :=
  tick delta (tiControls i) (tiJoystick i) (tiCameraTheta i)
    (tiTestAnimation i) obstacles u.

(** Successive frames with the same [delta], one input per frame. *)
Definition runTicks (delta : R) (obstacles : list Box3)
    (inputs : list TickInput) (u : Unit) : Unit :=
  foldl (tickWith delta obstacles) u inputs.

(** The box does not float: its bottom face is at or below the floor. *)
Definition restsOnFloor (box : Box3) : Prop :=
  boxOrdered box /\ vy (bmin box) <= 0.

(** The state of a loaded unit between frames on open ground, with
    [delta] the frame time: on the floor when grounded, and otherwise
    above it with the quantity [y + (vy - 16 delta)^2 / 64], which an
    airborne [update] conserves, no larger than right after a jump. *)
Definition jumpBound (delta : R) (u : Unit) : Prop :=
  (exists t, mixer u = Some t) /\
  0 <= vy (position u) /\
  (isGrounded u = true -> vy (position u) = 0) /\
  (isGrounded u = false ->
     vy (position u)
     + (vy (velocity u) - 16 * delta) * (vy (velocity u) - 16 * delta) / 64
     <= (13 + 16 * delta) * (13 + 16 * delta) / 64).

(** ** Camera follow ([animate], after the character logic) *)

(** [dist] and [offset] *)
Definition cameraOffset (run : bool) (o : CameraOrbit) : Vector3 :=
  let dist := if run then 8.5 else 7.0 in
  mkV3 (dist * sin (theta o) * cos (phi o))
       (dist * sin (phi o))
       (dist * cos (theta o) * cos (phi o)).

(** [camera.position.copy(char.group.position).add(offset).add(new Vector3(0, 1.8, 0))] *)
Definition cameraPosition (run : bool) (o : CameraOrbit) (charPosition : Vector3)
    : Vector3 :=
  Vector3.add (Vector3.add charPosition (cameraOffset run o)) (mkV3 0 1.8 0).

(** The point given to [camera.lookAt]. *)
Definition cameraTarget (charPosition : Vector3) : Vector3 :=
  Vector3.add charPosition (mkV3 0 1.8 0).

(** Pointer moves, in order, each with its [clientX] and [clientY]. *)
Definition dragMoves (moves : list (R * R)) (c : CameraRig) : CameraRig :=
  foldl (fun c m => onMouseMove (fst m) (snd m) c) c moves.

(** Frames with a character present and no recenter, one heading per
    frame. *)
Definition smoothFrames (headings : list R) (c : CameraRig) : CameraRig :=
  foldl (fun c h => animateCamera (Some h) false c) c headings.

(** ** Dust particles ([spawnDust] and the particle loop of [animate]) *)

(** One entry of [dustParticles.current]: the mesh's position, scale
    and opacity, the velocity and the remaining life. *)
Record Particle : Type := mkParticle {
  pPosition : Vector3;
  pVelocity : Vector3;
  pLife : R;
  pScale : R;
  pOpacity : R
}.

(** One particle of [spawnDust(pos)]; [r1 .. r5] are the values of the
    five [Math.random()] calls, in the order in which they are made. *)
Definition newParticle (pos : Vector3) (r1 r2 r3 r4 r5 : R) : Particle :=
  {| pPosition :=
       Vector3.add pos (mkV3 ((r1 - 0.5) * 0.5) 0.05 ((r2 - 0.5) * 0.5));
     pVelocity := mkV3 ((r3 - 0.5) * 2) (r4 * 2 + 1) ((r5 - 0.5) * 2);
     pLife := 1.0;
     pScale := 1;
     pOpacity := 0.5 |}.

(** [spawnDust(pos)]: [particleCount = 15] particles are pushed;
    [random k] is the value of the [k]-th call to [Math.random()] made
    by this invocation. *)
Fixpoint spawnLoop (random : nat -> R) (pos : Vector3) (i : nat) (count : nat)
    (particles : list Particle) : list Particle :=
  match count with
  | O => particles
  | S rest =>
      spawnLoop random pos (S i) rest
        (particles ++
           [newParticle pos (random (5 * i)%nat) (random (5 * i + 1)%nat)
              (random (5 * i + 2)%nat) (random (5 * i + 3)%nat)
              (random (5 * i + 4)%nat)])
  end.

Definition spawnDust (random : nat -> R) (pos : Vector3)
    (particles : list Particle) : list Particle :=
  spawnLoop random pos 0 15 particles.

(** [p.life -= delta * 0.8] *)
Definition ageParticle (delta : R) (p : Particle) : Particle :=
  mkParticle (pPosition p) (pVelocity p) (pLife p - delta * 0.8)
    (pScale p) (pOpacity p).

(** The [else] branch of the loop body, on an aged particle. *)
Definition moveParticle (delta : R) (p : Particle) : Particle :=
  {| pPosition :=
       Vector3.add (pPosition p) (Vector3.multiplyScalar (pVelocity p) delta);
     pVelocity :=
       mkV3 (vx (pVelocity p)) (vy (pVelocity p) - 2.0 * delta)
            (vz (pVelocity p));
     pLife := pLife p;
     pScale := 1.0 + (1.0 - pLife p) * 4;
     pOpacity := pLife p * 0.5 |}.

(** The loop [for (let i = length - 1; i >= 0; i--)], entered with
    [i = k - 1].  [None] stands for the [TypeError] of reading [p.life]
    when [dustParticles.current[i]] is [undefined]. *)
Fixpoint dustLoop (delta : R) (k : nat) (particles : list Particle)
    : option (list Particle) :=
  match k with
  | O => Some particles
  | S i =>
      match particles !! i with
      | None => None
      | Some p =>
          let p := ageParticle delta p in
          if Rle_dec (pLife p) 0
          then dustLoop delta i (delete i particles)
          else dustLoop delta i (<[i := moveParticle delta p]> particles)
      end
  end.

Definition updateDust (delta : R) (particles : list Particle)
    : option (list Particle) :=
  dustLoop delta (length particles) particles.

(** What one frame does to one particle: [None] when it is removed. *)
Definition stepParticle (delta : R) (p : Particle) : option Particle :=
  let p := ageParticle delta p in
  if Rle_dec (pLife p) 0 then None else Some (moveParticle delta p).

(** Frames in a row, one [delta] each. *)
Definition dustFrames (deltas : list R) (particles : list Particle)
    : option (list Particle) :=
  foldl (fun ps delta => ps ≫= updateDust delta) (Some particles) deltas.

(** The sum of the frame times of a run of frames. *)
Definition totalTime (deltas : list R) : R := foldr Rplus 0 deltas.

(** The particle as it is after frames of total time [time], if it is
    still there (what the loop does to a survivor, frame by frame). *)
Fixpoint survivor (deltas : list R) (p : Particle) : Particle :=
  match deltas with
  | [] => p
  | delta :: rest => survivor rest (moveParticle delta (ageParticle delta p))
  end.

(** ** Keyboard and gamepad input ([src/hooks/useControls.ts]) *)

(** Assignments to the fields of [controlState.current]. *)
Definition setForward (b : bool) (c : ControlState.t) : ControlState.t :=
  ControlState.mk b (ControlState.backward c) (ControlState.left c)
    (ControlState.right c) (ControlState.jump c) (ControlState.run c)
    (ControlState.resetCamera c).

Definition setBackward (b : bool) (c : ControlState.t) : ControlState.t :=
  ControlState.mk (ControlState.forward c) b (ControlState.left c)
    (ControlState.right c) (ControlState.jump c) (ControlState.run c)
    (ControlState.resetCamera c).

Definition setLeft (b : bool) (c : ControlState.t) : ControlState.t :=
  ControlState.mk (ControlState.forward c) (ControlState.backward c) b
    (ControlState.right c) (ControlState.jump c) (ControlState.run c)
    (ControlState.resetCamera c).

Definition setRight (b : bool) (c : ControlState.t) : ControlState.t :=
  ControlState.mk (ControlState.forward c) (ControlState.backward c)
    (ControlState.left c) b (ControlState.jump c) (ControlState.run c)
    (ControlState.resetCamera c).

Definition setJump (b : bool) (c : ControlState.t) : ControlState.t :=
  ControlState.mk (ControlState.forward c) (ControlState.backward c)
    (ControlState.left c) (ControlState.right c) b (ControlState.run c)
    (ControlState.resetCamera c).

Definition setRun (b : bool) (c : ControlState.t) : ControlState.t :=
  ControlState.mk (ControlState.forward c) (ControlState.backward c)
    (ControlState.left c) (ControlState.right c) (ControlState.jump c) b
    (ControlState.resetCamera c).

Definition setResetCamera (b : bool) (c : ControlState.t) : ControlState.t :=
  ControlState.mk (ControlState.forward c) (ControlState.backward c)
    (ControlState.left c) (ControlState.right c) (ControlState.jump c)
    (ControlState.run c) b.

(** [handleKeyDown]: the [switch (e.code)], case by case. *)
Definition handleKeyDown (code : string) (c : ControlState.t)
    : ControlState.t :=
  if (String.eqb code "KeyW" || String.eqb code "ArrowUp")%bool
  then setForward true c
  else if (String.eqb code "KeyS" || String.eqb code "ArrowDown")%bool
  then setBackward true c
  else if (String.eqb code "KeyA" || String.eqb code "ArrowLeft")%bool
  then setLeft true c
  else if (String.eqb code "KeyD" || String.eqb code "ArrowRight")%bool
  then setRight true c
  else if String.eqb code "Space" then setJump true c
  else if String.eqb code "ShiftLeft" then setRun true c
  else if String.eqb code "KeyR" then setResetCamera true c
  else c.

(** [handleKeyUp] *)
Definition handleKeyUp (code : string) (c : ControlState.t)
    : ControlState.t :=
  if (String.eqb code "KeyW" || String.eqb code "ArrowUp")%bool
  then setForward false c
  else if (String.eqb code "KeyS" || String.eqb code "ArrowDown")%bool
  then setBackward false c
  else if (String.eqb code "KeyA" || String.eqb code "ArrowLeft")%bool
  then setLeft false c
  else if (String.eqb code "KeyD" || String.eqb code "ArrowRight")%bool
  then setRight false c
  else if String.eqb code "Space" then setJump false c
  else if String.eqb code "ShiftLeft" then setRun false c
  else if String.eqb code "KeyR" then setResetCamera false c
  else c.

(** The two listeners that [useControls] registers on [window]. *)
Inductive KeyEvent : Type :=
| KeyDown (code : string)
| KeyUp (code : string).

Definition keyStep (c : ControlState.t) (e : KeyEvent) : ControlState.t :=
  match e with
  | KeyDown code => handleKeyDown code c
  | KeyUp code => handleKeyUp code c
  end.

Definition keyRun (events : list KeyEvent) (c : ControlState.t)
    : ControlState.t :=
  foldl keyStep c events.

(** A [Gamepad]: its axes and the [pressed] field of each of its
    buttons. *)
Record Gamepad : Type := mkGamepad {
  axes : list R;
  buttons : list bool
}.

(** [a < b] where [a] may be [undefined]: the comparison is then
    [false]. *)
Definition jsLt (a : option R) (b : R) : bool :=
  match a with
  | Some v => if Rlt_dec v b then true else false
  | None => false
  end.

(** [a > b] where [a] may be [undefined]. *)
Definition jsGt (a : option R) (b : R) : bool :=
  match a with
  | Some v => if Rgt_dec v b then true else false
  | None => false
  end.

(** How a call ended, with [controlState.current] as the call left
    it: [Threw] stands for the [TypeError] of reading [pressed] of an
    [undefined] button. *)
Inductive Polled : Type :=
| Returned (c : ControlState.t)
| Threw (c : ControlState.t).

Definition polledState (p : Polled) : ControlState.t :=
  match p with
  | Returned c => c
  | Threw c => c
  end.

(** [updateGamepad]; [gamepads] is the array of
    [navigator.getGamepads()], whose entries are gamepads or [null]. *)
Definition updateGamepad (gamepads : list (option Gamepad))
    (c : ControlState.t) : Polled :=
  match mjoin (gamepads !! 0%nat) with
  | None => Returned c
  | Some gp =>
      let axisX := axes gp !! 0%nat in
      let axisY := axes gp !! 1%nat in
      let threshold := 0.15 in
      let c := setForward (jsLt axisY (- threshold)) c in
      let c := setBackward (jsGt axisY threshold) c in
      let c := setLeft (jsLt axisX (- threshold)) c in
      let c := setRight (jsGt axisX threshold) c in
      match buttons gp !! 0%nat with
      | None => Threw c
      | Some pressed0 =>
          let c := setJump pressed0 c in
          match buttons gp !! 10%nat with
          | None => Threw c
          | Some pressed10 =>
              let c := setRun pressed10 c in
              match buttons gp !! 3%nat with
              | None => Threw c
              | Some pressed3 => Returned (setResetCamera pressed3 c)
              end
          end
      end
  end.

(** ** The speed read-out ([updateUI] of [App], [src/unnamed/part_000]) *)

Record Hud : Type := mkHud {
  isBoosting : bool;
  speedPercent : R
}.

(** The [useState] initial values. *)
Definition initialHud : Hud := mkHud false 0.

(** [targetSpeed] as [updateUI] computes it. *)
Definition targetSpeed (controls : ControlState.t) (joystick : JoystickData.t)
    : R :=
  let targetSpeed := 0 in
  let isUsingJoystick := JoystickData.active joystick in
  let joystickIntensity :=
    if isUsingJoystick
    then Rmin (sqrt (JoystickData.x joystick ^ 2 + JoystickData.y joystick ^ 2))
              1.0
    else 0 in
  let isUsingKeys :=
    (ControlState.forward controls || ControlState.backward controls
     || ControlState.left controls || ControlState.right controls)%bool in
  if (isUsingKeys || isUsingJoystick)%bool
  then
    let basePotential := if ControlState.run controls then 100 else 50 in
    let currentIntensity := if isUsingJoystick then joystickIntensity else 1.0 in
    basePotential * currentIntensity
  else targetSpeed.

(** One [updateUI]: [setIsBoosting] and the [setSpeedPercent] updater. *)
Definition updateUI (controls : ControlState.t) (joystick : JoystickData.t)
    (h : Hud) : Hud :=
  mkHud (ControlState.run controls)
    (speedPercent h
     + (targetSpeed controls joystick - speedPercent h) * 0.1).

(** Animation frames in a row, each with the inputs it reads. *)
Definition hudFrames (inputs : list (ControlState.t * JoystickData.t))
    (h : Hud) : Hud :=
  foldl (fun h i => updateUI (fst i) (snd i) h) h inputs.

(** ** The on-screen joystick ([Joystick] of [GameCanvas.tsx]) *)

Module Joystick.

Record Touch : Type := mkTouch {
  identifier : Z;
  touchX : R;
  touchY : R
}.

(** The events the handlers receive: a mouse event with its
    [clientX], [clientY], or a touch event (the one with a [touches]
    field) with its [touches] and [changedTouches]. *)
Inductive Event : Type :=
| MouseEvent (clientX clientY : R)
| TouchEvent (touches changedTouches : list Touch).

(** [getBoundingClientRect()] of the joystick base. *)
Record DOMRect : Type := mkRect {
  rectLeft : R;
  rectTop : R;
  rectWidth : R;
  rectHeight : R
}.

(** The component's [position] and [isDragging] states and its
    [activeTouchId] ref ([None] for [null]). *)
Record State : Type := mkState {
  position : R * R;
  isDragging : bool;
  activeTouchId : option Z
}.

Definition initialState : State := mkState (0, 0) false None.

(** What a handler did: the state it left and the argument of its
    [onMove] call, if it made one. *)
Definition Step : Type := State * option JoystickData.t.

(** [t.identifier === activeTouchId.current] *)
Definition isTracked (s : State) (t : Touch) : bool :=
  match activeTouchId s with
  | Some id => Z.eqb (identifier t) id
  | None => false
  end.

(** [handleStart]; [None] stands for the [TypeError] of reading
    [identifier] of [changedTouches[0]] when there is none. *)
Definition handleStart (e : Event) (s : State) : option State :=
  match e with
  | TouchEvent _ changedTouches =>
      match changedTouches !! 0%nat with
      | Some t => Some (mkState (position s) true (Some (identifier t)))
      | None => None
      end
  | MouseEvent _ _ => Some (mkState (position s) true (activeTouchId s))
  end.

(** The part of [handleMove] after the pointer is found: from its
    client coordinates to the knob position and the [onMove] data. *)
Definition moveTo (rect : DOMRect) (clientX clientY : R)
    : (R * R) * JoystickData.t :=
  let centerX := rectLeft rect + rectWidth rect / 2 in
  let centerY := rectTop rect + rectHeight rect / 2 in
  let dx := clientX - centerX in
  let dy := clientY - centerY in
  let distance := sqrt (dx * dx + dy * dy) in
  let maxDistance := rectWidth rect / 2 in
  let limitedDistance := Rmin distance maxDistance in
  let angle := JsMath.atan2 dy dx in
  let x := cos angle * (limitedDistance / maxDistance) in
  let y := sin angle * (limitedDistance / maxDistance) in
  ((cos angle * limitedDistance, sin angle * limitedDistance),
   JoystickData.mk x y true).

(** [handleMove]; [container] is [containerRef.current]'s rectangle,
    [None] when the ref is empty. *)
Definition handleMove (container : option DOMRect) (e : Event) (s : State)
    : Step :=
  match isDragging s, container with
  | true, Some rect =>
      let pointer :=
        match e with
        | TouchEvent touches _ =>
            match List.find (isTracked s) touches with
            | Some touch => Some (touchX touch, touchY touch)
            | None => None
            end
        | MouseEvent clientX clientY => Some (clientX, clientY)
        end in
      match pointer with
      | None => (s, None)
      | Some (clientX, clientY) =>
          let '(knob, data) := moveTo rect clientX clientY in
          (mkState knob (isDragging s) (activeTouchId s), Some data)
      end
  | _, _ => (s, None)
  end.

(** [handleEnd] *)
Definition handleEnd (e : Event) (s : State) : Step :=
  let isOurTouch :=
    match e with
    | TouchEvent _ changedTouches => existsb (isTracked s) changedTouches
    | MouseEvent _ _ => true
    end in
  if isOurTouch
  then (mkState (0, 0) false None, Some (JoystickData.mk 0 0 false))
  else (s, None).

End Joystick.

(** [handleJoystickMove] of [App]: the data of an [onMove] call
    replaces [joystickState.current]. *)
Definition handleJoystickMove (data : JoystickData.t) (joystick : JoystickData.t)
    : JoystickData.t := data.

(** [joystickState.current] after a handler of the joystick has run. *)
Definition afterStep (step : Joystick.Step) (joystick : JoystickData.t)
    : JoystickData.t :=
  match snd step with
  | Some data => handleJoystickMove data joystick
  | None => joystick
  end.

(** What a key event says about a flag whose key codes are [codes]:
    [Some true] for a press of one of them, [Some false] for a release,
    [None] for an event of another key. *)
Definition eventFor (codes : list string) (e : KeyEvent) : option bool :=
  match e with
  | KeyDown code =>
      if existsb (String.eqb code) codes then Some true else None
  | KeyUp code =>
      if existsb (String.eqb code) codes then Some false else None
  end.

(** The last thing a run of key events says about a flag that starts
    as [init]. *)
Definition lastEvent (codes : list string) (events : list KeyEvent)
    (init : bool) : bool :=
  foldl (fun b e => default b (eventFor codes e)) init events.

(** Whether a direction key is down whose opposite is not. *)
Definition keysPush (c : ControlState.t) : bool :=
  (xorb (ControlState.forward c) (ControlState.backward c)
   || xorb (ControlState.left c) (ControlState.right c))%bool.

(** ** Frames of [animate], each with its own frame time *)

(** [delta] of a frame: [Math.min(clock.getDelta(), 0.1)], where
    [elapsed] is what [clock.getDelta()] returns. *)
Definition frameDelta (elapsed : R) : R := Rmin elapsed 0.1.

(** Successive frames: each has its own clock reading and inputs. *)
Definition runFrames (obstacles : list Box3) (frames : list (R * TickInput))
    (u : Unit) : Unit :=
  foldl (fun u f => tickWith (frameDelta (fst f)) obstacles u (snd f))
    u frames.

(** The state of a loaded unit between frames on open ground, whatever
    the frame times: on the floor when grounded, and otherwise above it
    with the quantity [y + vy^2 / 64], which no airborne [update]
    increases, at most [bound]. *)
Definition jumpEnergy (bound : R) (u : Unit) : Prop :=
  (exists t, mixer u = Some t) /\
  0 <= vy (position u) /\
  (isGrounded u = true -> vy (position u) = 0) /\
  (isGrounded u = false ->
     vy (position u) + vy (velocity u) * vy (velocity u) / 64 <= bound).

(** ** [update] with the [normalize()] of its step 1 as a parameter

    The same [update], with the function that stands for the call
    [.normalize()] on the move direction taken as an argument; with
    [Vector3.normalize] for it this is [update] itself.  It serves to
    say on which vectors the result of [update] depends on
    [normalize]. *)

Section UpdateBy.

Variable normalize : Vector3 -> Vector3.
Variable delta : R.
Variable controls : ControlState.t.
Variable joystick : JoystickData.t.
Variable cameraTheta : R.
Variable testAnimation : option string.

Definition steerBy (u : Unit) : Unit :=
  let inputMag := inputMag controls joystick in
  let speed := speed controls in
  if Rgt_dec inputMag 0.05 then
    let moveDir := normalize (moveDirRaw controls joystick cameraTheta) in
    let targetRot := JsMath.atan2 (vx moveDir) (vz moveDir) in
    let u := setRotationY (rotationY u + yawDelta (rotationY u) targetRot) u in
    let u :=
      setVelocity
        (mkV3 (MathUtils.lerp (vx (velocity u)) (vx moveDir * inputMag * speed) 0.15)
              (vy (velocity u))
              (vz (velocity u))) u in
    setVelocity
      (mkV3 (vx (velocity u))
            (vy (velocity u))
            (MathUtils.lerp (vz (velocity u)) (vz moveDir * inputMag * speed) 0.15)) u
  else
    let u :=
      setVelocity
        (mkV3 (MathUtils.lerp (vx (velocity u)) 0 0.15)
              (vy (velocity u))
              (vz (velocity u))) u in
    setVelocity
      (mkV3 (vx (velocity u))
            (vy (velocity u))
            (MathUtils.lerp (vz (velocity u)) 0 0.15)) u.

Definition updateBy (u : Unit) : Unit :=
  match mixer u with
  | None => u
  | Some _ =>
      stepAnimations delta testAnimation
        (applyVelocity delta (gravityJump delta controls (steerBy u)))
  end.

End UpdateBy.

(** * Properties *)

(** ** Frame lemmas: what each step of [update] and [checkCollisions]
    leaves alone *)

Section UpdateFrames.

Variable delta : R.
Variable controls : ControlState.t.
Variable joystick : JoystickData.t.
Variable cameraTheta : R.
Variable testAnimation : option string.

Lemma steer_isGrounded u :
  isGrounded (steer controls joystick cameraTheta u) = isGrounded u.
Proof. unfold steer. destruct (Rgt_dec _ _); reflexivity. Qed.

Lemma steer_vy u :
  vy (velocity (steer controls joystick cameraTheta u)) = vy (velocity u).
Proof. unfold steer. destruct (Rgt_dec _ _); reflexivity. Qed.

Lemma steer_position u :
  position (steer controls joystick cameraTheta u) = position u.
Proof. unfold steer. destruct (Rgt_dec _ _); reflexivity. Qed.

Lemma steer_dustCalls u :
  dustCalls (steer controls joystick cameraTheta u) = dustCalls u.
Proof. unfold steer. destruct (Rgt_dec _ _); reflexivity. Qed.

Lemma gravityJump_position u :
  position (gravityJump delta controls u) = position u.
Proof.
  unfold gravityJump. repeat case_match; reflexivity.
Qed.

Lemma gravityJump_dustCalls u :
  dustCalls (gravityJump delta controls u) = dustCalls u.
Proof.
  unfold gravityJump. repeat case_match; reflexivity.
Qed.

Lemma gravityJump_vx u :
  vx (velocity (gravityJump delta controls u)) = vx (velocity u).
Proof.
  unfold gravityJump. repeat case_match; reflexivity.
Qed.

Lemma gravityJump_vz u :
  vz (velocity (gravityJump delta controls u)) = vz (velocity u).
Proof.
  unfold gravityJump. repeat case_match; reflexivity.
Qed.

Lemma gravityJump_grounded_nojump u :
  isGrounded u = true -> ControlState.jump controls = false ->
  isGrounded (gravityJump delta controls u) = true /\
  vy (velocity (gravityJump delta controls u)) = 0.
Proof.
  intros Hg Hj. unfold gravityJump. rewrite Hg, Hj. simpl. auto.
Qed.

Lemma gravityJump_grounded_jump u :
  isGrounded u = true -> ControlState.jump controls = true ->
  isGrounded (gravityJump delta controls u) = false /\
  vy (velocity (gravityJump delta controls u)) = 13.0.
Proof.
  intros Hg Hj. unfold gravityJump. rewrite Hg, Hj.
  case_match; split; reflexivity.
Qed.

Lemma stepAnimations_velocity u :
  velocity (stepAnimations delta testAnimation u) = velocity u.
Proof. unfold stepAnimations. repeat case_match; reflexivity. Qed.

Lemma stepAnimations_isGrounded u :
  isGrounded (stepAnimations delta testAnimation u) = isGrounded u.
Proof. unfold stepAnimations. repeat case_match; reflexivity. Qed.

Lemma stepAnimations_position u :
  position (stepAnimations delta testAnimation u) = position u.
Proof. unfold stepAnimations. repeat case_match; reflexivity. Qed.

Lemma stepAnimations_capsule u :
  capsuleStart (stepAnimations delta testAnimation u) = capsuleStart u /\
  capsuleEnd (stepAnimations delta testAnimation u) = capsuleEnd u.
Proof. unfold stepAnimations. repeat case_match; split; reflexivity. Qed.

Lemma stepAnimations_dustCalls u :
  dustCalls (stepAnimations delta testAnimation u) = dustCalls u.
Proof. unfold stepAnimations. repeat case_match; reflexivity. Qed.

Lemma stepAnimations_mixer u :
  mixer (stepAnimations delta testAnimation u)
  = option_map (fun t => t + delta) (mixer u).
Proof. unfold stepAnimations. repeat case_match; reflexivity. Qed.

Lemma stepAnimations_actions u :
  actions (stepAnimations delta testAnimation u) = actions u.
Proof. unfold stepAnimations. repeat case_match; reflexivity. Qed.

Lemma steer_static u :
  mixer (steer controls joystick cameraTheta u) = mixer u /\
  actions (steer controls joystick cameraTheta u) = actions u /\
  currentAction (steer controls joystick cameraTheta u) = currentAction u.
Proof. unfold steer. destruct (Rgt_dec _ _); repeat split; reflexivity. Qed.

Lemma gravityJump_static u :
  mixer (gravityJump delta controls u) = mixer u /\
  actions (gravityJump delta controls u) = actions u /\
  currentAction (gravityJump delta controls u) = currentAction u /\
  rotationY (gravityJump delta controls u) = rotationY u.
Proof. unfold gravityJump. repeat case_match; repeat split; reflexivity. Qed.

Lemma stepAnimations_rotationY u :
  rotationY (stepAnimations delta testAnimation u) = rotationY u.
Proof. unfold stepAnimations. repeat case_match; reflexivity. Qed.

Lemma update_loaded u t :
  mixer u = Some t ->
  update delta controls joystick cameraTheta testAnimation u
  = stepAnimations delta testAnimation
      (applyVelocity delta
         (gravityJump delta controls
            (steer controls joystick cameraTheta u))).
Proof. intros H. unfold update. rewrite H. reflexivity. Qed.

Lemma update_dustCalls u :
  dustCalls (update delta controls joystick cameraTheta testAnimation u)
  = dustCalls u.
Proof.
  unfold update. destruct (mixer u); [|reflexivity].
  rewrite stepAnimations_dustCalls. unfold applyVelocity; simpl.
  rewrite gravityJump_dustCalls. apply steer_dustCalls.
Qed.

Lemma update_grounded_nojump u :
  isGrounded u = true -> ControlState.jump controls = false ->
  isGrounded (update delta controls joystick cameraTheta testAnimation u)
  = true.
Proof.
  intros Hg Hj. unfold update. destruct (mixer u); [|exact Hg].
  rewrite stepAnimations_isGrounded. unfold applyVelocity; simpl.
  apply gravityJump_grounded_nojump; [|exact Hj].
  rewrite steer_isGrounded. exact Hg.
Qed.

End UpdateFrames.

Lemma load_frame clips u :
  mixer (load clips u) = Some 0 /\
  position (load clips u) = position u /\
  velocity (load clips u) = velocity u /\
  isGrounded (load clips u) = isGrounded u /\
  actions (load clips u)
  = foldl (fun (m : gset string) name => m ∪ {[ name ]}) (actions u) clips.
Proof. unfold load. cbv zeta. case_match; repeat split; reflexivity. Qed.

Lemma load_mixer clips u : mixer (load clips u) = Some 0.
Proof. apply load_frame. Qed.

Lemma vector3_eq a b :
  vx a = vx b -> vy a = vy b -> vz a = vz b -> a = b.
Proof. destruct a, b; simpl; intros -> -> ->; reflexivity. Qed.

Lemma collideFloor_frame u :
  velocity (collideFloor u) = velocity u /\
  capsuleStart (collideFloor u) = capsuleStart u /\
  capsuleEnd (collideFloor u) = capsuleEnd u /\
  mixer (collideFloor u) = mixer u /\
  actions (collideFloor u) = actions u /\
  currentAction (collideFloor u) = currentAction u.
Proof.
  unfold collideFloor. cbv zeta. repeat case_match; repeat split; reflexivity.
Qed.

Lemma collideFloor_on_floor u :
  vy (position u) <= 0 ->
  position (collideFloor u) = mkV3 (vx (position u)) 0 (vz (position u)) /\
  isGrounded (collideFloor u) = true /\
  dustCalls (collideFloor u)
  = if isGrounded u then dustCalls u
    else dustCalls u ++ [mkV3 (vx (position u)) 0 (vz (position u))].
Proof.
  intros Hy. unfold collideFloor. cbv zeta. simpl.
  destruct (Rle_dec _ _) as [_|n]; [|contradiction].
  destruct (isGrounded u); repeat split; reflexivity.
Qed.

Lemma collideFloor_above_floor u :
  ~ vy (position u) <= 0 ->
  position (collideFloor u) = position u /\
  isGrounded (collideFloor u) = false /\
  dustCalls (collideFloor u) = dustCalls u.
Proof.
  intros Hy. unfold collideFloor. cbv zeta. simpl.
  destruct (Rle_dec _ _) as [le|_]; [contradiction|].
  repeat split; reflexivity.
Qed.

Lemma collideObstacle_frame u box :
  isGrounded (collideObstacle u box) = isGrounded u /\
  dustCalls (collideObstacle u box) = dustCalls u /\
  capsuleStart (collideObstacle u box) = capsuleStart u /\
  capsuleEnd (collideObstacle u box) = capsuleEnd u /\
  mixer (collideObstacle u box) = mixer u /\
  actions (collideObstacle u box) = actions u /\
  currentAction (collideObstacle u box) = currentAction u.
Proof.
  unfold collideObstacle.
  destruct (penetration box u) as [[c d]|]; simpl; repeat split; reflexivity.
Qed.

Lemma obstacles_frame obstacles : forall u,
  isGrounded (foldl collideObstacle u obstacles) = isGrounded u /\
  dustCalls (foldl collideObstacle u obstacles) = dustCalls u /\
  capsuleStart (foldl collideObstacle u obstacles) = capsuleStart u /\
  capsuleEnd (foldl collideObstacle u obstacles) = capsuleEnd u /\
  mixer (foldl collideObstacle u obstacles) = mixer u /\
  actions (foldl collideObstacle u obstacles) = actions u /\
  currentAction (foldl collideObstacle u obstacles) = currentAction u.
Proof.
  induction obstacles as [|box rest IH]; intros u; simpl.
  - repeat split; reflexivity.
  - destruct (IH (collideObstacle u box)) as (H1 & H2 & H3 & H4 & H5 & H6 & H7).
    destruct (collideObstacle_frame u box) as (G1 & G2 & G3 & G4 & G5 & G6 & G7).
    rewrite H1, H2, H3, H4, H5, H6, H7. repeat split; assumption.
Qed.

Lemma checkCollisions_dust_grounded obstacles u :
  isGrounded u = true ->
  dustCalls (checkCollisions obstacles u) = dustCalls u.
Proof.
  intros Hg. unfold checkCollisions.
  destruct (obstacles_frame obstacles (collideFloor u)) as (_ & H & _).
  rewrite H.
  destruct (Rle_dec (vy (position u)) 0) as [le|nle].
  - destruct (collideFloor_on_floor u le) as (_ & _ & Hd).
    rewrite Hd, Hg. reflexivity.
  - apply (collideFloor_above_floor u nle).
Qed.

(** C10: while [mixer] is unset, [update] returns the unit as it was:
    position, velocity, heading, grounded flag, current action and every
    other field, for every delta, control state, joystick state, camera
    angle and animation override. *)
Theorem update_before_load_is_noop :
  forall delta controls joystick cameraTheta testAnimation u,
    mixer u = None ->
    update delta controls joystick cameraTheta testAnimation u = u.
Proof.
  intros delta controls joystick cameraTheta testAnimation u H.
  unfold update. rewrite H. reflexivity.
Qed.

Lemma update_before_load_is_noop_witness :
  mixer (newUnit origin) = None /\
  update 0.016 jumpKey idleStick PI (Some Walking) (newUnit origin)
  = newUnit origin.
Proof.
  split; [reflexivity|].
  apply (update_before_load_is_noop 0.016 jumpKey idleStick PI (Some Walking)
           (newUnit origin)).
  reflexivity.
Defined.

(** ** Jump impulse *)

Lemma projectOnPlane_zero n :
  Vector3.projectOnPlane Vector3.zero n = Vector3.zero.
Proof.
  unfold Vector3.projectOnPlane, Vector3.projectOnVector.
  destruct (Req_dec_T _ _) as [e|ne];
    unfold Vector3.sub, Vector3.multiplyScalar, Vector3.dot, Vector3.zero;
    simpl; f_equal; try lra; field; exact ne.
Qed.

Lemma update_unloaded delta controls joystick cameraTheta testAnimation u :
  mixer u = None ->
  update delta controls joystick cameraTheta testAnimation u = u.
Proof. intros H. unfold update. rewrite H. reflexivity. Qed.

Lemma first_tick_unloaded delta controls joystick cameraTheta testAnimation obstacles :
  let u := tick delta controls joystick cameraTheta testAnimation obstacles
             (newUnit origin) in
  mixer u = None /\ isGrounded u = true /\ velocity u = Vector3.zero.
Proof.
  cbv zeta. unfold tick. rewrite update_unloaded by reflexivity.
  unfold checkCollisions.
  destruct (obstacles_frame obstacles (collideFloor (newUnit origin)))
    as (Hg & _ & _ & _ & Hm & _).
  rewrite Hg, Hm.
  destruct (collideFloor_frame (newUnit origin)) as (Fv & _ & _ & Fm & _).
  destruct (collideFloor_on_floor (newUnit origin)) as (_ & Fg & _);
    [simpl; lra|].
  rewrite Fm, Fg. split; [reflexivity|]. split; [reflexivity|].
  generalize dependent (collideFloor (newUnit origin)). intros u0 _ _ Fv _ _.
  change (velocity (newUnit origin)) with Vector3.zero in Fv.
  revert Fv.
  clear. induction obstacles as [|box rest IH] using rev_ind; intros Fv.
  - exact Fv.
  - specialize (IH Fv). rewrite foldl_snoc.
    set (u := foldl collideObstacle _ rest) in *.
    unfold collideObstacle.
    destruct (penetration box u) as [[c d]|]; [|exact IH].
    simpl. rewrite IH. apply projectOnPlane_zero.
Qed.

(** C2, amended: for a loaded unit that is grounded, [update] with
    [delta = 0] sets [velocity.y] to 13.0 and clears [isGrounded] when
    [jump] is set, whatever the direction flags, the joystick, the camera
    angle and the animation override; with [jump] unset it sets
    [velocity.y] to 0. *)
Theorem jump_impulse_loaded :
  forall controls joystick cameraTheta testAnimation u t,
    mixer u = Some t ->
    isGrounded u = true ->
    let u' := update 0 controls joystick cameraTheta testAnimation u in
    (ControlState.jump controls = true ->
       vy (velocity u') = 13.0 /\ isGrounded u' = false) /\
    (ControlState.jump controls = false -> vy (velocity u') = 0).
Proof.
  intros controls joystick cameraTheta testAnimation u t Hm Hg u'.
  subst u'. rewrite (update_loaded _ _ _ _ _ _ _ Hm).
  rewrite stepAnimations_velocity, stepAnimations_isGrounded. unfold applyVelocity; simpl.
  pose proof (steer_isGrounded controls joystick cameraTheta u) as Hs.
  rewrite Hg in Hs.
  split; intros Hj.
  - destruct (gravityJump_grounded_jump 0 controls _ Hs Hj) as [H1 H2].
    split; assumption.
  - destruct (gravityJump_grounded_nojump 0 controls _ Hs Hj) as [_ H2].
    exact H2.
Qed.

Lemma jump_impulse_loaded_witness :
  let u := load robotClips
             (tick 0.016 noKeys idleStick PI None [] (newUnit origin)) in
  let u' := update 0 jumpKey idleStick PI None u in
  mixer u = Some 0 /\ isGrounded u = true /\
  vy (velocity u') = 13.0 /\ isGrounded u' = false.
Proof.
  cbv zeta.
  assert (Hm : mixer (load robotClips
             (tick 0.016 noKeys idleStick PI None [] (newUnit origin))) = Some 0)
    by apply load_mixer.
  assert (Hg : isGrounded (load robotClips
             (tick 0.016 noKeys idleStick PI None [] (newUnit origin))) = true).
  { destruct (load_frame robotClips
                (tick 0.016 noKeys idleStick PI None [] (newUnit origin)))
      as (_ & _ & _ & E & _).
    rewrite E. apply (first_tick_unloaded 0.016 noKeys idleStick PI None []). }
  split; [exact Hm|]. split; [exact Hg|].
  apply (jump_impulse_loaded jumpKey idleStick PI None _ 0 Hm Hg).
  reflexivity.
Defined.

(** C2 as stated fails on a unit whose asset has not loaded: the unit
    that [GameCanvas] creates is grounded after its first tick, and
    [update] with [jump] set leaves its [velocity.y] at 0 and the unit
    grounded. *)
Lemma jump_impulse_unloaded_counterexample :
  let u := tick 0.016 noKeys idleStick PI None sceneObstacles (newUnit origin) in
  let u' := update 0 jumpKey idleStick PI None u in
  isGrounded u = true /\ ControlState.jump jumpKey = true /\
  vy (velocity u') = 0 /\ vy (velocity u') <> 13.0 /\ isGrounded u' = true.
Proof.
  cbv zeta.
  destruct (first_tick_unloaded 0.016 noKeys idleStick PI None sceneObstacles)
    as (Hm & Hg & Hv).
  rewrite (update_unloaded _ _ _ _ _ _ Hm), Hg, Hv. simpl.
  repeat split; try reflexivity. lra.
Qed.

(** ** Landing and the dust callback *)

(** C4: a [checkCollisions] call entered airborne with [position.y <= 0]
    invokes the dust callback once, with the position clamped to the
    floor, and grounds the unit; a call entered grounded does not invoke
    it, and neither does a whole tick entered grounded with [jump] unset
    (after which the unit is entered grounded again if it is on the
    floor). *)
Theorem dust_once_on_landing :
  forall obstacles u,
    (isGrounded u = false -> vy (position u) <= 0 ->
       dustCalls (checkCollisions obstacles u)
       = dustCalls u ++ [mkV3 (vx (position u)) 0 (vz (position u))] /\
       isGrounded (checkCollisions obstacles u) = true) /\
    (isGrounded u = true ->
       dustCalls (checkCollisions obstacles u) = dustCalls u) /\
    (forall delta controls joystick cameraTheta testAnimation,
       isGrounded u = true -> ControlState.jump controls = false ->
       let u' := tick delta controls joystick cameraTheta testAnimation
                   obstacles u in
       dustCalls u' = dustCalls u /\
       (vy (position u) <= 0 -> isGrounded u' = true)).
Proof.
  intros obstacles u. split; [|split].
  - intros Ha Hy. unfold checkCollisions.
    destruct (obstacles_frame obstacles (collideFloor u)) as (Hg & Hd & _).
    rewrite Hg, Hd.
    destruct (collideFloor_on_floor u Hy) as (_ & Fg & Fd).
    rewrite Fg, Fd, Ha. split; reflexivity.
  - apply checkCollisions_dust_grounded.
  - intros delta controls joystick cameraTheta testAnimation Hg Hj u'.
    subst u'. unfold tick.
    pose proof (update_grounded_nojump delta controls joystick cameraTheta
                  testAnimation u Hg Hj) as Hg'.
    split.
    + rewrite checkCollisions_dust_grounded by exact Hg'.
      apply update_dustCalls.
    + intros Hy. unfold checkCollisions.
      destruct (obstacles_frame obstacles
                  (collideFloor (update delta controls joystick cameraTheta
                                   testAnimation u))) as (Hf & _).
      rewrite Hf. apply collideFloor_on_floor. clear Hf.
      unfold update. destruct (mixer u); [|exact Hy].
      rewrite stepAnimations_position. unfold applyVelocity; simpl.
      rewrite gravityJump_position, steer_position.
      destruct (gravityJump_grounded_nojump delta controls
                  (steer controls joystick cameraTheta u)) as [_ Hv];
        [rewrite steer_isGrounded; exact Hg | exact Hj |].
      rewrite Hv. lra.
Qed.

Lemma dust_once_on_landing_witness :
  let u := newUnit (mkV3 1 (-0.2) 3) in
  isGrounded u = false /\ vy (position u) <= 0 /\
  dustCalls (checkCollisions sceneObstacles u) = [mkV3 1 0 3] /\
  isGrounded (checkCollisions sceneObstacles u) = true.
Proof.
  cbv zeta.
  assert (Ha : isGrounded (newUnit (mkV3 1 (-0.2) 3)) = false) by reflexivity.
  assert (Hy : vy (position (newUnit (mkV3 1 (-0.2) 3))) <= 0) by (simpl; lra).
  split; [exact Ha|]. split; [exact Hy|].
  destruct (dust_once_on_landing sceneObstacles (newUnit (mkV3 1 (-0.2) 3)))
    as [Hland _].
  exact (Hland Ha Hy).
Defined.

(** ** Camera pitch *)

Lemma clamp_in_range value lo hi :
  lo <= hi -> lo <= MathUtils.clamp value lo hi <= hi.
Proof.
  intros H. unfold MathUtils.clamp, Rmax, Rmin.
  destruct (Rle_dec hi value); destruct (Rle_dec lo _); lra.
Qed.

Lemma lerp_between x y t lo hi :
  0 <= t <= 1 -> lo <= x <= hi -> lo <= y <= hi ->
  lo <= MathUtils.lerp x y t <= hi.
Proof. intros Ht Hx Hy. unfold MathUtils.lerp. nra. Qed.

Lemma cameraStep_pitch c e :
  pitchInRange c -> pitchInRange (cameraStep c e).
Proof.
  intros [Ht Hp]. destruct e as [x y|x y| |char reset]; simpl.
  - split; assumption.
  - unfold onMouseMove. destruct (isDragging c); simpl.
    + split; [|exact Hp]. apply clamp_in_range. lra.
    + split; assumption.
  - split; assumption.
  - unfold animateCamera. destruct char as [heading|]; [|split; assumption].
    unfold pitchInRange; simpl.
    assert (Hr : - 0.2 <= (if reset then 0.3 else targetPhi (cameraOrbit c)) <= 1.3)
      by (destruct reset; lra).
    split; [exact Hr|].
    apply lerp_between; [lra | exact Hp | exact Hr].
Qed.

Lemma cameraSteps_pitch events : forall c,
  pitchInRange c -> pitchInRange (foldl cameraStep c events).
Proof.
  induction events as [|e rest IH]; intros c Hc; simpl.
  - exact Hc.
  - apply IH. apply cameraStep_pitch. exact Hc.
Qed.

(** C6: starting from [phi = targetPhi = 0.3], after every sequence of
    mouse-down, mouse-move (with any coordinates), mouse-up and frame
    events (with or without a recenter), [targetPhi] and [phi] are both
    in [[-0.2, 1.3]]. *)
Theorem camera_pitch_stays_clamped :
  forall events : list CameraEvent,
    - 0.2 <= targetPhi (cameraOrbit (cameraRun events)) <= 1.3 /\
    - 0.2 <= phi (cameraOrbit (cameraRun events)) <= 1.3.
Proof.
  intros events. apply (cameraSteps_pitch events initialRig).
  unfold pitchInRange; simpl. lra.
Qed.

(** ** The yaw wrap *)

Lemma whileBelow_id n d : ~ d < - PI -> whileBelow n d = d.
Proof.
  intros H. destruct n; simpl; [reflexivity|].
  destruct (Rlt_dec d (- PI)); [contradiction|reflexivity].
Qed.

Lemma whileAbove_id n d : ~ d > PI -> whileAbove n d = d.
Proof.
  intros H. destruct n; simpl; [reflexivity|].
  destruct (Rgt_dec d PI); [contradiction|reflexivity].
Qed.

(** With [n] iterations available and [d + 2 PI n >= - PI], the first
    loop stops on its own test. *)
Lemma whileBelow_enough n : forall d,
  - PI <= d + PI * 2 * INR n ->
  ~ whileBelow n d < - PI.
Proof.
  induction n as [|k IH]; intros d H.
  - simpl in *. lra.
  - cbn [whileBelow]. destruct (Rlt_dec d (- PI)) as [l|nl]; [|exact nl].
    apply IH. rewrite S_INR in H. lra.
Qed.

Lemma whileAbove_enough n : forall d,
  d - PI * 2 * INR n <= PI ->
  ~ whileAbove n d > PI.
Proof.
  induction n as [|k IH]; intros d H.
  - simpl in *. lra.
  - cbn [whileAbove]. destruct (Rgt_dec d PI) as [l|nl]; [|exact nl].
    apply IH. rewrite S_INR in H. lra.
Qed.

Lemma INR_to_nat_up x : x <= INR (Z.to_nat (up x)).
Proof.
  destruct (archimed x) as [Hup _].
  rewrite INR_IZR_INZ.
  destruct (Z_lt_le_dec (up x) 0) as [neg|pos].
  - replace (Z.to_nat (up x)) with 0%nat by lia.
    change (Z.of_nat 0) with 0%Z.
    apply IZR_lt in neg. lra.
  - rewrite Z2Nat.id by lia. lra.
Qed.

(** The first loop, run on [itersBelow d] iterations, exits through its
    test. *)
Lemma whileBelow_exit d : ~ whileBelow (itersBelow d) d < - PI.
Proof.
  apply whileBelow_enough. unfold itersBelow.
  pose proof PI_RGT_0 as Hpi.
  pose proof (INR_to_nat_up ((- PI - d) / (PI * 2))) as H.
  set (n := INR _) in *.
  apply (Rmult_le_compat_r (PI * 2)) in H; [|lra].
  replace ((- PI - d) / (PI * 2) * (PI * 2)) with (- PI - d) in H
    by (field; lra).
  lra.
Qed.

Lemma whileAbove_exit d : ~ whileAbove (itersAbove d) d > PI.
Proof.
  apply whileAbove_enough. unfold itersAbove.
  pose proof PI_RGT_0 as Hpi.
  pose proof (INR_to_nat_up ((d - PI) / (PI * 2))) as H.
  set (n := INR _) in *.
  apply (Rmult_le_compat_r (PI * 2)) in H; [|lra].
  replace ((d - PI) / (PI * 2) * (PI * 2)) with (d - PI) in H
    by (field; lra).
  lra.
Qed.

(** Once a loop has exited, further iterations do not change its
    result. *)
Lemma whileBelow_stable n : forall m d,
  ~ whileBelow n d < - PI -> (n <= m)%nat ->
  whileBelow m d = whileBelow n d.
Proof.
  induction n as [|k IH]; intros m d Hexit Hle.
  - simpl in *. apply whileBelow_id. exact Hexit.
  - destruct m as [|m]; [lia|]. cbn [whileBelow] in *.
    destruct (Rlt_dec d (- PI)); [|reflexivity].
    apply IH; [exact Hexit | lia].
Qed.

Lemma whileAbove_stable n : forall m d,
  ~ whileAbove n d > PI -> (n <= m)%nat ->
  whileAbove m d = whileAbove n d.
Proof.
  induction n as [|k IH]; intros m d Hexit Hle.
  - simpl in *. apply whileAbove_id. exact Hexit.
  - destruct m as [|m]; [lia|]. cbn [whileAbove] in *.
    destruct (Rgt_dec d PI); [|reflexivity].
    apply IH; [exact Hexit | lia].
Qed.

Lemma whileAbove_exit_unique n m d :
  ~ whileAbove n d > PI -> ~ whileAbove m d > PI ->
  whileAbove n d = whileAbove m d.
Proof.
  intros Hn Hm. destruct (Nat.le_ge_cases n m) as [H|H].
  - symmetry. apply whileAbove_stable; assumption.
  - apply whileAbove_stable; assumption.
Qed.

Lemma whileBelow_exit_unique n m d :
  ~ whileBelow n d < - PI -> ~ whileBelow m d < - PI ->
  whileBelow n d = whileBelow m d.
Proof.
  intros Hn Hm. destruct (Nat.le_ge_cases n m) as [H|H].
  - symmetry. apply whileBelow_stable; assumption.
  - apply whileBelow_stable; assumption.
Qed.

(** What the first loop returns: the input plus a whole number of turns;
    the input itself when it is not below [-PI], and otherwise a value
    below [PI]. *)
Lemma whileBelow_shape n : forall d,
  (exists k : nat, whileBelow n d = d + PI * 2 * INR k) /\
  (~ d < - PI -> whileBelow n d = d) /\
  (d < - PI -> whileBelow n d < PI).
Proof.
  pose proof PI_RGT_0 as Hpi.
  induction n as [|k IH]; intros d.
  - simpl. split; [exists 0%nat; simpl; lra|]. split; [reflexivity|lra].
  - cbn [whileBelow]. destruct (Rlt_dec d (- PI)) as [l|nl].
    + destruct (IH (d + PI * 2)) as ([j Hj] & Hid & Hlt).
      split; [exists (S j); rewrite Hj, S_INR; lra|].
      split; [intros; contradiction|]. intros _.
      destruct (Rlt_dec (d + PI * 2) (- PI)) as [l2|nl2].
      * apply Hlt. exact l2.
      * rewrite (Hid nl2). lra.
    + split; [exists 0%nat; simpl; lra|]. split; [reflexivity|].
      intros; contradiction.
Qed.

Lemma whileAbove_shape n : forall d,
  (exists k : nat, whileAbove n d = d - PI * 2 * INR k) /\
  (~ d > PI -> whileAbove n d = d) /\
  (d > PI -> whileAbove n d > - PI).
Proof.
  pose proof PI_RGT_0 as Hpi.
  induction n as [|k IH]; intros d.
  - simpl. split; [exists 0%nat; simpl; lra|]. split; [reflexivity|lra].
  - cbn [whileAbove]. destruct (Rgt_dec d PI) as [l|nl].
    + destruct (IH (d - PI * 2)) as ([j Hj] & Hid & Hlt).
      split; [exists (S j); rewrite Hj, S_INR; lra|].
      split; [intros; contradiction|]. intros _.
      destruct (Rgt_dec (d - PI * 2) PI) as [l2|nl2].
      * apply Hlt. exact l2.
      * rewrite (Hid nl2). lra.
    + split; [exists 0%nat; simpl; lra|]. split; [reflexivity|].
      intros; contradiction.
Qed.

Lemma wrapAngle_range d :
  - PI <= wrapAngle d <= PI /\ (- PI < wrapAngle d \/ d <= - PI).
Proof.
  pose proof PI_RGT_0 as Hpi.
  unfold wrapAngle.
  pose proof (whileBelow_exit d) as Hb.
  destruct (whileBelow_shape (itersBelow d) d) as (_ & Hbid & Hblt).
  set (d1 := whileBelow (itersBelow d) d) in *.
  pose proof (whileAbove_exit d1) as Ha.
  destruct (whileAbove_shape (itersAbove d1) d1) as (_ & Haid & Hagt).
  set (d2 := whileAbove (itersAbove d1) d1) in *.
  destruct (Rgt_dec d1 PI) as [g|ng].
  - specialize (Hagt g). split; [lra|]. left. lra.
  - rewrite (Haid ng). split; [lra|].
    destruct (Rlt_dec d (- PI)) as [l|nl]; [right; lra|].
    rewrite (Hbid nl). lra.
Qed.

Lemma wrapAngle_turns d :
  exists k : Z, wrapAngle d = d + PI * 2 * IZR k.
Proof.
  unfold wrapAngle.
  destruct (whileBelow_shape (itersBelow d) d) as ([i Hi] & _).
  set (d1 := whileBelow (itersBelow d) d) in *.
  destruct (whileAbove_shape (itersAbove d1) d1) as ([j Hj] & _).
  exists (Z.of_nat i - Z.of_nat j)%Z.
  rewrite Hj, Hi, minus_IZR, <- !INR_IZR_INZ. lra.
Qed.

(** A difference in [[-PI, PI]] is no longer than any other difference
    that is a whole number of turns away from it. *)
Lemma shortest_of_range d (k : Z) :
  - PI <= d <= PI -> Rabs d <= Rabs (d + PI * 2 * IZR k).
Proof.
  intros Hd. pose proof PI_RGT_0 as Hpi.
  destruct (Z.eq_dec k 0) as [->|Hk].
  - replace (d + PI * 2 * 0) with d by lra. lra.
  - assert (Hk' : IZR k <= -1 \/ 1 <= IZR k).
    { destruct (Z_lt_le_dec k 0) as [neg|pos].
      - left. apply IZR_le. lia.
      - right. apply IZR_le. lia. }
    unfold Rabs. destruct (Rcase_abs d), (Rcase_abs (d + PI * 2 * IZR k));
      destruct Hk'; nra.
Qed.

Lemma wrapAngle_PI : wrapAngle PI = PI.
Proof.
  pose proof PI_RGT_0 as Hpi. unfold wrapAngle.
  rewrite whileBelow_id by lra. apply whileAbove_id. lra.
Qed.

Lemma wrapAngle_3PI : wrapAngle (3 * PI) = PI.
Proof.
  pose proof PI_RGT_0 as Hpi. unfold wrapAngle.
  rewrite whileBelow_id by lra.
  assert (H1 : whileAbove 1 (3 * PI) = PI).
  { simpl. destruct (Rgt_dec (3 * PI) PI); lra. }
  transitivity (whileAbove 1 (3 * PI)); [|exact H1].
  apply whileAbove_exit_unique; [apply whileAbove_exit|].
  rewrite H1. lra.
Qed.

Lemma wrapAngle_minus_PI : wrapAngle (- PI) = - PI.
Proof.
  pose proof PI_RGT_0 as Hpi. unfold wrapAngle.
  rewrite whileBelow_id by lra. apply whileAbove_id. lra.
Qed.

(** What a whole [update] adds to the heading: the yaw delta towards
    [targetRot] when the unit is loaded and the deadzone test passes,
    and nothing otherwise. *)
Lemma update_rotationY delta controls joystick cameraTheta testAnimation u :
  rotationY (update delta controls joystick cameraTheta testAnimation u)
  = rotationY u
    + match mixer u with
      | Some _ =>
          if Rgt_dec (inputMag controls joystick) 0.05
          then yawDelta (rotationY u) (targetRot controls joystick cameraTheta)
          else 0
      | None => 0
      end.
Proof.
  unfold update. destruct (mixer u); [|lra].
  rewrite stepAnimations_rotationY.
  change (rotationY (applyVelocity delta ?x)) with (rotationY x).
  destruct (gravityJump_static delta controls
              (steer controls joystick cameraTheta u)) as (_ & _ & _ & E).
  rewrite E. unfold steer. destruct (Rgt_dec _ _); simpl; lra.
Qed.

(** C3, amended: the heading changes in [update] by the yaw delta, which
    is 15% of the difference between target and heading brought into the
    closed interval [[-PI, PI]] by whole turns, which makes it a shortest
    difference; the end [-PI] is returned only for differences at or
    below [-PI].  Targets that are whole turns apart get the same
    delta, except when the wrapped difference is half a turn: then the
    two deltas may be opposite, of the same size [0.15 PI].  Targets of
    heading + 3 PI and heading + PI are such a pair: both deltas have
    size [0.15 PI]. *)
Theorem yaw_delta_wraps :
  forall rotY target : R,
    let d := wrapAngle (target - rotY) in
    yawDelta rotY target = d * 0.15 /\
    - PI <= d <= PI /\
    (- PI < d \/ target - rotY <= - PI) /\
    (exists k : Z, d = target - rotY + PI * 2 * IZR k) /\
    (forall k : Z, Rabs d <= Rabs (target - rotY + PI * 2 * IZR k)) /\
    (forall k : Z,
       yawDelta rotY (target + PI * 2 * IZR k) = yawDelta rotY target \/
       (Rabs d = PI /\
        yawDelta rotY (target + PI * 2 * IZR k) = - yawDelta rotY target)) /\
    Rabs (yawDelta rotY (rotY + 3 * PI)) = PI * 0.15 /\
    Rabs (yawDelta rotY (rotY + PI)) = PI * 0.15 /\
    (forall delta controls joystick cameraTheta testAnimation u,
       rotationY (update delta controls joystick cameraTheta testAnimation u)
       = rotationY u
         + match mixer u with
           | Some _ =>
               if Rgt_dec (inputMag controls joystick) 0.05
               then yawDelta (rotationY u)
                      (targetRot controls joystick cameraTheta)
               else 0
           | None => 0
           end).
Proof.
  intros rotY target d. pose proof PI_RGT_0 as Hpi.
  destruct (wrapAngle_range (target - rotY)) as [Hr Hl].
  destruct (wrapAngle_turns (target - rotY)) as [k0 Hk0].
  fold d in Hr, Hl, Hk0.
  split; [reflexivity|]. split; [exact Hr|]. split; [exact Hl|].
  split; [exists k0; exact Hk0|]. split; [|split; [|split; [|split]]].
  - intros k.
    replace (target - rotY + PI * 2 * IZR k)
      with (d + PI * 2 * IZR (k - k0))
      by (rewrite minus_IZR, Hk0; lra).
    apply shortest_of_range. exact Hr.
  - intros k. unfold yawDelta. fold d.
    destruct (wrapAngle_range (target + PI * 2 * IZR k - rotY)) as [Hr' _].
    destruct (wrapAngle_turns (target + PI * 2 * IZR k - rotY)) as [k1 Hk1].
    set (d' := wrapAngle (target + PI * 2 * IZR k - rotY)) in *.
    assert (Hm : d' = d + PI * 2 * IZR (k1 + k - k0)).
    { rewrite Hk1, Hk0, minus_IZR, plus_IZR. lra. }
    destruct (Z.eq_dec (k1 + k - k0) 0) as [e|ne].
    + left. rewrite Hm, e. lra.
    + right.
      assert (Hk' : IZR (k1 + k - k0) <= -1 \/ 1 <= IZR (k1 + k - k0)).
      { destruct (Z_lt_le_dec (k1 + k - k0) 0) as [neg|pos].
        - left. apply IZR_le. lia.
        - right. apply IZR_le. lia. }
      set (m := IZR (k1 + k - k0)) in *.
      destruct Hk' as [Hneg|Hpos].
      * assert (Hd : d = PI) by nra. assert (Hd' : d' = - PI) by nra.
        split; [rewrite Hd; apply Rabs_right; lra|].
        rewrite Hd, Hd'. lra.
      * assert (Hd : d = - PI) by nra. assert (Hd' : d' = PI) by nra.
        split; [rewrite Hd, Rabs_Ropp; apply Rabs_right; lra|].
        rewrite Hd, Hd'. lra.
  - unfold yawDelta.
    replace (rotY + 3 * PI - rotY) with (3 * PI) by lra.
    rewrite wrapAngle_3PI. apply Rabs_right. lra.
  - unfold yawDelta. replace (rotY + PI - rotY) with PI by lra.
    rewrite wrapAngle_PI. apply Rabs_right. lra.
  - apply update_rotationY.
Qed.

(** C3 as stated fails at the lower end of the interval: with heading
    [PI] and target [0] the difference [-PI] passes both loops as it is,
    so the wrapped difference is not in [(-PI, PI]] and the unit turns by
    [-0.15 PI]. *)
Lemma yaw_wrap_lower_end_counterexample :
  wrapAngle (0 - PI) = - PI /\
  ~ (- PI < wrapAngle (0 - PI) <= PI) /\
  yawDelta PI 0 = - PI * 0.15.
Proof.
  replace (0 - PI) with (- PI) by lra.
  assert (H : wrapAngle (- PI) = - PI) by apply wrapAngle_minus_PI.
  split; [exact H|]. split.
  - rewrite H. lra.
  - unfold yawDelta. replace (0 - PI) with (- PI) by lra. rewrite H. reflexivity.
Qed.

(** C3 as stated also fails in its second half, on the numbers the
    program computes with.  In binary64, with heading 0.9, the
    difference to the target [0.9 + Math.PI] rounds to just above
    [Math.PI] and is wrapped to the negative side, while the difference
    to the target [0.9 + 3 * Math.PI] is wrapped to the positive side:
    the two deltas are -0.47123889803846886 and 0.47123889803846897,
    and the unit turns in opposite directions.  Both loops reach their
    exit test. *)
Lemma yaw_half_turn_binary64_counterexample :
  Binary64.yawDelta 4 Binary64.heading Binary64.headingPlusPI
  = Some Binary64.deltaPlusPI /\
  Binary64.yawDelta 4 Binary64.heading Binary64.headingPlus3PI
  = Some Binary64.deltaPlus3PI /\
  PrimFloat.ltb Binary64.deltaPlusPI Binary64.zero = true /\
  PrimFloat.ltb Binary64.zero Binary64.deltaPlus3PI = true.
Proof.
  repeat split; vm_compute; reflexivity.
Qed.

(** ** Collision resolution *)

Lemma collideFloor_position u :
  0 <= vy (position u) -> position (collideFloor u) = position u.
Proof.
  intros Hy. destruct (Rle_dec (vy (position u)) 0) as [le|nle].
  - destruct (collideFloor_on_floor u le) as (E & _). rewrite E.
    apply vector3_eq; simpl; lra.
  - apply (collideFloor_above_floor u nle).
Qed.

Lemma collideFloor_velocity u : velocity (collideFloor u) = velocity u.
Proof. apply collideFloor_frame. Qed.

Lemma collideObstacle_clear u box :
  ~ Vector3.distanceTo (position u) (Box3.clampPoint box (position u)) < radius ->
  collideObstacle u box = u.
Proof.
  intros H. unfold collideObstacle, penetration.
  destruct (Box3.intersectsSphere _ _); [|reflexivity].
  destruct (Rlt_dec _ _); [contradiction|reflexivity].
Qed.

Lemma obstacles_clear obstacles u :
  Forall (fun box =>
            ~ Vector3.distanceTo (position u)
                (Box3.clampPoint box (position u)) < radius) obstacles ->
  foldl collideObstacle u obstacles = u.
Proof.
  induction 1 as [|box rest Hbox Hrest IH]; simpl; [reflexivity|].
  rewrite (collideObstacle_clear u box Hbox). exact IH.
Qed.

Lemma checkCollisions_resolved obstacles u :
  resolved obstacles u ->
  position (checkCollisions obstacles u) = position u /\
  velocity (checkCollisions obstacles u) = velocity u.
Proof.
  intros [Hy Hobs]. unfold checkCollisions.
  pose proof (collideFloor_position u Hy) as Hp.
  rewrite obstacles_clear by (rewrite Hp; exact Hobs).
  split; [exact Hp | apply collideFloor_velocity].
Qed.

(** C5: on a unit whose position is on or above the floor and
    penetrates no obstacle, a first [checkCollisions] call leaves the
    position where it is, and so does a second call made right after. *)
Theorem checkCollisions_idempotent_on_resolved :
  forall obstacles u,
    resolved obstacles u ->
    position (checkCollisions obstacles (checkCollisions obstacles u))
    = position (checkCollisions obstacles u) /\
    position (checkCollisions obstacles u) = position u.
Proof.
  intros obstacles u Hres.
  destruct (checkCollisions_resolved obstacles u Hres) as [Hp _].
  split; [|exact Hp].
  apply checkCollisions_resolved.
  destruct Hres as [Hy Hobs]. split; rewrite Hp; assumption.
Qed.

(** *** Arithmetic of the vector operations *)

Lemma distanceToSquared_nonneg a b : 0 <= Vector3.distanceToSquared a b.
Proof.
  unfold Vector3.distanceToSquared. cbv zeta.
  pose proof (Rle_0_sqr (vx a - vx b)) as Hx.
  pose proof (Rle_0_sqr (vy a - vy b)) as Hy.
  pose proof (Rle_0_sqr (vz a - vz b)) as Hz.
  unfold Rsqr in *. lra.
Qed.

Lemma lengthSq_nonneg a : 0 <= Vector3.lengthSq a.
Proof.
  unfold Vector3.lengthSq.
  pose proof (Rle_0_sqr (vx a)) as Hx.
  pose proof (Rle_0_sqr (vy a)) as Hy.
  pose proof (Rle_0_sqr (vz a)) as Hz.
  unfold Rsqr in *. lra.
Qed.

Lemma distanceToSquared_sym a b :
  Vector3.distanceToSquared a b = Vector3.distanceToSquared b a.
Proof. unfold Vector3.distanceToSquared. cbv zeta. ring. Qed.

Lemma distanceTo_square a b :
  Vector3.distanceTo a b * Vector3.distanceTo a b
  = Vector3.distanceToSquared a b.
Proof.
  unfold Vector3.distanceTo. apply sqrt_sqrt. apply distanceToSquared_nonneg.
Qed.

Lemma distanceTo_nonneg a b : 0 <= Vector3.distanceTo a b.
Proof. unfold Vector3.distanceTo. apply sqrt_pos. Qed.

Lemma length_sub a b :
  Vector3.length (Vector3.sub a b) = Vector3.distanceTo a b.
Proof. reflexivity. Qed.

Lemma lengthSq_sub a b :
  Vector3.lengthSq (Vector3.sub a b) = Vector3.distanceToSquared a b.
Proof. reflexivity. Qed.

Lemma or_num_nonzero a b : a <> 0 -> JsMath.or_num a b = a.
Proof.
  intros H. unfold JsMath.or_num. destruct (Req_dec_T a 0); [contradiction|reflexivity].
Qed.

Lemma or_num_zero b : JsMath.or_num 0 b = b.
Proof.
  unfold JsMath.or_num. destruct (Req_dec_T 0 0) as [_|n]; [reflexivity|].
  exfalso. apply n. reflexivity.
Qed.

(** A vector of length [l > 0] normalizes to a vector of length 1. *)
Lemma normalize_unit d l :
  0 < l -> Vector3.length d = l ->
  Vector3.normalize d = Vector3.multiplyScalar d (1 / l) /\
  Vector3.lengthSq (Vector3.normalize d) = 1 /\
  Vector3.length (Vector3.normalize d) = 1.
Proof.
  intros Hl Hd.
  assert (Hn : Vector3.normalize d = Vector3.multiplyScalar d (1 / l)).
  { unfold Vector3.normalize, Vector3.divideScalar.
    rewrite Hd, or_num_nonzero by lra. reflexivity. }
  assert (Hsq : Vector3.lengthSq d = l * l).
  { rewrite <- Hd. unfold Vector3.length. symmetry. apply sqrt_sqrt.
    apply lengthSq_nonneg. }
  assert (H1 : Vector3.lengthSq (Vector3.normalize d) = 1).
  { rewrite Hn. unfold Vector3.lengthSq, Vector3.multiplyScalar in *.
    simpl. 
    replace (vx d * (1 / l) * (vx d * (1 / l)) + vy d * (1 / l) * (vy d * (1 / l))
             + vz d * (1 / l) * (vz d * (1 / l)))
      with ((vx d * vx d + vy d * vy d + vz d * vz d) / (l * l))
      by (field; lra).
    rewrite Hsq. field. lra. }
  split; [exact Hn|]. split; [exact H1|].
  unfold Vector3.length. rewrite H1. apply sqrt_1.
Qed.

(** Projecting on the plane of a non-zero vector [m = n * s], with [n]
    of length 1, removes the component along [n]. *)
Lemma projectOnPlane_scaled v n s :
  Vector3.lengthSq n = 1 -> s <> 0 ->
  Vector3.projectOnPlane v (Vector3.multiplyScalar n s)
  = Vector3.sub v (Vector3.multiplyScalar n (Vector3.dot v n)).
Proof.
  intros Hn Hs. unfold Vector3.projectOnPlane, Vector3.projectOnVector.
  assert (Hden : Vector3.lengthSq (Vector3.multiplyScalar n s) = s * s).
  { unfold Vector3.lengthSq, Vector3.multiplyScalar in *. simpl.
    replace (vx n * s * (vx n * s) + vy n * s * (vy n * s) + vz n * s * (vz n * s))
      with ((vx n * vx n + vy n * vy n + vz n * vz n) * (s * s)) by ring.
    rewrite Hn. ring. }
  cbv zeta. rewrite Hden.
  destruct (Req_dec_T (s * s) 0) as [e|ne]; [exfalso; nra|].
  f_equal. apply vector3_eq;
    unfold Vector3.multiplyScalar, Vector3.dot; simpl; field; exact Hs.
Qed.

Lemma sub_normal_dot v n :
  Vector3.lengthSq n = 1 ->
  Vector3.dot (Vector3.sub v (Vector3.multiplyScalar n (Vector3.dot v n))) n = 0.
Proof.
  intros Hn. unfold Vector3.dot, Vector3.sub, Vector3.multiplyScalar,
    Vector3.lengthSq in *. simpl.
  set (k := vx v * vx n + vy v * vy n + vz v * vz n).
  replace ((vx v - vx n * k) * vx n + (vy v - vy n * k) * vy n
           + (vz v - vz n * k) * vz n)
    with (k - k * (vx n * vx n + vy n * vy n + vz n * vz n))
    by (unfold k; ring).
  rewrite Hn. ring.
Qed.

Lemma sub_normal_tangent v n t :
  Vector3.dot t n = 0 ->
  Vector3.dot (Vector3.sub v (Vector3.multiplyScalar n (Vector3.dot v n))) t
  = Vector3.dot v t.
Proof.
  unfold Vector3.dot, Vector3.sub, Vector3.multiplyScalar. simpl.
  intros Ht.
  set (k := vx v * vx n + vy v * vy n + vz v * vz n).
  replace ((vx v - vx n * k) * vx t + (vy v - vy n * k) * vy t
           + (vz v - vz n * k) * vz t)
    with (vx v * vx t + vy v * vy t + vz v * vz t
          - k * (vx t * vx n + vy t * vy n + vz t * vz n)) by ring.
  rewrite Ht. ring.
Qed.

(** One obstacle at distance [dist] with [0 < dist < radius]: the unit
    is moved by [radius - dist] along the unit normal and the velocity
    loses its component along it. *)
Lemma collideObstacle_push u box dist :
  0 < dist < radius ->
  Vector3.distanceTo (position u) (Box3.clampPoint box (position u)) = dist ->
  let n := Vector3.normalize
             (Vector3.sub (position u) (Box3.clampPoint box (position u))) in
  Vector3.lengthSq n = 1 /\
  position (collideObstacle u box)
  = Vector3.add (position u) (Vector3.multiplyScalar n (radius - dist)) /\
  velocity (collideObstacle u box)
  = Vector3.sub (velocity u) (Vector3.multiplyScalar n (Vector3.dot (velocity u) n)).
Proof.
  intros Hd Hdist n.
  destruct (normalize_unit
              (Vector3.sub (position u) (Box3.clampPoint box (position u))) dist)
    as (_ & Hsq & _); [lra | rewrite length_sub; exact Hdist |].
  fold n in Hsq. split; [exact Hsq|].
  unfold collideObstacle, penetration, Box3.intersectsSphere. simpl.
  destruct (Rle_dec _ _) as [_|far].
  - rewrite Hdist. destruct (Rlt_dec dist radius) as [_|no]; [|lra].
    simpl. unfold normalRaw. fold n. split; [reflexivity|].
    apply projectOnPlane_scaled; [exact Hsq | lra].
  - exfalso. apply far.
    rewrite distanceToSquared_sym, <- distanceTo_square, Hdist.
    unfold radius, height in *. nra.
Qed.

(** *** Evaluating [clamp] and [sqrt] on concrete numbers *)

Lemma clamp_below value lo hi :
  lo <= hi -> value <= lo -> MathUtils.clamp value lo hi = lo.
Proof.
  intros H1 H2. unfold MathUtils.clamp, Rmax, Rmin.
  destruct (Rle_dec hi value); destruct (Rle_dec lo _); lra.
Qed.

Lemma clamp_above value lo hi :
  lo <= hi -> hi <= value -> MathUtils.clamp value lo hi = hi.
Proof.
  intros H1 H2. unfold MathUtils.clamp, Rmax, Rmin.
  destruct (Rle_dec hi value); destruct (Rle_dec lo _); lra.
Qed.

Lemma clamp_within value lo hi :
  lo <= value <= hi -> MathUtils.clamp value lo hi = value.
Proof.
  intros H. unfold MathUtils.clamp, Rmax, Rmin.
  destruct (Rle_dec hi value); destruct (Rle_dec lo _); lra.
Qed.

Lemma clamp_fixed_iff value lo hi :
  lo <= hi -> (MathUtils.clamp value lo hi = value <-> lo <= value <= hi).
Proof.
  intros H. split; [|apply clamp_within].
  intros E. rewrite <- E. apply clamp_in_range. exact H.
Qed.

Lemma sqrt_of_square x r : 0 <= r -> x = r * r -> sqrt x = r.
Proof. intros Hr ->. apply sqrt_square. exact Hr. Qed.

(** The position lies in the box (faces included): the closest point is
    the position itself, both tests of the loop body pass with distance
    0, [normalize] is called on the zero vector, and the iteration
    leaves the unit as it was. *)
Lemma collideObstacle_inside u box :
  Box3.clampPoint box (position u) = position u ->
  penetration box u = Some (position u, 0) /\
  normalRaw u (position u) = Vector3.zero /\
  collideObstacle u box = u.
Proof.
  intros Hc.
  assert (Hd0 : Vector3.distanceToSquared (position u) (position u) = 0)
    by (unfold Vector3.distanceToSquared; cbv zeta; ring).
  assert (Hp : penetration box u = Some (position u, 0)).
  { unfold penetration, Box3.intersectsSphere. simpl. rewrite Hc, Hd0.
    destruct (Rle_dec 0 (height * height)) as [_|n];
      [|exfalso; apply n; unfold height; lra].
    unfold Vector3.distanceTo. rewrite Hd0, sqrt_0.
    destruct (Rlt_dec 0 radius) as [_|n]; [reflexivity|].
    exfalso. apply n. unfold radius. lra. }
  assert (Hz : normalRaw u (position u) = Vector3.zero).
  { unfold normalRaw, Vector3.sub, Vector3.zero. f_equal; ring. }
  split; [exact Hp|]. split; [exact Hz|].
  unfold collideObstacle. rewrite Hp, Hz.
  assert (Hn : Vector3.multiplyScalar (Vector3.normalize Vector3.zero) (radius - 0)
               = Vector3.zero).
  { unfold Vector3.normalize, Vector3.divideScalar, Vector3.multiplyScalar,
      Vector3.zero. simpl. f_equal; ring. }
  rewrite Hn.
  assert (Hpos : Vector3.add (position u) Vector3.zero = position u).
  { apply vector3_eq; simpl; ring. }
  assert (Hvel : Vector3.projectOnPlane (velocity u) Vector3.zero = velocity u).
  { unfold Vector3.projectOnPlane, Vector3.projectOnVector. cbv zeta.
    replace (Vector3.lengthSq Vector3.zero) with 0
      by (unfold Vector3.lengthSq; simpl; ring).
    destruct (Req_dec_T 0 0) as [_|n]; [|exfalso; apply n; reflexivity].
    apply vector3_eq; simpl; ring. }
  cbv zeta. unfold setVelocity, setPosition.
  cbn [position rotationY mixer actions currentAction velocity isGrounded
       capsuleStart capsuleEnd dustCalls animCalls].
  rewrite Hpos, Hvel. destruct u; reflexivity.
Qed.

(** C1, amended: for a unit on or above the floor and a single obstacle
    whose closest point is at distance [radius - 0.1] from the position,
    [checkCollisions] moves the position by 0.1 along the normal (the
    normalized position-minus-closest-point vector, of length 1), zeroes
    the velocity component along the normal and keeps every component
    tangent to it. *)
Theorem penetration_pushed_out :
  forall (box : Box3) (u : Unit),
    0 <= vy (position u) ->
    Vector3.distanceTo (position u) (Box3.clampPoint box (position u))
    = radius - 0.1 ->
    let n := Vector3.normalize
               (Vector3.sub (position u) (Box3.clampPoint box (position u))) in
    let u' := checkCollisions [box] u in
    Vector3.length n = 1 /\
    position u' = Vector3.add (position u) (Vector3.multiplyScalar n 0.1) /\
    Vector3.dot (velocity u') n = 0 /\
    (forall t : Vector3,
       Vector3.dot t n = 0 ->
       Vector3.dot (velocity u') t = Vector3.dot (velocity u) t).
Proof.
  intros box u Hy Hdist n u'.
  pose proof (collideFloor_position u Hy) as Hp.
  pose proof (collideFloor_velocity u) as Hv.
  assert (Hdist' : Vector3.distanceTo (position (collideFloor u))
                     (Box3.clampPoint box (position (collideFloor u)))
                   = radius - 0.1) by (rewrite Hp; exact Hdist).
  destruct (collideObstacle_push (collideFloor u) box (radius - 0.1))
    as (Hsq & Hpos & Hvel); [unfold radius; lra | exact Hdist' |].
  rewrite Hp in Hsq, Hpos, Hvel. rewrite Hv in Hvel. fold n in Hsq, Hpos, Hvel.
  subst u'. unfold checkCollisions. simpl foldl.
  split; [unfold Vector3.length; rewrite Hsq; apply sqrt_1|].
  split.
  - rewrite Hpos. f_equal. f_equal. unfold radius. lra.
  - rewrite Hvel. split.
    + apply sub_normal_dot. exact Hsq.
    + intros t Ht. apply sub_normal_tangent. exact Ht.
Qed.

Lemma penetration_pushed_out_witness :
  let box := mkBox3 (mkV3 0 0 (-21)) (mkV3 10 2 (-19)) in
  let u := mkUnit (mkV3 5 1 (-18.6)) 0 (Some 0) ∅ Idle (mkV3 1 0 (-2)) false
             (mkV3 0 radius 0) (mkV3 0 (height - radius) 0) [] [] in
  let n := Vector3.normalize
             (Vector3.sub (position u) (Box3.clampPoint box (position u))) in
  0 <= vy (position u) /\
  Vector3.distanceTo (position u) (Box3.clampPoint box (position u))
  = radius - 0.1 /\
  position (checkCollisions [box] u)
  = Vector3.add (position u) (Vector3.multiplyScalar n 0.1) /\
  Vector3.dot (velocity (checkCollisions [box] u)) n = 0.
Proof.
  cbv zeta.
  set (box := mkBox3 (mkV3 0 0 (-21)) (mkV3 10 2 (-19))).
  set (u := mkUnit (mkV3 5 1 (-18.6)) 0 (Some 0) ∅ Idle (mkV3 1 0 (-2)) false
              (mkV3 0 radius 0) (mkV3 0 (height - radius) 0) [] []).
  assert (Hy : 0 <= vy (position u)) by (simpl; lra).
  assert (Hd : Vector3.distanceTo (position u) (Box3.clampPoint box (position u))
               = radius - 0.1).
  { unfold Box3.clampPoint, Vector3.clamp, box, u. simpl.
    rewrite (clamp_within 5 0 10), (clamp_within 1 0 2),
      (clamp_above (-18.6) (-21) (-19)) by lra.
    unfold Vector3.distanceTo, Vector3.distanceToSquared, radius. simpl.
    apply sqrt_of_square; lra. }
  split; [exact Hy|]. split; [exact Hd|].
  destruct (penetration_pushed_out box u Hy Hd) as (_ & Hpos & Hdot & _).
  split; [exact Hpos | exact Hdot].
Defined.

(** C1 as stated fails below the floor: a unit 0.4 under the bottom
    face of a box is first raised to the floor, onto that face; the
    obstacle step then finds distance 0 and moves nothing, so the unit
    has moved 0.4 against the normal and its velocity along the normal is
    still there. *)
Lemma penetration_below_floor_counterexample :
  let box := mkBox3 (mkV3 0 0 (-21)) (mkV3 10 2 (-19)) in
  let u := mkUnit (mkV3 5 (-0.4) (-20)) 0 (Some 0) ∅ Idle (mkV3 0 (-3) 0) false
             (mkV3 0 radius 0) (mkV3 0 (height - radius) 0) [] [] in
  let n := Vector3.normalize
             (Vector3.sub (position u) (Box3.clampPoint box (position u))) in
  Vector3.distanceTo (position u) (Box3.clampPoint box (position u))
  = radius - 0.1 /\
  n = mkV3 0 (-1) 0 /\
  position (checkCollisions [box] u) = mkV3 5 0 (-20) /\
  position (checkCollisions [box] u)
  <> Vector3.add (position u) (Vector3.multiplyScalar n 0.1) /\
  Vector3.dot (velocity (checkCollisions [box] u)) n = 3 /\
  Vector3.dot (velocity (checkCollisions [box] u)) n <> 0.
Proof.
  cbv zeta.
  set (box := mkBox3 (mkV3 0 0 (-21)) (mkV3 10 2 (-19))).
  set (u := mkUnit (mkV3 5 (-0.4) (-20)) 0 (Some 0) ∅ Idle (mkV3 0 (-3) 0) false
              (mkV3 0 radius 0) (mkV3 0 (height - radius) 0) [] []).
  assert (Hc : Box3.clampPoint box (position u) = mkV3 5 0 (-20)).
  { unfold Box3.clampPoint, Vector3.clamp, box, u. simpl.
    rewrite (clamp_within 5 0 10), (clamp_below (-0.4) 0 2),
      (clamp_within (-20) (-21) (-19)) by lra. reflexivity. }
  assert (Hd : Vector3.distanceTo (position u) (mkV3 5 0 (-20)) = 0.4).
  { unfold Vector3.distanceTo, Vector3.distanceToSquared, u. simpl.
    apply sqrt_of_square; lra. }
  assert (Hn : Vector3.normalize (Vector3.sub (position u) (mkV3 5 0 (-20)))
               = mkV3 0 (-1) 0).
  { destruct (normalize_unit (Vector3.sub (position u) (mkV3 5 0 (-20))) 0.4)
      as (E & _); [lra | rewrite length_sub; exact Hd |].
    rewrite E. apply vector3_eq; simpl; lra. }
  assert (Hf : collideFloor u
               = mkUnit (mkV3 5 0 (-20)) 0 (Some 0) ∅ Idle (mkV3 0 (-3) 0) true
                   (mkV3 0 radius 0) (mkV3 0 (height - radius) 0)
                   [mkV3 5 0 (-20)] []).
  { unfold collideFloor, u. cbv zeta. simpl.
    destruct (Rle_dec (-0.4) 0) as [_|no]; [reflexivity|exfalso; lra]. }
  assert (Hr : checkCollisions [box] u = collideFloor u).
  { unfold checkCollisions. simpl foldl.
    apply collideObstacle_inside. rewrite Hf.
    unfold Box3.clampPoint, Vector3.clamp, box. simpl.
    rewrite (clamp_within 5 0 10), (clamp_within 0 0 2),
      (clamp_within (-20) (-21) (-19)) by lra. reflexivity. }
  rewrite Hc, Hn, Hr, Hf.
  split; [rewrite Hd; unfold radius; lra|]. simpl.
  split; [reflexivity|]. split; [reflexivity|].
  unfold Vector3.dot, Vector3.add, Vector3.multiplyScalar. simpl.
  split; [|split; lra].
  intros E. apply (f_equal vy) in E. simpl in E. lra.
Qed.

Lemma sqrt_not_below x r : 0 <= r -> r * r <= x -> ~ sqrt x < r.
Proof.
  intros Hr Hx Hlt.
  pose proof (sqrt_le_1_alt _ _ Hx) as H.
  rewrite (sqrt_square r Hr) in H. lra.
Qed.

Lemma checkCollisions_idempotent_on_resolved_witness :
  let u := mkUnit (mkV3 5 0 (-18.5)) 0 (Some 0) ∅ Idle (mkV3 0 0 (-6)) true
             (mkV3 0 radius 0) (mkV3 0 (height - radius) 0) [] [] in
  resolved sceneObstacles u /\
  position (checkCollisions sceneObstacles (checkCollisions sceneObstacles u))
  = position u.
Proof.
  cbv zeta.
  set (u := mkUnit (mkV3 5 0 (-18.5)) 0 (Some 0) ∅ Idle (mkV3 0 0 (-6)) true
              (mkV3 0 radius 0) (mkV3 0 (height - radius) 0) [] []).
  assert (Hres : resolved sceneObstacles u).
  { split; [simpl; lra|].
    unfold sceneObstacles, u, Box3.clampPoint, Vector3.clamp,
      Vector3.distanceTo, Vector3.distanceToSquared, radius.
    constructor; [|constructor; [|constructor; [|constructor]]];
      cbn [position vx vy vz bmin bmax].
    - rewrite (clamp_below 5 8 12), (clamp_within 0 0 8),
        (clamp_below (-18.5) 8 12) by lra.
      apply sqrt_not_below; lra.
    - rewrite (clamp_above 5 (-18) (-12)), (clamp_within 0 0 4),
        (clamp_below (-18.5) 2 8) by lra.
      apply sqrt_not_below; lra.
    - rewrite (clamp_within 5 0 10), (clamp_within 0 0 2),
        (clamp_above (-18.5) (-21) (-19)) by lra.
      apply sqrt_not_below; lra. }
  split; [exact Hres|].
  destruct (checkCollisions_idempotent_on_resolved sceneObstacles u Hres)
    as [H2 H1].
  rewrite H2. exact H1.
Defined.

(** ** Normalization inputs *)

Lemma clampPoint_fixed_iff box p :
  boxOrdered box -> (Box3.clampPoint box p = p <-> insideBox box p).
Proof.
  intros (Hx & Hy & Hz). unfold Box3.clampPoint, Vector3.clamp, insideBox.
  split.
  - intros E.
    pose proof (f_equal vx E) as Ex. pose proof (f_equal vy E) as Ey.
    pose proof (f_equal vz E) as Ez. simpl in Ex, Ey, Ez.
    repeat split; first
      [ apply (clamp_fixed_iff _ _ _ Hx); exact Ex
      | apply (clamp_fixed_iff _ _ _ Hy); exact Ey
      | apply (clamp_fixed_iff _ _ _ Hz); exact Ez ].
  - intros (Ix & Iy & Iz). apply vector3_eq; simpl; apply clamp_within; assumption.
Qed.

Lemma normalize_zero : Vector3.normalize Vector3.zero = Vector3.zero.
Proof.
  unfold Vector3.normalize, Vector3.divideScalar, Vector3.multiplyScalar,
    Vector3.zero. simpl. f_equal; ring.
Qed.

Lemma moveDirRaw_lengthSq controls joystick cameraTheta :
  Vector3.lengthSq (moveDirRaw controls joystick cameraTheta)
  = fst (moveInput controls joystick) * fst (moveInput controls joystick)
    + snd (moveInput controls joystick) * snd (moveInput controls joystick).
Proof.
  unfold moveDirRaw. destruct (moveInput controls joystick) as [mx mz].
  unfold Vector3.lengthSq, Vector3.addScaledVector, Vector3.zero. simpl.
  pose proof (sin2_cos2 cameraTheta) as H. unfold Rsqr in H.
  set (s := sin cameraTheta) in *. set (c := cos cameraTheta) in *.
  replace ((0 + - s * mz + c * mx) * (0 + - s * mz + c * mx)
           + (0 + 0 * mz + 0 * mx) * (0 + 0 * mz + 0 * mx)
           + (0 + - c * mz + - s * mx) * (0 + - c * mz + - s * mx))
    with ((s * s + c * c) * (mx * mx + mz * mz)) by ring.
  rewrite H. ring.
Qed.

Lemma inputMag_deadzone controls joystick :
  inputMag controls joystick > 0.05 ->
  0 < fst (moveInput controls joystick) * fst (moveInput controls joystick)
      + snd (moveInput controls joystick) * snd (moveInput controls joystick).
Proof.
  unfold inputMag. destruct (moveInput controls joystick) as [mx mz].
  unfold Vector2.length. cbn [x2 y2 fst snd]. intros H.
  pose proof (Rmin_l (sqrt (mx * mx + mz * mz)) 1.0) as Hl.
  destruct (Rle_lt_dec (mx * mx + mz * mz) 0) as [le|lt]; [|exact lt].
  exfalso. rewrite (sqrt_neg_0 _ le) in H, Hl. lra.
Qed.

Lemma moveDirRaw_nonzero controls joystick cameraTheta :
  inputMag controls joystick > 0.05 ->
  moveDirRaw controls joystick cameraTheta <> Vector3.zero.
Proof.
  intros Hmag Hz.
  pose proof (inputMag_deadzone controls joystick Hmag) as Hpos.
  rewrite <- (moveDirRaw_lengthSq controls joystick cameraTheta), Hz in Hpos.
  unfold Vector3.lengthSq, Vector3.zero in Hpos. simpl in Hpos. lra.
Qed.

(** C9, amended: in [update] the call of [normalize] on the move
    direction is behind the deadzone test.  [update] is [updateBy] with
    the three.js [normalize]; its result is the same for any two
    functions in the place of [normalize] that agree on the non-zero
    vectors, so the zero vector never reaches [normalize] there; and
    when the input magnitude is at or below 0.05 the result is the same
    for any two functions whatever, so [normalize] is not called at
    all; the move direction is non-zero whenever the deadzone test
    passes.  In [checkCollisions] the vector passed to [normalize] is
    the zero vector exactly when the closest point of the box is the
    position itself, which for a box with [min <= max] means the
    position is in the box or on a face; in that case [normalize]
    returns the zero vector and the iteration changes nothing. *)
Theorem normalize_inputs :
  (forall controls joystick cameraTheta,
     inputMag controls joystick > 0.05 ->
     moveDirRaw controls joystick cameraTheta <> Vector3.zero) /\
  (forall delta controls joystick cameraTheta testAnimation u,
     updateBy Vector3.normalize delta controls joystick cameraTheta
       testAnimation u
     = update delta controls joystick cameraTheta testAnimation u) /\
  (forall (normalize normalize' : Vector3 -> Vector3)
          delta controls joystick cameraTheta testAnimation u,
     (forall v, v <> Vector3.zero -> normalize v = normalize' v) ->
     updateBy normalize delta controls joystick cameraTheta testAnimation u
     = updateBy normalize' delta controls joystick cameraTheta
         testAnimation u) /\
  (forall (normalize normalize' : Vector3 -> Vector3)
          delta controls joystick cameraTheta testAnimation u,
     inputMag controls joystick <= 0.05 ->
     updateBy normalize delta controls joystick cameraTheta testAnimation u
     = updateBy normalize' delta controls joystick cameraTheta
         testAnimation u) /\
  (forall box u,
     (exists closestPoint dist,
        penetration box u = Some (closestPoint, dist) /\
        normalRaw u closestPoint = Vector3.zero)
     <-> Box3.clampPoint box (position u) = position u) /\
  (forall box u,
     Box3.clampPoint box (position u) = position u ->
     Vector3.normalize Vector3.zero = Vector3.zero /\
     collideObstacle u box = u) /\
  (forall box p,
     boxOrdered box ->
     (Box3.clampPoint box p = p <-> insideBox box p)).
Proof.
  split; [|split; [|split; [|split; [|split; [|split]]]]].
  - apply moveDirRaw_nonzero.
  - intros. reflexivity.
  - intros normalize normalize' delta controls joystick cameraTheta
      testAnimation u Hagree.
    unfold updateBy. destruct (mixer u); [|reflexivity].
    do 3 f_equal. unfold steerBy. cbv zeta.
    destruct (Rgt_dec (inputMag controls joystick) 0.05) as [go|stay];
      [|reflexivity].
    rewrite (Hagree _ (moveDirRaw_nonzero controls joystick cameraTheta go)).
    reflexivity.
  - intros normalize normalize' delta controls joystick cameraTheta
      testAnimation u Hdead.
    unfold updateBy. destruct (mixer u); [|reflexivity].
    do 3 f_equal. unfold steerBy. cbv zeta.
    destruct (Rgt_dec (inputMag controls joystick) 0.05) as [go|stay];
      [lra | reflexivity].
  - intros box u. split.
    + intros (c & d & Hp & Hn).
      unfold penetration in Hp.
      destruct (Box3.intersectsSphere _ _); [|discriminate].
      destruct (Rlt_dec _ _); [|discriminate].
      injection Hp as Hc _. subst c.
      unfold normalRaw, Vector3.sub, Vector3.zero in Hn.
      injection Hn as Hx Hy Hz.
      apply vector3_eq; unfold Box3.clampPoint, Vector3.clamp; simpl; lra.
    + intros Hc. exists (position u), 0.
      destruct (collideObstacle_inside u box Hc) as (Hp & Hn & _).
      split; assumption.
  - intros box u Hc. split; [apply normalize_zero|].
    apply collideObstacle_inside. exact Hc.
  - intros box p. apply clampPoint_fixed_iff.
Qed.

(** [forward] held: the move direction is non-zero.  No input: a
    function that sends every vector to [(1, 1, 1)] in the place of
    [normalize] gives the same [update] of a loaded unit. *)
Lemma normalize_inputs_witness :
  let box := mkBox3 (mkV3 0 0 (-21)) (mkV3 10 2 (-19)) in
  inputMag forwardKey idleStick > 0.05 /\
  moveDirRaw forwardKey idleStick 0 <> Vector3.zero /\
  inputMag noKeys idleStick <= 0.05 /\
  updateBy (fun _ => mkV3 1 1 1) 0.016 noKeys idleStick 0 None
    (load robotClips (newUnit origin))
  = update 0.016 noKeys idleStick 0 None (load robotClips (newUnit origin)) /\
  boxOrdered box /\
  (Box3.clampPoint box (mkV3 5 1 (-20)) = mkV3 5 1 (-20)
   <-> insideBox box (mkV3 5 1 (-20))).
Proof.
  cbv zeta.
  assert (Hmag : inputMag forwardKey idleStick > 0.05).
  { unfold inputMag, moveInput, Vector2.length. simpl.
    replace (0 * 0 + (0 + 1) * (0 + 1)) with (1 * 1) by ring.
    rewrite sqrt_square by lra.
    unfold Rmin. destruct (Rle_dec 1 1.0); lra. }
  assert (Hidle : inputMag noKeys idleStick <= 0.05).
  { unfold inputMag, moveInput, Vector2.length. simpl.
    replace (0 * 0 + 0 * 0) with 0 by ring. rewrite sqrt_0.
    unfold Rmin. destruct (Rle_dec 0 1.0); lra. }
  assert (Hbox : boxOrdered (mkBox3 (mkV3 0 0 (-21)) (mkV3 10 2 (-19))))
    by (unfold boxOrdered; simpl; lra).
  destruct normalize_inputs as (Hmove & Hsame & _ & Hdead & _ & _ & Hin).
  split; [exact Hmag|]. split; [exact (Hmove forwardKey idleStick 0 Hmag)|].
  split; [exact Hidle|].
  split.
  - rewrite <- (Hsame 0.016 noKeys idleStick 0 None
                  (load robotClips (newUnit origin))).
    apply (Hdead _ _ 0.016 noKeys idleStick 0 None _ Hidle).
  - split; [exact Hbox|]. exact (Hin _ (mkV3 5 1 (-20)) Hbox).
Defined.

(** C9 as stated fails in [checkCollisions]: for a unit standing inside
    a box both tests of the loop body pass and [normalize] is called on
    the zero vector. *)
Lemma zero_normal_counterexample :
  let box := mkBox3 (mkV3 0 0 (-21)) (mkV3 10 2 (-19)) in
  let u := mkUnit (mkV3 5 1 (-20)) 0 (Some 0) ∅ Idle (mkV3 0 (-3) 0) false
             (mkV3 0 radius 0) (mkV3 0 (height - radius) 0) [] [] in
  penetration box u = Some (mkV3 5 1 (-20), 0) /\
  normalRaw u (mkV3 5 1 (-20)) = Vector3.zero.
Proof.
  cbv zeta.
  set (box := mkBox3 (mkV3 0 0 (-21)) (mkV3 10 2 (-19))).
  set (u := mkUnit (mkV3 5 1 (-20)) 0 (Some 0) ∅ Idle (mkV3 0 (-3) 0) false
              (mkV3 0 radius 0) (mkV3 0 (height - radius) 0) [] []).
  assert (Hc : Box3.clampPoint box (position u) = position u).
  { unfold Box3.clampPoint, Vector3.clamp, box, u. simpl.
    rewrite (clamp_within 5 0 10), (clamp_within 1 0 2),
      (clamp_within (-20) (-21) (-19)) by lra. reflexivity. }
  destruct (collideObstacle_inside u box Hc) as (Hp & Hn & _).
  split; [exact Hp | exact Hn].
Qed.

(** ** The capsule *)

Lemma gravityJump_airborne delta controls u :
  isGrounded u = false ->
  vy (velocity (gravityJump delta controls u)) = vy (velocity u) - 32.0 * delta /\
  isGrounded (gravityJump delta controls u) = false.
Proof. intros H. unfold gravityJump. rewrite H. simpl. auto. Qed.

Lemma collideFloor_below u :
  vy (position u) <= 0 ->
  position (collideFloor u) = mkV3 (vx (position u)) 0 (vz (position u)).
Proof.
  intros H. apply collideFloor_on_floor. exact H.
Qed.

Lemma update_capsule delta controls joystick cameraTheta testAnimation u t :
  mixer u = Some t ->
  let u' := update delta controls joystick cameraTheta testAnimation u in
  capsuleStart u' = Vector3.add (mkV3 0 radius 0) (position u') /\
  capsuleEnd u' = Vector3.add (mkV3 0 (height - radius) 0) (position u').
Proof.
  intros Hm u'. subst u'. rewrite (update_loaded _ _ _ _ _ _ _ Hm).
  rewrite stepAnimations_position.
  destruct (stepAnimations_capsule delta testAnimation
              (applyVelocity delta
                 (gravityJump delta controls
                    (steer controls joystick cameraTheta u)))) as [Hs He].
  rewrite Hs, He. split; reflexivity.
Qed.

Lemma add_comm a b : Vector3.add a b = Vector3.add b a.
Proof. apply vector3_eq; simpl; ring. Qed.

(** C8, amended: after every [update] of a loaded unit the capsule
    endpoints are [position + (0, radius, 0)] and
    [position + (0, height - radius, 0)] for the position that [update]
    has produced; [checkCollisions] does not write the capsule, so after
    a tick the endpoints are still those of the position before collision
    resolution, and they are those of the final position when that
    position was already resolved. *)
Theorem capsule_follows_update :
  forall delta controls joystick cameraTheta testAnimation obstacles u t,
    mixer u = Some t ->
    let u1 := update delta controls joystick cameraTheta testAnimation u in
    let u2 := tick delta controls joystick cameraTheta testAnimation obstacles u in
    capsuleStart u1 = Vector3.add (position u1) (mkV3 0 radius 0) /\
    capsuleEnd u1 = Vector3.add (position u1) (mkV3 0 (height - radius) 0) /\
    capsuleStart u2 = Vector3.add (position u1) (mkV3 0 radius 0) /\
    capsuleEnd u2 = Vector3.add (position u1) (mkV3 0 (height - radius) 0) /\
    (resolved obstacles u1 ->
       capsuleStart u2 = Vector3.add (position u2) (mkV3 0 radius 0) /\
       capsuleEnd u2
       = Vector3.add (position u2) (mkV3 0 (height - radius) 0)).
Proof.
  intros delta controls joystick cameraTheta testAnimation obstacles u t Hm u1 u2.
  destruct (update_capsule delta controls joystick cameraTheta testAnimation
              u t Hm) as [Hs He].
  fold u1 in Hs, He.
  assert (Hkeep : capsuleStart u2 = capsuleStart u1 /\ capsuleEnd u2 = capsuleEnd u1).
  { subst u2. unfold tick, checkCollisions. fold u1.
    destruct (obstacles_frame obstacles (collideFloor u1))
      as (_ & _ & Hcs & Hce & _).
    rewrite Hcs, Hce.
    destruct (collideFloor_frame u1) as (_ & Fs & Fe & _).
    split; assumption. }
  destruct Hkeep as [Ks Ke].
  rewrite Ks, Ke, Hs, He, !(add_comm (position u1)).
  split; [reflexivity|]. split; [reflexivity|]. split; [reflexivity|].
  split; [reflexivity|]. intros Hres.
  destruct (checkCollisions_resolved obstacles u1 Hres) as [Hp _].
  change (position u2) with (position (checkCollisions obstacles u1)).
  rewrite Hp. split; apply add_comm.
Qed.

Lemma capsule_follows_update_witness :
  let u := load robotClips (newUnit (mkV3 0 0.1 0)) in
  let u1 := update 0.1 noKeys idleStick 0 None u in
  mixer u = Some 0 /\
  capsuleStart u1 = Vector3.add (position u1) (mkV3 0 radius 0) /\
  capsuleStart (tick 0.1 noKeys idleStick 0 None [] u)
  = Vector3.add (position u1) (mkV3 0 radius 0).
Proof.
  cbv zeta.
  assert (Hm : mixer (load robotClips (newUnit (mkV3 0 0.1 0))) = Some 0)
    by apply load_mixer.
  destruct (capsule_follows_update 0.1 noKeys idleStick 0 None []
              (load robotClips (newUnit (mkV3 0 0.1 0))) 0 Hm)
    as (H1 & _ & H3 & _ & _).
  split; [exact Hm|]. split; [exact H1 | exact H3].
Defined.

(** C8 as stated fails on the tick in which the unit lands: [update]
    takes a loaded unit from height 0.1 to -0.22 and sets the capsule
    from that position; [checkCollisions] then raises the position to
    the floor and leaves the capsule 0.22 too low. *)
Lemma capsule_stale_after_landing_counterexample :
  let u := load robotClips (newUnit (mkV3 0 0.1 0)) in
  let u' := tick 0.1 noKeys idleStick 0 None [] u in
  vy (position u') = 0 /\
  vy (capsuleStart u') = 0.28 /\
  capsuleStart u' <> Vector3.add (position u') (mkV3 0 radius 0).
Proof.
  cbv zeta.
  destruct (load_frame robotClips (newUnit (mkV3 0 0.1 0)))
    as (Hm & Lp & Lv & Lg & _).
  set (u := load robotClips (newUnit (mkV3 0 0.1 0))) in *.
  set (u1 := update 0.1 noKeys idleStick 0 None u).
  assert (Hy1 : vy (position u1) = -0.22).
  { unfold u1. rewrite (update_loaded _ _ _ _ _ _ _ Hm), stepAnimations_position.
    unfold applyVelocity. simpl position.
    rewrite gravityJump_position, steer_position.
    destruct (gravityJump_airborne 0.1 noKeys (steer noKeys idleStick 0 u))
      as [Hv _]; [rewrite steer_isGrounded; exact Lg|].
    unfold Vector3.add, Vector3.multiplyScalar. simpl vy at 1.
    rewrite Hv, steer_vy, Lp, Lv. simpl. lra. }
  destruct (update_capsule 0.1 noKeys idleStick 0 None u 0 Hm) as [Hs _].
  fold u1 in Hs.
  assert (Hpos : position (tick 0.1 noKeys idleStick 0 None [] u)
                 = mkV3 (vx (position u1)) 0 (vz (position u1))).
  { unfold tick, checkCollisions. fold u1. simpl foldl.
    apply collideFloor_below. lra. }
  assert (Hcap : capsuleStart (tick 0.1 noKeys idleStick 0 None [] u)
                 = capsuleStart u1).
  { unfold tick, checkCollisions. fold u1. simpl foldl.
    apply collideFloor_frame. }
  rewrite Hpos, Hcap, Hs.
  unfold Vector3.add, radius. simpl. rewrite Hy1.
  split; [reflexivity|]. split; [lra|].
  intros E. apply (f_equal vy) in E. simpl in E. lra.
Qed.

(** ** The walking scenario *)

Lemma update_actions delta controls joystick cameraTheta testAnimation u :
  actions (update delta controls joystick cameraTheta testAnimation u)
  = actions u.
Proof.
  unfold update. destruct (mixer u); [|reflexivity].
  rewrite stepAnimations_actions.
  change (actions (applyVelocity delta ?x)) with (actions x).
  destruct (gravityJump_static delta controls
              (steer controls joystick cameraTheta u)) as (_ & E & _).
  rewrite E. apply steer_static.
Qed.

Lemma update_mixer delta controls joystick cameraTheta testAnimation u t :
  mixer u = Some t ->
  mixer (update delta controls joystick cameraTheta testAnimation u)
  = Some (t + delta).
Proof.
  intros Hm. rewrite (update_loaded _ _ _ _ _ _ _ Hm), stepAnimations_mixer.
  change (mixer (applyVelocity delta ?x)) with (mixer x).
  destruct (gravityJump_static delta controls
              (steer controls joystick cameraTheta u)) as (E & _).
  destruct (steer_static controls joystick cameraTheta u) as (E' & _).
  rewrite E, E', Hm. reflexivity.
Qed.

Lemma inputMag_forward : inputMag forwardKey idleStick = 1.
Proof.
  unfold inputMag, moveInput, Vector2.length. simpl.
  replace (0 * 0 + (0 + 1) * (0 + 1)) with (1 * 1) by ring.
  rewrite sqrt_square by lra.
  unfold Rmin. destruct (Rle_dec 1 1.0); lra.
Qed.

Lemma moveDir_forward : moveDir forwardKey idleStick 0 = mkV3 0 0 (-1).
Proof.
  unfold moveDir.
  assert (Hraw : moveDirRaw forwardKey idleStick 0 = mkV3 0 0 (-1)).
  { unfold moveDirRaw, moveInput, Vector3.addScaledVector, Vector3.zero.
    simpl. rewrite sin_0, cos_0. f_equal; ring. }
  rewrite Hraw.
  destruct (normalize_unit (mkV3 0 0 (-1)) 1) as (E & _); [lra| |].
  - unfold Vector3.length, Vector3.lengthSq. simpl.
    apply sqrt_of_square; lra.
  - rewrite E. apply vector3_eq; simpl; lra.
Qed.

Lemma steer_forward u :
  vx (velocity (steer forwardKey idleStick 0 u)) = 0.85 * vx (velocity u) /\
  vz (velocity (steer forwardKey idleStick 0 u)) = 0.85 * vz (velocity u) - 0.9.
Proof.
  unfold steer. rewrite inputMag_forward, moveDir_forward.
  destruct (Rgt_dec 1 0.05) as [_|n]; [|exfalso; lra].
  unfold MathUtils.lerp, speed. simpl. split; lra.
Qed.

Lemma pow085_bounds n : 0 < 0.85 ^ n <= 1.
Proof. induction n as [|k IH]; simpl; [lra|nra]. Qed.

Lemma velMag_walking n u :
  vx (velocity u) = 0 -> vz (velocity u) = - (6 * (1 - 0.85 ^ n)) ->
  velMag u = 6 * (1 - 0.85 ^ n).
Proof.
  intros Hx Hz. unfold velMag, Vector2.length. simpl. rewrite Hx, Hz.
  pose proof (pow085_bounds n) as Hp.
  apply sqrt_of_square; [nra|ring].
Qed.

Lemma nextAnimation_walking u :
  isGrounded u = true -> 0.5 < velMag u <= 7.0 -> nextAnimation u = Walking.
Proof.
  intros Hg Hv. unfold nextAnimation. rewrite Hg. simpl.
  destruct (Rgt_dec (velMag u) 7.0); [lra|].
  destruct (Rgt_dec (velMag u) 0.5); [reflexivity|lra].
Qed.

Lemma stepAnimations_selects delta u name :
  nextAnimation u = name -> name ∈ actions u ->
  currentAction (stepAnimations delta None u) = name.
Proof.
  intros Hn Hin. unfold stepAnimations. cbv zeta.
  set (u' := setMixer _ u).
  change (nextAnimation u') with (nextAnimation u).
  change (actions u') with (actions u).
  rewrite Hn. simpl JsMath.or_str.
  rewrite (bool_decide_eq_true_2 _ Hin), andb_true_r.
  destruct (String.eqb (currentAction u') name) eqn:E; simpl.
  - apply String.eqb_eq. exact E.
  - reflexivity.
Qed.

(** One tick of the scenario takes the state after [n] ticks to the
    state after [n + 1] ticks, with ['Walking'] as the current action. *)
Lemma walkTick_step obstacles n u :
  clearPath obstacles -> (n < 60)%nat -> walking n u ->
  walking (S n) (walkTick obstacles u) /\
  currentAction (walkTick obstacles u) = Walking.
Proof.
  intros Hclear Hn ((t & Hm) & Hg & Hw & Hpx & Hpy & Hpz & Hvx & Hvz).
  pose proof (pow085_bounds n) as Hpow.
  pose proof (pow085_bounds (S n)) as HpowS.
  assert (HnR : INR n <= 59).
  { replace 59 with (INR 59) by (simpl; lra). apply le_INR. lia. }
  unfold walkTick, tick.
  set (s1 := steer forwardKey idleStick 0 u).
  destruct (steer_forward u) as [Hs1x Hs1z]. fold s1 in Hs1x, Hs1z.
  assert (Hs1g : isGrounded s1 = true)
    by (unfold s1; rewrite steer_isGrounded; exact Hg).
  set (s2 := gravityJump 0.016 forwardKey s1).
  destruct (gravityJump_grounded_nojump 0.016 forwardKey s1 Hs1g eq_refl)
    as [Hs2g Hs2y]. fold s2 in Hs2g, Hs2y.
  assert (Hs2x : vx (velocity s2) = 0).
  { unfold s2. rewrite gravityJump_vx, Hs1x, Hvx. ring. }
  assert (Hs2z : vz (velocity s2) = - (6 * (1 - 0.85 ^ S n))).
  { unfold s2. rewrite gravityJump_vz, Hs1z, Hvz. simpl. lra. }
  assert (Hs2p : position s2 = position u).
  { unfold s2, s1. rewrite gravityJump_position, steer_position. reflexivity. }
  set (s3 := applyVelocity 0.016 s2).
  assert (Hs3v : velocity s3 = velocity s2) by reflexivity.
  assert (Hs3g : isGrounded s3 = true) by exact Hs2g.
  assert (Hs3p : position s3
                 = mkV3 0 0 (vz (position u) + vz (velocity s2) * 0.016)).
  { unfold s3, applyVelocity. simpl position. rewrite Hs2p.
    apply vector3_eq; simpl; rewrite ?Hs2x, ?Hs2y, ?Hpx, ?Hpy; ring. }
  assert (Hu : update 0.016 forwardKey idleStick 0 None u
               = stepAnimations 0.016 None s3)
    by (apply (update_loaded _ _ _ _ _ _ _ Hm)).
  rewrite Hu.
  set (s4 := stepAnimations 0.016 None s3).
  assert (Hs4v : velocity s4 = velocity s2)
    by (unfold s4; rewrite stepAnimations_velocity; exact Hs3v).
  assert (Hs4p : position s4 = position s3)
    by (unfold s4; apply stepAnimations_position).
  assert (Hmag : velMag s3 = 6 * (1 - 0.85 ^ S n)).
  { apply velMag_walking; rewrite Hs3v; assumption. }
  assert (Hpow1 : 0.85 ^ S n <= 0.85) by (simpl; nra).
  assert (Hs3w : Walking ∈ actions s3).
  { unfold s3, applyVelocity. simpl actions. unfold s2, s1.
    unfold gravityJump, steer.
    destruct (Rgt_dec _ _); simpl; rewrite Hg; simpl; exact Hw. }
  assert (Hs4c : currentAction s4 = Walking).
  { unfold s4. apply stepAnimations_selects; [|exact Hs3w].
    apply nextAnimation_walking; [exact Hs3g|]. rewrite Hmag. lra. }
  set (z' := vz (position u) + vz (velocity s2) * 0.016) in *.
  assert (Hz' : - 0.096 * INR (S n) <= z' <= 0).
  { unfold z'. rewrite Hs2z, S_INR. nra. }
  assert (Hfloor : position (collideFloor s4) = mkV3 0 0 z').
  { rewrite collideFloor_position; rewrite Hs4p, Hs3p; simpl;
      [reflexivity|lra]. }
  assert (Hobs : foldl collideObstacle (collideFloor s4) obstacles
                 = collideFloor s4).
  { apply obstacles_clear. rewrite Hfloor. apply Hclear.
    rewrite S_INR in Hz'. lra. }
  unfold checkCollisions. rewrite Hobs.
  assert (Hfg : isGrounded (collideFloor s4) = true).
  { apply collideFloor_on_floor. rewrite Hs4p, Hs3p. simpl. lra. }
  assert (Hframe : mixer (collideFloor s4) = mixer s4 /\
                   actions (collideFloor s4) = actions s4 /\
                   currentAction (collideFloor s4) = currentAction s4 /\
                   velocity (collideFloor s4) = velocity s4).
  { destruct (collideFloor_frame s4) as (Fv & _ & _ & Fm & Fa & Fc).
    repeat split; assumption. }
  destruct Hframe as (Fm & Fa & Fc & Fv).
  split.
  - unfold walking. rewrite Fm, Fa, Fv, Hfg, Hfloor, Hs4v. simpl.
    split.
    { exists (t + 0.016). unfold s4. rewrite <- Hu.
      apply update_mixer. exact Hm. }
    split; [reflexivity|]. split.
    { unfold s4. rewrite stepAnimations_actions. exact Hs3w. }
    split; [reflexivity|]. split; [reflexivity|]. split; [exact Hz'|].
    split; [exact Hs2x | exact Hs2z].
  - rewrite Fc. exact Hs4c.
Qed.

Lemma walk_run obstacles u :
  clearPath obstacles -> walking 0 u ->
  forall n, (n <= 60)%nat ->
    walking n (Nat.iter n (walkTick obstacles) u) /\
    ((1 <= n)%nat ->
       currentAction (Nat.iter n (walkTick obstacles) u) = Walking).
Proof.
  intros Hclear H0. induction n as [|k IH]; intros Hle.
  - split; [exact H0|]. intros H. inversion H.
  - destruct IH as [Hk _]; [lia|].
    destruct (walkTick_step obstacles k _ Hclear ltac:(lia) Hk) as [Hs Hc].
    split; [exact Hs|]. intros _. exact Hc.
Qed.

Lemma walking_speed n u :
  walking n u -> velMag u = 6 * (1 - 0.85 ^ n) /\ isGrounded u = true.
Proof.
  intros (_ & Hg & _ & _ & _ & _ & Hvx & Hvz).
  split; [apply velMag_walking; assumption | exact Hg].
Qed.

(** C7, amended: from a loaded unit at the origin, at rest and grounded,
    whose asset has the ['Walking'] clip, on ground with no obstacle along
    the way, 60 ticks with [forward] held (nothing else pressed, joystick
    idle, camera angle 0, [delta = 0.016], no animation override) give a
    horizontal speed of [6 (1 - 0.85^n)] after [n] ticks: it grows at
    every tick, stays below 6.0 and so below the 7.0 threshold of
    ['Running'], is within 5% of 6.0 at tick 60, and from the first tick
    on the chosen and current action is ['Walking'], never
    ['Running']. *)
Theorem walk_scenario :
  forall obstacles u t,
    mixer u = Some t ->
    position u = origin ->
    velocity u = Vector3.zero ->
    isGrounded u = true ->
    Walking ∈ actions u ->
    clearPath obstacles ->
    let run := fun n : nat => Nat.iter n (walkTick obstacles) u in
    (forall n, (n <= 60)%nat ->
       velMag (run n) = 6 * (1 - 0.85 ^ n) /\ velMag (run n) < 6.0) /\
    (forall n, (n < 60)%nat -> velMag (run n) < velMag (run (S n))) /\
    6.0 - velMag (run 60%nat) <= 0.05 * 6.0 /\
    (forall n, (1 <= n <= 60)%nat ->
       nextAnimation (run n) = Walking /\
       currentAction (run n) = Walking /\
       currentAction (run n) <> Running).
Proof.
  intros obstacles u t Hm Hp Hv Hg Hw Hclear. cbv beta zeta.
  assert (H0 : walking 0 u).
  { unfold walking. rewrite Hp, Hv, Hg. simpl.
    split; [exists t; exact Hm|]. repeat split; try lra. exact Hw. }
  pose proof (walk_run obstacles u Hclear H0) as Hrun.
  assert (Hspeed : forall n, (n <= 60)%nat ->
            velMag (Nat.iter n (walkTick obstacles) u) = 6 * (1 - 0.85 ^ n) /\
            isGrounded (Nat.iter n (walkTick obstacles) u) = true).
  { intros n Hn. apply walking_speed. apply Hrun. exact Hn. }
  split; [|split; [|split]].
  - intros n Hn. destruct (Hspeed n Hn) as [E _].
    pose proof (pow085_bounds n). split; [exact E|]. rewrite E. lra.
  - intros n Hn.
    destruct (Hspeed n ltac:(lia)) as [E _].
    destruct (Hspeed (S n) ltac:(lia)) as [E' _].
    rewrite E, E'. pose proof (pow085_bounds n). simpl. lra.
  - destruct (Hspeed 60%nat ltac:(lia)) as [E _]. rewrite E.
    assert (0.85 ^ 60 <= 0.05) by lra. lra.
  - intros n [H1 H60].
    destruct (Hspeed n H60) as [E Hgn].
    destruct (Hrun n H60) as [_ Hc]. specialize (Hc H1).
    assert (Hpow : 0.85 ^ n <= 0.85).
    { destruct n as [|k]; [lia|]. pose proof (pow085_bounds k). simpl. nra. }
    pose proof (pow085_bounds n) as Hb.
    split; [|split].
    + apply nextAnimation_walking; [exact Hgn|]. rewrite E. lra.
    + exact Hc.
    + rewrite Hc. discriminate.
Qed.

Lemma sceneObstacles_clearPath : clearPath sceneObstacles.
Proof.
  intros z Hz.
  unfold sceneObstacles, Box3.clampPoint, Vector3.clamp,
    Vector3.distanceTo, Vector3.distanceToSquared, radius.
  constructor; [|constructor; [|constructor; [|constructor]]];
    cbn [vx vy vz bmin bmax].
  - rewrite (clamp_below 0 8 12), (clamp_within 0 0 8),
      (clamp_below z 8 12) by lra.
    apply sqrt_not_below; nra.
  - rewrite (clamp_above 0 (-18) (-12)), (clamp_within 0 0 4),
      (clamp_below z 2 8) by lra.
    apply sqrt_not_below; nra.
  - rewrite (clamp_within 0 0 10), (clamp_within 0 0 2),
      (clamp_above z (-21) (-19)) by lra.
    apply sqrt_not_below; nra.
Qed.

Lemma walk_scenario_witness :
  let u := load robotClips
             (tick 0.016 noKeys idleStick PI None sceneObstacles
                (newUnit origin)) in
  mixer u = Some 0 /\ position u = origin /\ velocity u = Vector3.zero /\
  isGrounded u = true /\ Walking ∈ actions u /\ clearPath sceneObstacles /\
  6.0 - velMag (Nat.iter 60 (walkTick sceneObstacles) u) <= 0.05 * 6.0 /\
  currentAction (Nat.iter 60 (walkTick sceneObstacles) u) = Walking.
Proof.
  cbv zeta.
  set (u0 := tick 0.016 noKeys idleStick PI None sceneObstacles (newUnit origin)).
  destruct (first_tick_unloaded 0.016 noKeys idleStick PI None sceneObstacles)
    as (Hm0 & Hg0 & Hv0). fold u0 in Hm0, Hg0, Hv0.
  assert (Hp0 : position u0 = origin).
  { unfold u0, tick. rewrite update_unloaded by reflexivity.
    unfold checkCollisions.
    assert (Hf : position (collideFloor (newUnit origin)) = mkV3 0 0 0)
      by (apply collideFloor_position; simpl; lra).
    rewrite obstacles_clear; [exact Hf|].
    rewrite Hf. apply sceneObstacles_clearPath. lra. }
  destruct (load_frame robotClips u0) as (Hm & Hp & Hv & Hg & Hact).
  rewrite Hp0 in Hp. rewrite Hv0 in Hv. rewrite Hg0 in Hg.
  assert (Hw : Walking ∈ actions (load robotClips u0)).
  { rewrite Hact. unfold robotClips. simpl. clear. set_solver. }
  destruct (walk_scenario sceneObstacles (load robotClips u0) 0
              Hm Hp Hv Hg Hw sceneObstacles_clearPath)
    as (_ & _ & H5 & Hanim).
  destruct (Hanim 60%nat ltac:(lia)) as (_ & Hc & _).
  split; [exact Hm|]. split; [exact Hp|]. split; [exact Hv|].
  split; [exact Hg|]. split; [exact Hw|].
  split; [exact sceneObstacles_clearPath|]. split; [exact H5 | exact Hc].
Defined.

Lemma unloaded_walkTick_fixed obstacles u :
  mixer u = None -> position u = origin -> isGrounded u = true ->
  clearPath obstacles ->
  walkTick obstacles u = u.
Proof.
  intros Hm Hp Hg Hclear. unfold walkTick, tick.
  rewrite update_unloaded by exact Hm.
  assert (Hf : collideFloor u = u).
  { unfold collideFloor. destruct u as [p r m a c v g cs ce d an].
    simpl in *. subst p g. cbv zeta. simpl.
    destruct (Rle_dec 0 0) as [_|no]; [reflexivity|exfalso; lra]. }
  unfold checkCollisions. rewrite Hf. apply obstacles_clear.
  rewrite Hp. apply Hclear. lra.
Qed.

Lemma iter_fixed {A : Type} (f : A -> A) (a : A) (n : nat) :
  f a = a -> Nat.iter n f a = a.
Proof.
  intros H. induction n as [|k IH]; simpl; [reflexivity|].
  rewrite IH. exact H.
Qed.

(** C7 as stated fails on the unit that [GameCanvas] steps while its
    asset is still loading: it is at the origin, at rest and grounded
    after its first tick, and 60 ticks with [forward] held leave its
    speed at 0 and its action at ['Idle']. *)
Lemma walk_unloaded_counterexample :
  let u := tick 0.016 noKeys idleStick PI None sceneObstacles (newUnit origin) in
  let u' := Nat.iter 60 (walkTick sceneObstacles) u in
  position u = origin /\ velocity u = Vector3.zero /\ isGrounded u = true /\
  velMag u' = 0 /\
  ~ 6.0 - velMag u' <= 0.05 * 6.0 /\
  currentAction u' = Idle /\ currentAction u' <> Walking.
Proof.
  cbv zeta.
  set (u := tick 0.016 noKeys idleStick PI None sceneObstacles (newUnit origin)).
  destruct (first_tick_unloaded 0.016 noKeys idleStick PI None sceneObstacles)
    as (Hm & Hg & Hv). fold u in Hm, Hg, Hv.
  assert (Hf : position (collideFloor (newUnit origin)) = mkV3 0 0 0)
    by (apply collideFloor_position; simpl; lra).
  assert (Hclear0 : foldl collideObstacle (collideFloor (newUnit origin))
                      sceneObstacles = collideFloor (newUnit origin)).
  { apply obstacles_clear. rewrite Hf. apply sceneObstacles_clearPath. lra. }
  assert (Hu : u = collideFloor (newUnit origin)).
  { unfold u, tick. rewrite update_unloaded by reflexivity.
    unfold checkCollisions. exact Hclear0. }
  assert (Hp : position u = origin) by (rewrite Hu; exact Hf).
  assert (Hc : currentAction u = Idle).
  { rewrite Hu. apply collideFloor_frame. }
  rewrite (iter_fixed _ u 60
             (unloaded_walkTick_fixed sceneObstacles u Hm Hp Hg
                sceneObstacles_clearPath)).
  assert (Hmag : velMag u = 0).
  { unfold velMag, Vector2.length. rewrite Hv. simpl.
    apply sqrt_of_square; lra. }
  rewrite Hmag, Hc.
  split; [exact Hp|]. split; [exact Hv|]. split; [exact Hg|].
  split; [reflexivity|]. split; [lra|]. split; [reflexivity|discriminate].
Qed.

(** * Further properties of the unit *)

(** ** Vertical motion *)

Lemma update_vertical delta controls joystick cameraTheta testAnimation u t :
  mixer u = Some t ->
  let u' := update delta controls joystick cameraTheta testAnimation u in
  let g := gravityJump delta controls (steer controls joystick cameraTheta u) in
  isGrounded u' = isGrounded g /\
  vy (velocity u') = vy (velocity g) /\
  vy (position u') = vy (position u) + vy (velocity g) * delta.
Proof.
  intros Hm. cbv zeta. rewrite (update_loaded _ _ _ _ _ _ _ Hm).
  rewrite stepAnimations_isGrounded, stepAnimations_velocity,
    stepAnimations_position.
  unfold applyVelocity. cbv zeta.
  cbn [isGrounded velocity position setCapsule setPosition].
  rewrite gravityJump_position, steer_position.
  repeat split; reflexivity.
Qed.

Lemma update_airborne delta controls joystick cameraTheta testAnimation u t :
  mixer u = Some t -> isGrounded u = false ->
  let u' := update delta controls joystick cameraTheta testAnimation u in
  isGrounded u' = false /\
  vy (velocity u') = vy (velocity u) - 32.0 * delta /\
  vy (position u') = vy (position u) + (vy (velocity u) - 32.0 * delta) * delta.
Proof.
  intros Hm Hg.
  destruct (update_vertical delta controls joystick cameraTheta testAnimation
              u t Hm) as (E1 & E2 & E3).
  destruct (gravityJump_airborne delta controls
              (steer controls joystick cameraTheta u)) as [Hv Hf];
    [rewrite steer_isGrounded; exact Hg|].
  rewrite steer_vy in Hv. cbv zeta.
  rewrite E1, E2, E3, Hv, Hf. repeat split; reflexivity.
Qed.

Lemma updates_stay_loaded delta inputs : forall u t,
  mixer u = Some t ->
  exists tn, mixer (foldl (updateWith delta) u inputs) = Some tn.
Proof.
  induction inputs as [|j r IHr]; intros u t Hm; simpl.
  - exists t. exact Hm.
  - apply (IHr _ (t + delta)). apply update_mixer. exact Hm.
Qed.

(** X1: while a loaded unit is airborne and only [update] runs, each
    call takes [32 delta] off [velocity.y] whatever the inputs, so
    after [n] calls the velocity is [vy - 32 delta n] and the height is
    [y + n delta vy - 16 delta^2 n (n + 1)]; the unit stays airborne. *)
Theorem gravity_integration :
  forall delta (inputs : list TickInput) u t,
    mixer u = Some t ->
    isGrounded u = false ->
    let n := INR (length inputs) in
    let u' := foldl (updateWith delta) u inputs in
    isGrounded u' = false /\
    vy (velocity u') = vy (velocity u) - 32.0 * delta * n /\
    vy (position u')
    = vy (position u) + n * delta * vy (velocity u)
      - 16 * delta * delta * n * (n + 1).
Proof.
  intros delta inputs. induction inputs as [|i rest IH] using rev_ind;
    intros u t Hm Hg.
  - cbv zeta. cbn [length foldl INR]. repeat split; [exact Hg | lra | lra].
  - cbv zeta. rewrite foldl_snoc, length_app, plus_INR. simpl length.
    change (INR 1) with 1.
    destruct (IH u t Hm Hg) as (Eg & Ev & Ep).
    set (un := foldl (updateWith delta) u rest) in *.
    destruct (updates_stay_loaded delta rest u t Hm) as [tn Hmn].
    fold un in Hmn.
    destruct (update_airborne delta (tiControls i) (tiJoystick i)
                (tiCameraTheta i) (tiTestAnimation i) un tn Hmn Eg)
      as (Fg & Fv & Fp).
    unfold updateWith at 1 2 3. rewrite Fg, Fv, Fp, Ev, Ep.
    split; [reflexivity|]. split; lra.
Qed.

Lemma gravity_integration_witness :
  let u := load robotClips (newUnit (mkV3 0 100 0)) in
  let i := mkTickInput jumpKey idleStick 0 None in
  let u' := foldl (updateWith 0.1) u [i; i; i] in
  mixer u = Some 0 /\ isGrounded u = false /\
  vy (velocity u') = vy (velocity u) - 32.0 * 0.1 * INR 3.
Proof.
  cbv zeta.
  destruct (load_frame robotClips (newUnit (mkV3 0 100 0)))
    as (Hm & _ & _ & Hg & _).
  simpl in Hg.
  split; [exact Hm|]. split; [exact Hg|].
  apply (gravity_integration 0.1
           [mkTickInput jumpKey idleStick 0 None;
            mkTickInput jumpKey idleStick 0 None;
            mkTickInput jumpKey idleStick 0 None] _ 0 Hm Hg).
Defined.

Lemma tick_open_ground delta controls joystick cameraTheta testAnimation u :
  let u1 := update delta controls joystick cameraTheta testAnimation u in
  let u2 := tick delta controls joystick cameraTheta testAnimation [] u in
  mixer u2 = mixer u1 /\ velocity u2 = velocity u1 /\
  (vy (position u1) <= 0 ->
     vy (position u2) = 0 /\ isGrounded u2 = true) /\
  (~ vy (position u1) <= 0 ->
     position u2 = position u1 /\ isGrounded u2 = false).
Proof.
  cbv zeta. unfold tick, checkCollisions. simpl foldl.
  set (u1 := update delta controls joystick cameraTheta testAnimation u).
  destruct (collideFloor_frame u1) as (Fv & _ & _ & Fm & _).
  split; [exact Fm|]. split; [exact Fv|]. split.
  - intros Hy. destruct (collideFloor_on_floor u1 Hy) as (Ep & Eg & _).
    rewrite Ep. split; [reflexivity | exact Eg].
  - intros Hy. destruct (collideFloor_above_floor u1 Hy) as (Ep & Eg & _).
    split; assumption.
Qed.

Lemma tick_jumpBound delta controls joystick cameraTheta testAnimation u :
  0 <= delta -> jumpBound delta u ->
  jumpBound delta (tick delta controls joystick cameraTheta testAnimation [] u).
Proof.
  intros Hd ((t & Hm) & Hy & Hgr & Hair).
  destruct (tick_open_ground delta controls joystick cameraTheta testAnimation u)
    as (Tm & Tv & Tfloor & Tabove).
  destruct (update_vertical delta controls joystick cameraTheta testAnimation
              u t Hm) as (E1 & E2 & E3).
  pose proof (update_mixer delta controls joystick cameraTheta testAnimation
                u t Hm) as Um.
  set (u1 := update delta controls joystick cameraTheta testAnimation u) in *.
  set (u2 := tick delta controls joystick cameraTheta testAnimation [] u) in *.
  set (g := gravityJump delta controls (steer controls joystick cameraTheta u)) in *.
  assert (Hload : exists t', mixer u2 = Some t')
    by (exists (t + delta); rewrite Tm; exact Um).
  destruct (Rle_dec (vy (position u1)) 0) as [low|high].
  - destruct (Tfloor low) as [Py Pg].
    split; [exact Hload|]. split; [lra|]. split; [intros _; exact Py|].
    intros Hf. rewrite Pg in Hf. discriminate.
  - destruct (Tabove high) as [Pp Pg].
    split; [exact Hload|]. rewrite Pp. split; [lra|].
    split; [intros Ht; rewrite Pg in Ht; discriminate|].
    intros _. rewrite Tv, E3, E2.
    assert (Hsg : isGrounded (steer controls joystick cameraTheta u)
                  = isGrounded u) by apply steer_isGrounded.
    destruct (isGrounded u) eqn:Hg.
    + specialize (Hgr eq_refl).
      destruct (ControlState.jump controls) eqn:Hj.
      * destruct (gravityJump_grounded_jump delta controls _ Hsg Hj) as [_ Gv].
        fold g in Gv. rewrite Gv, Hgr. lra.
      * destruct (gravityJump_grounded_nojump delta controls _ Hsg Hj) as [_ Gv].
        fold g in Gv. exfalso. apply high. rewrite E3, Gv, Hgr. lra.
    + specialize (Hair eq_refl).
      destruct (gravityJump_airborne delta controls _ Hsg) as [Gv _].
      fold g in Gv. rewrite steer_vy in Gv. rewrite Gv. lra.
Qed.

Lemma runTicks_jumpBound delta inputs :
  0 <= delta -> forall u,
  jumpBound delta u -> jumpBound delta (runTicks delta [] inputs u).
Proof.
  intros Hd. unfold runTicks.
  induction inputs as [|i rest IH]; intros u H0; simpl; [exact H0|].
  apply IH. unfold tickWith. apply tick_jumpBound; assumption.
Qed.

Lemma tick_jumpEnergy D delta controls joystick cameraTheta testAnimation u :
  0 <= delta <= D -> jumpEnergy (169 / 64 + 13 * D) u ->
  jumpEnergy (169 / 64 + 13 * D)
    (tick delta controls joystick cameraTheta testAnimation [] u).
Proof.
  intros Hd ((t & Hm) & Hy & Hgr & Hair).
  destruct (tick_open_ground delta controls joystick cameraTheta testAnimation u)
    as (Tm & Tv & Tfloor & Tabove).
  destruct (update_vertical delta controls joystick cameraTheta testAnimation
              u t Hm) as (E1 & E2 & E3).
  pose proof (update_mixer delta controls joystick cameraTheta testAnimation
                u t Hm) as Um.
  set (u1 := update delta controls joystick cameraTheta testAnimation u) in *.
  set (u2 := tick delta controls joystick cameraTheta testAnimation [] u) in *.
  set (g := gravityJump delta controls (steer controls joystick cameraTheta u)) in *.
  assert (Hload : exists t', mixer u2 = Some t')
    by (exists (t + delta); rewrite Tm; exact Um).
  destruct (Rle_dec (vy (position u1)) 0) as [low|high].
  - destruct (Tfloor low) as [Py Pg].
    split; [exact Hload|]. split; [lra|]. split; [intros _; exact Py|].
    intros Hf. rewrite Pg in Hf. discriminate.
  - destruct (Tabove high) as [Pp Pg].
    split; [exact Hload|]. rewrite Pp. split; [lra|].
    split; [intros Ht; rewrite Pg in Ht; discriminate|].
    intros _. rewrite Tv, E3, E2.
    assert (Hsg : isGrounded (steer controls joystick cameraTheta u)
                  = isGrounded u) by apply steer_isGrounded.
    destruct (isGrounded u) eqn:Hg.
    + specialize (Hgr eq_refl).
      destruct (ControlState.jump controls) eqn:Hj.
      * destruct (gravityJump_grounded_jump delta controls _ Hsg Hj) as [_ Gv].
        fold g in Gv. rewrite Gv, Hgr. lra.
      * destruct (gravityJump_grounded_nojump delta controls _ Hsg Hj) as [_ Gv].
        fold g in Gv. exfalso. apply high. rewrite E3, Gv, Hgr. lra.
    + specialize (Hair eq_refl).
      destruct (gravityJump_airborne delta controls _ Hsg) as [Gv _].
      fold g in Gv. rewrite steer_vy in Gv. rewrite Gv.
      set (v := vy (velocity u)) in *. set (y := vy (position u)) in *.
      pose proof (Rle_0_sqr delta) as Hs. unfold Rsqr in Hs.
      replace (y + (v - 32.0 * delta) * delta
               + (v - 32.0 * delta) * (v - 32.0 * delta) / 64)
        with (y + v * v / 64 - 16 * (delta * delta)) by lra.
      lra.
Qed.

Lemma frameDelta_range elapsed : 0 <= elapsed -> 0 <= frameDelta elapsed <= 0.1.
Proof.
  intros H. unfold frameDelta, Rmin. destruct (Rle_dec elapsed 0.1); lra.
Qed.

Lemma runFrames_jumpEnergy D frames :
  Forall (fun f => 0 <= frameDelta (fst f) <= D) frames ->
  forall u,
    jumpEnergy (169 / 64 + 13 * D) u ->
    jumpEnergy (169 / 64 + 13 * D) (runFrames [] frames u).
Proof.
  intros Hall. unfold runFrames.
  induction Hall as [|f rest Hf _ IH]; intros u H0; cbn [foldl]; [exact H0|].
  apply IH. unfold tickWith. apply tick_jumpEnergy; assumption.
Qed.

(** One frame on open ground in which the unit ends above the floor:
    it is airborne, and its height has moved by the new vertical
    velocity times the frame time. *)
Lemma tick_rising delta controls joystick cameraTheta testAnimation u t :
  mixer u = Some t ->
  let g := gravityJump delta controls (steer controls joystick cameraTheta u) in
  let u' := tick delta controls joystick cameraTheta testAnimation [] u in
  0 < vy (position u) + vy (velocity g) * delta ->
  mixer u' = Some (t + delta) /\ isGrounded u' = false /\
  vy (velocity u') = vy (velocity g) /\
  vy (position u') = vy (position u) + vy (velocity g) * delta.
Proof.
  intros Hm. cbv zeta. intros Hup.
  destruct (tick_open_ground delta controls joystick cameraTheta testAnimation u)
    as (Tm & Tv & _ & Tabove).
  destruct (update_vertical delta controls joystick cameraTheta testAnimation
              u t Hm) as (_ & E2 & E3).
  cbv zeta in Tm, Tv, Tabove.
  destruct Tabove as [Pp Pg]; [rewrite E3; lra|].
  rewrite Tm, Tv, Pp, E2, E3.
  split; [apply (update_mixer _ _ _ _ _ _ _ Hm)|].
  split; [exact Pg|]. split; reflexivity.
Qed.

(** X2: on open ground a loaded unit that starts on the floor is never
    below the floor after a frame and never rises above
    [169/64 + 13 D], whatever is pressed in which frame, when no
    frame time is above [D]; the frame times may differ from frame to
    frame.  With the frame time that [animate] uses, the
    clock reading cut at 0.1, that is 3.940625 for any clock readings.
    When all frames have the same frame time [delta] the sharper bound
    [(13 + 16 delta)^2 / 64] holds, which is 3.330625 at 0.1; it does
    not hold for frame times that vary. *)
Theorem jump_apex :
  forall (frames : list (R * TickInput)) u t,
    Forall (fun f => 0 <= fst f) frames ->
    mixer u = Some t ->
    isGrounded u = true ->
    vy (position u) = 0 ->
    0 <= vy (position (runFrames [] frames u)) <= 3.940625 /\
    (forall D,
       0 <= D ->
       Forall (fun f => frameDelta (fst f) <= D) frames ->
       vy (position (runFrames [] frames u)) <= 169 / 64 + 13 * D) /\
    (forall delta inputs,
       0 <= delta ->
       0 <= vy (position (runTicks delta [] inputs u))
       <= (13 + 16 * delta) * (13 + 16 * delta) / 64).
Proof.
  intros frames u t Hpos Hm Hg Hy.
  assert (Hstart : forall B, jumpEnergy B u).
  { intros B. split; [exists t; exact Hm|]. split; [lra|].
    split; [intros _; exact Hy|].
    intros Hf. rewrite Hg in Hf. discriminate. }
  assert (Hbound : forall D,
             0 <= D ->
             Forall (fun f => frameDelta (fst f) <= D) frames ->
             0 <= vy (position (runFrames [] frames u)) <= 169 / 64 + 13 * D).
  { intros D HD0 HD.
    assert (Hall : Forall (fun f => 0 <= frameDelta (fst f) <= D) frames).
    { clear -Hpos HD. induction Hpos as [|f rest Hf _ IH]; [constructor|].
      inversion HD as [|? ? Hd Hrest]; subst. constructor.
      - split; [apply (frameDelta_range _ Hf) | exact Hd].
      - apply IH. exact Hrest. }
    pose proof (runFrames_jumpEnergy D frames Hall u (Hstart _))
      as (_ & Hlow & Hgr & Hair).
    split; [exact Hlow|].
    destruct (isGrounded (runFrames [] frames u)) eqn:E.
    - rewrite (Hgr eq_refl). lra.
    - specialize (Hair eq_refl).
      pose proof (Rle_0_sqr (vy (velocity (runFrames [] frames u)))) as Hs.
      unfold Rsqr in Hs. lra. }
  split; [|split].
  - assert (H01 : Forall (fun f => frameDelta (fst f) <= 0.1) frames).
    { clear -Hpos. induction Hpos as [|f rest Hf _ IH]; constructor.
      - apply (frameDelta_range _ Hf).
      - exact IH. }
    destruct (Hbound 0.1 ltac:(lra) H01) as [Hlow Hup].
    split; [exact Hlow | lra].
  - intros D HD0 HD. apply (Hbound D HD0 HD).
  - intros delta inputs Hd.
    assert (H0 : jumpBound delta u).
    { split; [exists t; exact Hm|]. split; [lra|].
      split; [intros _; exact Hy|].
      intros Hf. rewrite Hg in Hf. discriminate. }
    pose proof (runTicks_jumpBound delta inputs Hd u H0)
      as (_ & Hlow & Hgr & Hair).
    split; [exact Hlow|].
    destruct (isGrounded (runTicks delta [] inputs u)) eqn:E.
    + rewrite (Hgr eq_refl). nra.
    + specialize (Hair eq_refl).
      pose proof (Rle_0_sqr (vy (velocity (runTicks delta [] inputs u))
                             - 16 * delta)) as Hs.
      unfold Rsqr in Hs. lra.
Qed.

Lemma tick_jump_frame delta controls joystick cameraTheta testAnimation u t :
  mixer u = Some t -> isGrounded u = true ->
  ControlState.jump controls = true ->
  0 < vy (position u) + 13.0 * delta ->
  let u' := tick delta controls joystick cameraTheta testAnimation [] u in
  mixer u' = Some (t + delta) /\ isGrounded u' = false /\
  vy (velocity u') = 13.0 /\
  vy (position u') = vy (position u) + 13.0 * delta.
Proof.
  intros Hm Hg Hj Hup. cbv zeta.
  assert (Hsg : isGrounded (steer controls joystick cameraTheta u) = true)
    by (rewrite steer_isGrounded; exact Hg).
  destruct (gravityJump_grounded_jump delta controls _ Hsg Hj) as [_ Gv].
  pose proof (tick_rising delta controls joystick cameraTheta testAnimation
                u t Hm) as H.
  cbv zeta in H. rewrite Gv in H. apply H. exact Hup.
Qed.

Lemma tick_air_frame delta controls joystick cameraTheta testAnimation u t :
  mixer u = Some t -> isGrounded u = false ->
  0 < vy (position u) + (vy (velocity u) - 32.0 * delta) * delta ->
  let u' := tick delta controls joystick cameraTheta testAnimation [] u in
  mixer u' = Some (t + delta) /\ isGrounded u' = false /\
  vy (velocity u') = vy (velocity u) - 32.0 * delta /\
  vy (position u')
  = vy (position u) + (vy (velocity u) - 32.0 * delta) * delta.
Proof.
  intros Hm Hg Hup. cbv zeta.
  assert (Hsg : isGrounded (steer controls joystick cameraTheta u) = false)
    by (rewrite steer_isGrounded; exact Hg).
  destruct (gravityJump_airborne delta controls _ Hsg) as [Gv _].
  rewrite steer_vy in Gv.
  pose proof (tick_rising delta controls joystick cameraTheta testAnimation
                u t Hm) as H.
  cbv zeta in H. rewrite Gv in H. apply H. exact Hup.
Qed.

Lemma frameDelta_below elapsed :
  elapsed <= 0.1 -> frameDelta elapsed = elapsed.
Proof. intros H. unfold frameDelta. apply Rmin_left. exact H. Qed.

Lemma frameDelta_above elapsed :
  0.1 <= elapsed -> frameDelta elapsed = 0.1.
Proof. intros H. unfold frameDelta. apply Rmin_right. exact H. Qed.

(** A jump over frames of different lengths: a first frame of 0.1 (a
    clock reading of 0.25, cut) and five frames of 0.05, with [jump]
    held, take the unit to height 3.35. *)
Lemma varying_frames_height u :
  mixer u = Some 0 -> isGrounded u = true -> vy (position u) = 0 ->
  let i := mkTickInput jumpKey idleStick 0 None in
  vy (position
        (runFrames []
           [(0.25, i); (0.05, i); (0.05, i); (0.05, i); (0.05, i); (0.05, i)]
           u))
  = 3.35.
Proof.
  intros Hm Hg Hy. cbv zeta. unfold runFrames. cbn [foldl fst snd].
  rewrite (frameDelta_above 0.25) by lra.
  rewrite (frameDelta_below 0.05) by lra.
  unfold tickWith. cbn [tiControls tiJoystick tiCameraTheta tiTestAnimation].
  destruct (tick_jump_frame 0.1 jumpKey idleStick 0 None u 0 Hm Hg eq_refl
              ltac:(lra)) as (M1 & G1 & V1 & Y1).
  set (u1 := tick 0.1 jumpKey idleStick 0 None [] u) in *.
  destruct (tick_air_frame 0.05 jumpKey idleStick 0 None u1 _ M1 G1
              ltac:(lra)) as (M2 & G2 & V2 & Y2).
  set (u2 := tick 0.05 jumpKey idleStick 0 None [] u1) in *.
  destruct (tick_air_frame 0.05 jumpKey idleStick 0 None u2 _ M2 G2
              ltac:(lra)) as (M3 & G3 & V3 & Y3).
  set (u3 := tick 0.05 jumpKey idleStick 0 None [] u2) in *.
  destruct (tick_air_frame 0.05 jumpKey idleStick 0 None u3 _ M3 G3
              ltac:(lra)) as (M4 & G4 & V4 & Y4).
  set (u4 := tick 0.05 jumpKey idleStick 0 None [] u3) in *.
  destruct (tick_air_frame 0.05 jumpKey idleStick 0 None u4 _ M4 G4
              ltac:(lra)) as (M5 & G5 & V5 & Y5).
  set (u5 := tick 0.05 jumpKey idleStick 0 None [] u4) in *.
  destruct (tick_air_frame 0.05 jumpKey idleStick 0 None u5 _ M5 G5
              ltac:(lra)) as (_ & _ & _ & Y6).
  lra.
Qed.

(** The jump of [varying_frames_height], from a unit that has been
    grounded by a first frame and then loaded: it stays under 3.940625
    and passes 3.330625, the bound for a constant frame time of 0.1. *)
Lemma jump_apex_witness :
  let u := load robotClips
             (tick 0.016 noKeys idleStick PI None [] (newUnit origin)) in
  let i := mkTickInput jumpKey idleStick 0 None in
  let frames :=
    [(0.25, i); (0.05, i); (0.05, i); (0.05, i); (0.05, i); (0.05, i)] in
  mixer u = Some 0 /\ isGrounded u = true /\ vy (position u) = 0 /\
  3.330625 < vy (position (runFrames [] frames u)) <= 3.940625.
Proof.
  cbv zeta.
  set (u0 := tick 0.016 noKeys idleStick PI None [] (newUnit origin)).
  destruct (first_tick_unloaded 0.016 noKeys idleStick PI None [])
    as (_ & Hg0 & _). fold u0 in Hg0.
  destruct (tick_open_ground 0.016 noKeys idleStick PI None (newUnit origin))
    as (_ & _ & Hfl & _).
  destruct Hfl as [Hy0 _];
    [rewrite update_unloaded by reflexivity; simpl; lra|]. fold u0 in Hy0.
  destruct (load_frame robotClips u0) as (Hm & Hp & _ & Hg & _).
  rewrite Hg0 in Hg.
  assert (Hy : vy (position (load robotClips u0)) = 0)
    by (rewrite Hp; exact Hy0).
  split; [exact Hm|]. split; [exact Hg|]. split; [exact Hy|].
  set (i := mkTickInput jumpKey idleStick 0 None).
  assert (Hpos : Forall (fun f : R * TickInput => 0 <= fst f)
                   [(0.25, i); (0.05, i); (0.05, i); (0.05, i); (0.05, i);
                    (0.05, i)])
    by (repeat constructor; cbn [fst]; lra).
  destruct (jump_apex
              [(0.25, i); (0.05, i); (0.05, i); (0.05, i); (0.05, i); (0.05, i)]
              (load robotClips u0) 0 Hpos Hm Hg Hy) as [[_ Hup] _].
  split; [|exact Hup].
  pose proof (varying_frames_height (load robotClips u0) Hm Hg Hy) as Hh.
  cbv zeta in Hh. fold i in Hh. rewrite Hh. lra.
Defined.


(** ** Horizontal motion *)

Lemma normalize_lengthSq_le d : Vector3.lengthSq (Vector3.normalize d) <= 1.
Proof.
  destruct (Req_dec_T (Vector3.length d) 0) as [z|nz].
  - unfold Vector3.normalize. rewrite z, or_num_zero.
    assert (Hsq : Vector3.lengthSq d = 0).
    { unfold Vector3.length in z. apply sqrt_eq_0; [apply lengthSq_nonneg|exact z]. }
    unfold Vector3.divideScalar, Vector3.multiplyScalar, Vector3.lengthSq in *.
    simpl. nra.
  - destruct (normalize_unit d (Vector3.length d)) as (_ & H & _);
      [|reflexivity|lra].
    pose proof (sqrt_pos (Vector3.lengthSq d)) as Hp.
    unfold Vector3.length in *. lra.
Qed.

Lemma inputMag_range controls joystick : 0 <= inputMag controls joystick <= 1.
Proof.
  unfold inputMag. destruct (moveInput controls joystick) as [mx mz].
  pose proof (sqrt_pos (x2 (mkV2 mx mz) * x2 (mkV2 mx mz)
                        + y2 (mkV2 mx mz) * y2 (mkV2 mx mz))) as Hs.
  unfold Vector2.length, Rmin. destruct (Rle_dec _ _); lra.
Qed.

Lemma speed_range controls : 6 <= speed controls <= 12.
Proof. unfold speed. destruct (ControlState.run controls); lra. Qed.

Lemma velMag_le_iff u M :
  0 <= M ->
  (velMag u <= M
   <-> vx (velocity u) * vx (velocity u) + vz (velocity u) * vz (velocity u)
       <= M * M).
Proof.
  intros HM. unfold velMag, Vector2.length. simpl.
  set (q := vx (velocity u) * vx (velocity u) + vz (velocity u) * vz (velocity u)).
  assert (Hq : 0 <= q) by (unfold q; nra).
  split; intros H.
  - rewrite <- (sqrt_sqrt q Hq). pose proof (sqrt_pos q). nra.
  - rewrite <- (sqrt_square M HM). apply sqrt_le_1_alt. exact H.
Qed.

(** The horizontal velocity after [steer]: the old one blended with a
    target no longer than [speed]. *)
Lemma steer_blend controls joystick cameraTheta u :
  exists tx tz,
    tx * tx + tz * tz <= speed controls * speed controls /\
    vx (velocity (steer controls joystick cameraTheta u))
    = 0.85 * vx (velocity u) + 0.15 * tx /\
    vz (velocity (steer controls joystick cameraTheta u))
    = 0.85 * vz (velocity u) + 0.15 * tz.
Proof.
  pose proof (speed_range controls) as Hs.
  unfold steer. destruct (Rgt_dec _ _) as [go|stay].
  - set (m := moveDir controls joystick cameraTheta).
    set (im := inputMag controls joystick) in *.
    exists (vx m * im * speed controls), (vz m * im * speed controls).
    pose proof (normalize_lengthSq_le (moveDirRaw controls joystick cameraTheta))
      as Hm.
    fold (moveDir controls joystick cameraTheta) in Hm. fold m in Hm.
    unfold Vector3.lengthSq in Hm.
    pose proof (inputMag_range controls joystick) as Hi. fold im in Hi.
    split.
    + assert (H1 : vx m * vx m + vz m * vz m <= 1) by nra.
      assert (H2 : 0 <= im * im <= 1) by nra.
      assert (H3 : 0 <= vx m * vx m + vz m * vz m) by nra.
      replace (vx m * im * speed controls * (vx m * im * speed controls)
               + vz m * im * speed controls * (vz m * im * speed controls))
        with ((vx m * vx m + vz m * vz m) * (im * im)
              * (speed controls * speed controls)) by ring.
      assert (H4 : (vx m * vx m + vz m * vz m) * (im * im) <= 1) by nra.
      nra.
    + unfold MathUtils.lerp. simpl. split; lra.
  - exists 0, 0. split; [nra|]. unfold MathUtils.lerp. simpl. split; lra.
Qed.

Lemma update_horizontal delta controls joystick cameraTheta testAnimation u t :
  mixer u = Some t ->
  vx (velocity (update delta controls joystick cameraTheta testAnimation u))
  = vx (velocity (steer controls joystick cameraTheta u)) /\
  vz (velocity (update delta controls joystick cameraTheta testAnimation u))
  = vz (velocity (steer controls joystick cameraTheta u)).
Proof.
  intros Hm. rewrite (update_loaded _ _ _ _ _ _ _ Hm), stepAnimations_velocity.
  change (velocity (applyVelocity delta ?x)) with (velocity x).
  rewrite gravityJump_vx, gravityJump_vz. split; reflexivity.
Qed.

Lemma update_speed_cap delta controls joystick cameraTheta testAnimation u M :
  speed controls <= M -> velMag u <= M ->
  velMag (update delta controls joystick cameraTheta testAnimation u) <= M.
Proof.
  intros Hs Hv. pose proof (speed_range controls) as Hr.
  assert (HM : 0 <= M) by lra.
  destruct (mixer u) as [t|] eqn:Hm;
    [|rewrite update_unloaded by exact Hm; exact Hv].
  apply (velMag_le_iff _ M HM). apply (velMag_le_iff _ M HM) in Hv.
  destruct (update_horizontal delta controls joystick cameraTheta testAnimation
              u t Hm) as [Ex Ez].
  destruct (steer_blend controls joystick cameraTheta u) as (tx & tz & Ht & Bx & Bz).
  rewrite Ex, Ez, Bx, Bz.
  set (a := vx (velocity u)) in *. set (b := vz (velocity u)) in *.
  assert (Ht' : tx * tx + tz * tz <= M * M) by nra.
  assert (Hab : 2 * (a * tx + b * tz) <= 2 * (M * M)).
  { pose proof (Rle_0_sqr (a - tx)) as H1. pose proof (Rle_0_sqr (b - tz)) as H2.
    unfold Rsqr in *. nra. }
  replace ((0.85 * a + 0.15 * tx) * (0.85 * a + 0.15 * tx)
           + (0.85 * b + 0.15 * tz) * (0.85 * b + 0.15 * tz))
    with (0.7225 * (a * a + b * b) + 0.255 * (a * tx + b * tz)
          + 0.0225 * (tx * tx + tz * tz)) by lra.
  lra.
Qed.

(** X3: [update] never takes the horizontal speed above a bound that
    the old speed and the target speed (6.0, or 12.0 with [run]) both
    respect; so over any run of updates a unit that starts no faster
    than 12.0 stays no faster than 12.0. *)
Theorem horizontal_speed_cap :
  forall delta (inputs : list TickInput) u M,
    12 <= M ->
    velMag u <= M ->
    velMag (foldl (updateWith delta) u inputs) <= M /\
    (forall controls joystick cameraTheta testAnimation,
       ControlState.run controls = false ->
       velMag u <= 6 ->
       velMag (update delta controls joystick cameraTheta testAnimation u) <= 6).
Proof.
  intros delta inputs u M HM Hv. split.
  - revert u Hv. induction inputs as [|i rest IH]; intros u Hv; simpl.
    + exact Hv.
    + apply IH. unfold updateWith. apply update_speed_cap; [|exact Hv].
      pose proof (speed_range (tiControls i)). lra.
  - intros controls joystick cameraTheta testAnimation Hrun H6.
    apply update_speed_cap; [|exact H6].
    unfold speed. rewrite Hrun. lra.
Qed.

Lemma horizontal_speed_cap_witness :
  let u := load robotClips (newUnit origin) in
  let i := mkTickInput (ControlState.mk true false false true false true false)
             idleStick 0.5 None in
  12 <= 12 /\ velMag u <= 12 /\
  velMag (foldl (updateWith 0.016) u [i; i; i]) <= 12.
Proof.
  cbv zeta.
  assert (HM : 12 <= 12) by lra.
  assert (Hv : velMag (load robotClips (newUnit origin)) <= 12).
  { destruct (load_frame robotClips (newUnit origin)) as (_ & _ & E & _).
    unfold velMag, Vector2.length. rewrite E. simpl.
    rewrite (sqrt_of_square _ 0); lra. }
  split; [exact HM|]. split; [exact Hv|].
  apply (horizontal_speed_cap 0.016 _ _ 12 HM Hv).
Defined.

Lemma steer_deadzone controls joystick cameraTheta u :
  inputMag controls joystick <= 0.05 ->
  vx (velocity (steer controls joystick cameraTheta u)) = 0.85 * vx (velocity u) /\
  vz (velocity (steer controls joystick cameraTheta u)) = 0.85 * vz (velocity u) /\
  rotationY (steer controls joystick cameraTheta u) = rotationY u.
Proof.
  intros H. unfold steer. destruct (Rgt_dec _ _) as [go|_]; [lra|].
  unfold MathUtils.lerp. simpl. repeat split; lra.
Qed.

Lemma velMag_scale u u' k :
  0 <= k ->
  vx (velocity u') = k * vx (velocity u) ->
  vz (velocity u') = k * vz (velocity u) ->
  velMag u' = k * velMag u.
Proof.
  intros Hk Ex Ez. unfold velMag, Vector2.length. simpl. rewrite Ex, Ez.
  set (a := vx (velocity u)). set (b := vz (velocity u)).
  replace (k * a * (k * a) + k * b * (k * b))
    with ((k * k) * (a * a + b * b)) by ring.
  rewrite sqrt_mult_alt by nra. rewrite sqrt_square by exact Hk. reflexivity.
Qed.

Lemma pow085_after_20 n : (20 <= n)%nat -> 0.85 ^ n <= 0.85 ^ 20.
Proof.
  intros H. replace n with (20 + (n - 20))%nat by lia.
  rewrite pow_add. pose proof (pow085_bounds (n - 20)) as Hb.
  pose proof (pow085_bounds 20) as Hc. nra.
Qed.

(** X4: with the input inside the deadzone in every frame, each
    [update] of a loaded unit multiplies the horizontal velocity by 0.85
    and leaves the heading alone, so after [n] updates the horizontal
    speed is [0.85^n] times what it was; from any speed up
    to 12.0 it is below the 0.5 threshold of ['Walking'] after 20
    updates. *)
Theorem release_decay :
  forall delta (inputs : list TickInput) u t,
    mixer u = Some t ->
    Forall (fun i => inputMag (tiControls i) (tiJoystick i) <= 0.05) inputs ->
    let n := length inputs in
    let u' := foldl (updateWith delta) u inputs in
    vx (velocity u') = 0.85 ^ n * vx (velocity u) /\
    vz (velocity u') = 0.85 ^ n * vz (velocity u) /\
    rotationY u' = rotationY u /\
    velMag u' = 0.85 ^ n * velMag u /\
    ((20 <= n)%nat -> velMag u <= 12 -> velMag u' < 0.5).
Proof.
  intros delta inputs u t Hm Hall. cbv zeta.
  assert (Hcore :
    vx (velocity (foldl (updateWith delta) u inputs))
    = 0.85 ^ length inputs * vx (velocity u) /\
    vz (velocity (foldl (updateWith delta) u inputs))
    = 0.85 ^ length inputs * vz (velocity u) /\
    rotationY (foldl (updateWith delta) u inputs) = rotationY u).
  { revert u t Hm. induction Hall as [|i rest Hi Hrest IH]; intros u t Hm.
    - simpl. repeat split; lra.
    - cbn [foldl length]. unfold updateWith at 2 4 6.
      set (u1 := update delta (tiControls i) (tiJoystick i) (tiCameraTheta i)
                   (tiTestAnimation i) u).
      destruct (IH u1 (t + delta)) as (Ex & Ez & Er);
        [apply update_mixer; exact Hm|].
      destruct (update_horizontal delta (tiControls i) (tiJoystick i)
                  (tiCameraTheta i) (tiTestAnimation i) u t Hm) as [Ux Uz].
      destruct (steer_deadzone (tiControls i) (tiJoystick i)
                  (tiCameraTheta i) u Hi) as (Sx & Sz & _).
      pose proof (update_rotationY delta (tiControls i) (tiJoystick i)
                    (tiCameraTheta i) (tiTestAnimation i) u) as Ur.
      rewrite Hm in Ur.
      destruct (Rgt_dec _ _) as [go|_] in Ur; [lra|].
      fold u1 in Ux, Uz, Ur.
      rewrite Ex, Ez, Er, Ux, Uz, Ur, Sx, Sz. simpl pow.
      repeat split; lra. }
  destruct Hcore as (Ex & Ez & Er).
  pose proof (pow085_bounds (length inputs)) as Hb.
  assert (Emag : velMag (foldl (updateWith delta) u inputs)
                 = 0.85 ^ length inputs * velMag u).
  { apply velMag_scale; [lra | exact Ex | exact Ez]. }
  split; [exact Ex|]. split; [exact Ez|]. split; [exact Er|].
  split; [exact Emag|].
  intros H20 H12. rewrite Emag.
  pose proof (pow085_after_20 _ H20) as Hp.
  assert (H0 : 0 <= velMag u) by (unfold velMag, Vector2.length; apply sqrt_pos).
  assert (Hc : 0.85 ^ 20 * 12 < 0.5) by lra.
  nra.
Qed.

Lemma release_decay_witness :
  let u := setVelocity (mkV3 3 0 (-4)) (load robotClips (newUnit origin)) in
  let i := mkTickInput jumpKey idleStick 0 None in
  mixer u = Some 0 /\
  vx (velocity (foldl (updateWith 0.016) u [i; i])) = 0.85 ^ 2 * 3.
Proof.
  cbv zeta.
  set (u := setVelocity (mkV3 3 0 (-4)) (load robotClips (newUnit origin))).
  assert (Hm : mixer u = Some 0) by (unfold u; simpl; apply load_mixer).
  assert (Hdead : inputMag jumpKey idleStick <= 0.05).
  { unfold inputMag, moveInput, Vector2.length. simpl.
    rewrite (sqrt_of_square _ 0) by lra.
    unfold Rmin. destruct (Rle_dec 0 1.0); lra. }
  split; [exact Hm|].
  assert (Hall : Forall (fun i => inputMag (tiControls i) (tiJoystick i) <= 0.05)
                   [mkTickInput jumpKey idleStick 0 None;
                    mkTickInput jumpKey idleStick 0 None]).
  { constructor; [exact Hdead|]. constructor; [exact Hdead|]. constructor. }
  destruct (release_decay 0.016 _ u 0 Hm Hall) as (Ex & _).
  exact Ex.
Defined.

(** ** Animation selection *)

Lemma stepAnimations_currentAction delta testAnimation u :
  currentAction (stepAnimations delta testAnimation u) = currentAction u \/
  currentAction (stepAnimations delta testAnimation u) ∈ actions u.
Proof.
  unfold stepAnimations. cbv zeta.
  set (u' := setMixer _ u).
  change (actions u') with (actions u).
  change (currentAction u') with (currentAction u).
  set (a := JsMath.or_str testAnimation (nextAnimation u')).
  destruct (negb (String.eqb (currentAction u) a)) eqn:Hne; simpl;
    [|left; reflexivity].
  destruct (bool_decide (a ∈ actions u)) eqn:Hin; simpl; [|left; reflexivity].
  right. apply bool_decide_eq_true_1 in Hin. exact Hin.
Qed.

Lemma update_currentAction delta controls joystick cameraTheta testAnimation u :
  currentAction (update delta controls joystick cameraTheta testAnimation u)
  = currentAction u \/
  currentAction (update delta controls joystick cameraTheta testAnimation u)
  ∈ actions u.
Proof.
  unfold update. destruct (mixer u); [|left; reflexivity].
  set (s3 := applyVelocity delta
               (gravityJump delta controls
                  (steer controls joystick cameraTheta u))).
  assert (Ha : actions s3 = actions u).
  { unfold s3. change (actions (applyVelocity delta ?x)) with (actions x).
    destruct (gravityJump_static delta controls
                (steer controls joystick cameraTheta u)) as (_ & E & _).
    rewrite E. apply steer_static. }
  assert (Hc : currentAction s3 = currentAction u).
  { unfold s3.
    change (currentAction (applyVelocity delta ?x)) with (currentAction x).
    destruct (gravityJump_static delta controls
                (steer controls joystick cameraTheta u)) as (_ & _ & E & _).
    rewrite E. apply steer_static. }
  destruct (stepAnimations_currentAction delta testAnimation s3) as [E|E].
  - left. rewrite E. exact Hc.
  - right. rewrite <- Ha. exact E.
Qed.

Lemma tick_animation_frame delta controls joystick cameraTheta testAnimation
    obstacles u :
  actions (tick delta controls joystick cameraTheta testAnimation obstacles u)
  = actions u /\
  currentAction (tick delta controls joystick cameraTheta testAnimation obstacles u)
  = currentAction (update delta controls joystick cameraTheta testAnimation u).
Proof.
  unfold tick, checkCollisions.
  set (u1 := update delta controls joystick cameraTheta testAnimation u).
  destruct (obstacles_frame obstacles (collideFloor u1))
    as (_ & _ & _ & _ & _ & Ea & Ec).
  destruct (collideFloor_frame u1) as (_ & _ & _ & _ & Fa & Fc).
  rewrite Ea, Ec, Fa, Fc. split; [apply update_actions | reflexivity].
Qed.

(** X5: over any run of ticks the table of actions stays as it is, and
    the current action is either the one the run started with or a name
    that is in the table: neither the motion state nor an override ever
    makes a missing clip current. *)
Theorem current_action_in_table :
  forall delta obstacles (inputs : list TickInput) u,
    let u' := runTicks delta obstacles inputs u in
    actions u' = actions u /\
    (currentAction u' = currentAction u \/ currentAction u' ∈ actions u).
Proof.
  intros delta obstacles inputs. unfold runTicks.
  induction inputs as [|i rest IH] using rev_ind; intros u; cbv zeta.
  - simpl. split; [reflexivity | left; reflexivity].
  - rewrite foldl_snoc. destruct (IH u) as [Ea Ec]. cbv zeta in Ea, Ec.
    set (un := foldl (tickWith delta obstacles) u rest) in *.
    unfold tickWith at 1 2 3.
    destruct (tick_animation_frame delta (tiControls i) (tiJoystick i)
                (tiCameraTheta i) (tiTestAnimation i) obstacles un) as [Ta Tc].
    rewrite Ta, Tc, Ea. split; [reflexivity|].
    destruct (update_currentAction delta (tiControls i) (tiJoystick i)
                (tiCameraTheta i) (tiTestAnimation i) un) as [E|E].
    + rewrite E. exact Ec.
    + right. rewrite <- Ea. exact E.
Qed.

Lemma stepAnimations_decides delta testAnimation u :
  currentAction (stepAnimations delta testAnimation u)
  = if bool_decide (JsMath.or_str testAnimation (nextAnimation u) ∈ actions u)
    then JsMath.or_str testAnimation (nextAnimation u)
    else currentAction u.
Proof.
  unfold stepAnimations. cbv zeta.
  set (u' := setMixer _ u).
  change (actions u') with (actions u).
  change (currentAction u') with (currentAction u).
  change (nextAnimation u') with (nextAnimation u).
  set (a := JsMath.or_str testAnimation (nextAnimation u)).
  destruct (String.eqb (currentAction u) a) eqn:E; simpl.
  - apply String.eqb_eq in E. rewrite E.
    destruct (bool_decide (a ∈ actions u)); reflexivity.
  - destruct (bool_decide (a ∈ actions u)); reflexivity.
Qed.

(** X6: on a loaded unit a non-empty override naming a clip of the
    table becomes the current action in one [update], whatever the
    motion state; a non-empty override naming no clip of the table keeps
    the current action as it is, whatever the motion state; the empty
    override is no override. *)
Theorem override_applies :
  forall delta controls joystick cameraTheta name u t,
    mixer u = Some t ->
    name <> EmptyString ->
    (name ∈ actions u ->
       currentAction (update delta controls joystick cameraTheta (Some name) u)
       = name) /\
    (name ∉ actions u ->
       currentAction (update delta controls joystick cameraTheta (Some name) u)
       = currentAction u) /\
    update delta controls joystick cameraTheta (Some EmptyString) u
    = update delta controls joystick cameraTheta None u.
Proof.
  intros delta controls joystick cameraTheta name u t Hm Hne.
  rewrite !(update_loaded _ _ _ _ _ _ _ Hm).
  set (s3 := applyVelocity delta
               (gravityJump delta controls
                  (steer controls joystick cameraTheta u))).
  assert (Ha : actions s3 = actions u).
  { unfold s3. change (actions (applyVelocity delta ?x)) with (actions x).
    destruct (gravityJump_static delta controls
                (steer controls joystick cameraTheta u)) as (_ & E & _).
    rewrite E. apply steer_static. }
  assert (Hc : currentAction s3 = currentAction u).
  { unfold s3.
    change (currentAction (applyVelocity delta ?x)) with (currentAction x).
    destruct (gravityJump_static delta controls
                (steer controls joystick cameraTheta u)) as (_ & _ & E & _).
    rewrite E. apply steer_static. }
  assert (Hor : forall next, JsMath.or_str (Some name) next = name).
  { intros next. simpl. destruct (String.eqb name EmptyString) eqn:E;
      [|reflexivity].
    apply String.eqb_eq in E. contradiction. }
  rewrite stepAnimations_decides, Hor, Ha, Hc.
  split; [|split].
  - intros Hin. rewrite (bool_decide_eq_true_2 _ Hin). reflexivity.
  - intros Hout. rewrite (bool_decide_eq_false_2 _ Hout). reflexivity.
  - reflexivity.
Qed.

Lemma override_applies_witness :
  let u := load robotClips (newUnit origin) in
  mixer u = Some 0 /\ Running <> EmptyString /\ Running ∈ actions u /\
  currentAction (update 0.016 noKeys idleStick 0 (Some Running) u) = Running.
Proof.
  cbv zeta.
  destruct (load_frame robotClips (newUnit origin)) as (Hm & _ & _ & _ & Hact).
  assert (Hne : Running <> EmptyString) by discriminate.
  assert (Hin : Running ∈ actions (load robotClips (newUnit origin))).
  { rewrite Hact. unfold robotClips. simpl. clear. set_solver. }
  split; [exact Hm|]. split; [exact Hne|]. split; [exact Hin|].
  destruct (override_applies 0.016 noKeys idleStick 0 Running
              (load robotClips (newUnit origin)) 0 Hm Hne) as (H1 & _).
  exact (H1 Hin).
Defined.

(** * Further properties of collision resolution *)

Lemma clamp_le_value value lo hi :
  lo <= value -> MathUtils.clamp value lo hi <= value.
Proof.
  intros H. unfold MathUtils.clamp, Rmax, Rmin.
  destruct (Rle_dec hi value); destruct (Rle_dec lo _); lra.
Qed.

Lemma or_num_positive a : 0 <= a -> 0 < JsMath.or_num a 1.
Proof.
  intros H. unfold JsMath.or_num. destruct (Req_dec_T a 0); lra.
Qed.

Lemma penetration_some box u c d :
  penetration box u = Some (c, d) ->
  c = Box3.clampPoint box (position u) /\
  d = Vector3.distanceTo (position u) c /\
  0 <= d < radius.
Proof.
  unfold penetration. intros H.
  destruct (Box3.intersectsSphere _ _); [|discriminate].
  destruct (Rlt_dec _ _) as [lt|]; [|discriminate].
  injection H as Hc Hd. subst c d.
  split; [reflexivity|]. split; [reflexivity|].
  split; [apply distanceTo_nonneg | exact lt].
Qed.

Lemma collideFloor_nonneg u : 0 <= vy (position (collideFloor u)).
Proof.
  destruct (Rle_dec (vy (position u)) 0) as [le|nle].
  - destruct (collideFloor_on_floor u le) as (E & _). rewrite E. simpl. lra.
  - destruct (collideFloor_above_floor u nle) as (E & _). rewrite E. lra.
Qed.

Lemma collideObstacle_keeps_above u box :
  vy (bmin box) <= 0 -> 0 <= vy (position u) ->
  0 <= vy (position (collideObstacle u box)).
Proof.
  intros Hbox Hy. unfold collideObstacle.
  destruct (penetration box u) as [[c d]|] eqn:Hp; [|exact Hy].
  destruct (penetration_some box u c d Hp) as (Hc & Hd & Hr).
  cbv zeta.
  cbn [position velocity setPosition setVelocity].
  unfold Vector3.add, Vector3.multiplyScalar, Vector3.normalize,
    Vector3.divideScalar, normalRaw, Vector3.sub.
  cbn [vx vy vz].
  set (len := JsMath.or_num _ 1).
  assert (Hlen : 0 < len).
  { unfold len. apply or_num_positive. unfold Vector3.length. apply sqrt_pos. }
  assert (Hcy : vy c <= vy (position u)).
  { rewrite Hc. unfold Box3.clampPoint, Vector3.clamp. cbn [vy].
    apply clamp_le_value. lra. }
  assert (Hinv : 0 < 1 / len) by (apply Rdiv_lt_0_compat; lra).
  assert (H1 : 0 <= (vy (position u) - vy c) * (1 / len)) by nra.
  assert (H2 : 0 <= radius - d) by lra.
  unfold Vector3.multiplyScalar. cbn [vy]. nra.
Qed.

(** X7: when no obstacle floats (every box has its bottom face at or
    below the floor), [checkCollisions] never leaves the unit below the
    floor, from any state; so after every tick [position.y >= 0]. *)
Theorem never_below_floor :
  forall obstacles u,
    Forall (fun box => vy (bmin box) <= 0) obstacles ->
    0 <= vy (position (checkCollisions obstacles u)) /\
    (forall delta controls joystick cameraTheta testAnimation,
       0 <= vy (position (tick delta controls joystick cameraTheta
                            testAnimation obstacles u))).
Proof.
  intros obstacles u Hall.
  assert (Hcc : forall v, 0 <= vy (position (checkCollisions obstacles v))).
  { intros v. unfold checkCollisions.
    pose proof (collideFloor_nonneg v) as H0.
    revert H0. generalize (collideFloor v). clear v.
    induction Hall as [|box rest Hbox Hrest IH]; intros v Hv; simpl.
    - exact Hv.
    - apply IH. apply collideObstacle_keeps_above; assumption. }
  split; [apply Hcc|]. intros. unfold tick. apply Hcc.
Qed.

Lemma never_below_floor_witness :
  let u := newUnit (mkV3 5 (-2) (-18.7)) in
  Forall (fun box => vy (bmin box) <= 0) sceneObstacles /\
  0 <= vy (position (checkCollisions sceneObstacles u)).
Proof.
  cbv zeta.
  assert (H : Forall (fun box => vy (bmin box) <= 0) sceneObstacles).
  { unfold sceneObstacles.
    constructor; [|constructor; [|constructor; [|constructor]]]; simpl; lra. }
  split; [exact H|].
  apply (never_below_floor sceneObstacles (newUnit (mkV3 5 (-2) (-18.7))) H).
Defined.

(** Moving a coordinate away from its clamped value keeps the clamped
    value. *)
Lemma clamp_along value lo hi k :
  lo <= hi -> 0 <= k ->
  MathUtils.clamp (value + (value - MathUtils.clamp value lo hi) * k) lo hi
  = MathUtils.clamp value lo hi.
Proof.
  intros Hbox Hk.
  destruct (Rle_dec value lo) as [below|notbelow].
  - rewrite (clamp_below value lo hi Hbox below).
    apply clamp_below; [exact Hbox|]. nra.
  - destruct (Rle_dec hi value) as [above|notabove].
    + rewrite (clamp_above value lo hi Hbox above).
      apply clamp_above; [exact Hbox|]. nra.
    + rewrite (clamp_within value lo hi) by lra.
      replace (value + (value - value) * k) with value by ring.
      apply clamp_within. lra.
Qed.

Lemma distanceTo_zero a b : Vector3.distanceTo a b = 0 -> b = a.
Proof.
  intros H. unfold Vector3.distanceTo in H.
  apply sqrt_eq_0 in H; [|apply distanceToSquared_nonneg].
  unfold Vector3.distanceToSquared in H. cbv zeta in H.
  pose proof (Rle_0_sqr (vx a - vx b)) as Hx.
  pose proof (Rle_0_sqr (vy a - vy b)) as Hy.
  pose proof (Rle_0_sqr (vz a - vz b)) as Hz.
  unfold Rsqr in *. apply vector3_eq; nra.
Qed.

(** After a push the unit is at distance [radius] from the box. *)
Lemma collideObstacle_lands_on_radius u box dist :
  boxOrdered box -> 0 < dist < radius ->
  Vector3.distanceTo (position u) (Box3.clampPoint box (position u)) = dist ->
  Vector3.distanceTo (position (collideObstacle u box))
    (Box3.clampPoint box (position (collideObstacle u box))) = radius.
Proof.
  intros (Hx & Hy & Hz) Hd Hdist.
  destruct (collideObstacle_push u box dist Hd Hdist) as (_ & Hpos & _).
  cbv zeta in Hpos.
  destruct (normalize_unit
              (Vector3.sub (position u) (Box3.clampPoint box (position u))) dist)
    as (Hn & _); [lra | rewrite length_sub; exact Hdist |].
  rewrite Hn in Hpos.
  pose proof (distanceTo_square (position u)
                (Box3.clampPoint box (position u))) as Hsq.
  rewrite Hdist in Hsq.
  set (k := 1 / dist * (radius - dist)).
  assert (Hk : 0 <= k).
  { unfold k. apply Rmult_le_pos; [|lra].
    apply Rlt_le. apply Rdiv_lt_0_compat; lra. }
  assert (Hk1 : (1 + k) * dist = radius) by (unfold k; field; lra).
  set (p := position u) in *. set (c := Box3.clampPoint box p) in *.
  assert (Hp' : position (collideObstacle u box)
                = mkV3 (vx p + (vx p - vx c) * k)
                       (vy p + (vy p - vy c) * k)
                       (vz p + (vz p - vz c) * k)).
  { rewrite Hpos. apply vector3_eq; simpl; unfold k; ring. }
  rewrite Hp'.
  assert (Hc' : Box3.clampPoint box
                  (mkV3 (vx p + (vx p - vx c) * k)
                        (vy p + (vy p - vy c) * k)
                        (vz p + (vz p - vz c) * k)) = c).
  { unfold c, Box3.clampPoint, Vector3.clamp. cbn [vx vy vz].
    apply vector3_eq; cbn [vx vy vz]; apply clamp_along; assumption. }
  rewrite Hc'.
  unfold Vector3.distanceTo, Vector3.distanceToSquared. cbv zeta. cbn [vx vy vz].
  unfold Vector3.distanceToSquared in Hsq. cbv zeta in Hsq.
  apply sqrt_of_square; [unfold radius; lra|].
  rewrite <- Hk1.
  replace ((1 + k) * dist * ((1 + k) * dist))
    with ((1 + k) * (1 + k) * (dist * dist)) by ring.
  rewrite Hsq. ring.
Qed.

(** One pass over a single ordered box leaves a state that a second
    pass does not change. *)
Lemma collideObstacle_twice u box :
  boxOrdered box ->
  collideObstacle (collideObstacle u box) box = collideObstacle u box.
Proof.
  intros Hbox.
  destruct (penetration box u) as [[c d]|] eqn:Hp.
  - destruct (penetration_some box u c d Hp) as (Hc & Hd & Hr).
    destruct (Req_dec_T d 0) as [z|nz].
    + assert (Hin : Box3.clampPoint box (position u) = position u).
      { rewrite <- Hc. apply distanceTo_zero. rewrite <- Hd. exact z. }
      destruct (collideObstacle_inside u box Hin) as (_ & _ & E).
      rewrite E. exact E.
    + apply collideObstacle_clear.
      rewrite (collideObstacle_lands_on_radius u box d Hbox);
        [lra | lra | rewrite <- Hc; symmetry; exact Hd].
  - assert (E : collideObstacle u box = u)
      by (unfold collideObstacle; rewrite Hp; reflexivity).
    rewrite E. exact E.
Qed.

Lemma collideObstacle_reads u u' box :
  position u = position u' -> velocity u = velocity u' ->
  position (collideObstacle u box) = position (collideObstacle u' box) /\
  velocity (collideObstacle u box) = velocity (collideObstacle u' box).
Proof.
  intros Hp Hv. unfold collideObstacle, penetration, normalRaw.
  rewrite Hp.
  destruct (Box3.intersectsSphere _ _); [|split; assumption].
  destruct (Rlt_dec _ _); [|split; assumption].
  cbv zeta. cbn [position velocity setPosition setVelocity].
  rewrite Hv. split; reflexivity.
Qed.

(** X8: what one [checkCollisions] call does with a single obstacle
    that is an ordered box resting on the floor, from any state.  When
    the position, after the floor rule, is outside the box, the call
    leaves the unit resolved: on or above the floor and no closer to
    the box than [radius].  When it is in the box or on a face, the
    call leaves it there with its velocity, still penetrating at
    distance 0.  In both cases a second call right after it changes
    neither position nor velocity. *)
Theorem single_obstacle_one_call :
  forall box u,
    restsOnFloor box ->
    let p0 := position (collideFloor u) in
    let u1 := checkCollisions [box] u in
    (Box3.clampPoint box p0 <> p0 -> resolved [box] u1) /\
    (Box3.clampPoint box p0 = p0 ->
       position u1 = p0 /\ velocity u1 = velocity u /\
       Vector3.distanceTo (position u1) (Box3.clampPoint box (position u1)) = 0 /\
       ~ resolved [box] u1) /\
    position (checkCollisions [box] u1) = position u1 /\
    velocity (checkCollisions [box] u1) = velocity u1.
Proof.
  intros box u [Hbox Hfloor]. cbv zeta. unfold checkCollisions. simpl foldl.
  set (f := collideFloor u).
  set (u2 := collideObstacle f box).
  assert (Hy2 : 0 <= vy (position u2)).
  { unfold u2. apply collideObstacle_keeps_above;
      [exact Hfloor | apply collideFloor_nonneg]. }
  split; [|split].
  - intros Hout. split; [exact Hy2|]. constructor; [|constructor].
    destruct (Rlt_dec (Vector3.distanceTo (position f)
                         (Box3.clampPoint box (position f))) radius)
      as [near|far].
    + pose proof (distanceTo_nonneg (position f)
                    (Box3.clampPoint box (position f))) as Hd.
      assert (Hnz : Vector3.distanceTo (position f)
                      (Box3.clampPoint box (position f)) <> 0).
      { intros z. apply Hout. apply distanceTo_zero. exact z. }
      assert (Hpos : 0 < Vector3.distanceTo (position f)
                           (Box3.clampPoint box (position f))).
      { destruct Hd as [l|e]; [exact l|].
        exfalso. apply Hnz. symmetry. exact e. }
      unfold u2.
      rewrite (collideObstacle_lands_on_radius f box _ Hbox
                 (conj Hpos near) eq_refl).
      lra.
    + unfold u2. rewrite (collideObstacle_clear f box far). exact far.
  - intros Hin.
    destruct (collideObstacle_inside f box Hin) as (_ & _ & E).
    unfold u2. rewrite E.
    assert (Hd0 : Vector3.distanceTo (position f)
                    (Box3.clampPoint box (position f)) = 0).
    { rewrite Hin. unfold Vector3.distanceTo.
      replace (Vector3.distanceToSquared (position f) (position f)) with 0
        by (unfold Vector3.distanceToSquared; cbv zeta; ring).
      apply sqrt_0. }
    split; [reflexivity|]. split; [apply collideFloor_velocity|].
    split; [exact Hd0|].
    intros [_ Hall]. inversion Hall as [|? ? Hfar _]; subst.
    apply Hfar. rewrite Hd0. unfold radius. lra.
  - destruct (collideObstacle_reads (collideFloor u2) u2 box
                (collideFloor_position u2 Hy2) (collideFloor_velocity u2))
      as [Ep Ev].
    rewrite Ep, Ev. unfold u2.
    rewrite (collideObstacle_twice f box Hbox).
    split; reflexivity.
Qed.

(** A unit that comes in below the floor, 0.2 in front of the long
    face of the third scene obstacle: the floor rule puts it at height
    0, outside the box, and the call resolves it. *)
Lemma single_obstacle_one_call_witness :
  let box := mkBox3 (mkV3 0 0 (-21)) (mkV3 10 2 (-19)) in
  let u := newUnit (mkV3 5 (-0.4) (-18.8)) in
  restsOnFloor box /\
  resolved [box] (checkCollisions [box] u).
Proof.
  cbv zeta.
  assert (H : restsOnFloor (mkBox3 (mkV3 0 0 (-21)) (mkV3 10 2 (-19)))).
  { unfold restsOnFloor, boxOrdered. simpl. lra. }
  split; [exact H|].
  apply (single_obstacle_one_call _ (newUnit (mkV3 5 (-0.4) (-18.8))) H).
  assert (Hp : position (collideFloor (newUnit (mkV3 5 (-0.4) (-18.8))))
               = mkV3 5 0 (-18.8)).
  { apply collideFloor_below. simpl. lra. }
  rewrite Hp. unfold Box3.clampPoint, Vector3.clamp. cbn [vx vy vz bmin bmax].
  intros E. pose proof (f_equal vz E) as Ez. cbn [vz] in Ez.
  rewrite (clamp_above (-18.8) (-21) (-19)) in Ez by lra. lra.
Defined.

(** X9: after [checkCollisions] the unit is grounded exactly when it
    entered the call at or below the floor: obstacles never ground it.
    A loaded unit that entered above the floor, for one standing on top
    of an obstacle, gets gravity in the next [update] and no jump
    impulse, whether [jump] is set or not. *)
Theorem grounded_only_on_floor :
  forall obstacles u,
    (isGrounded (checkCollisions obstacles u) = true
     <-> vy (position u) <= 0) /\
    (forall delta controls joystick cameraTheta testAnimation t,
       ~ vy (position u) <= 0 ->
       mixer u = Some t ->
       vy (velocity (update delta controls joystick cameraTheta testAnimation
                       (checkCollisions obstacles u)))
       = vy (velocity (checkCollisions obstacles u)) - 32.0 * delta).
Proof.
  intros obstacles u.
  destruct (obstacles_frame obstacles (collideFloor u))
    as (Hg & _ & _ & _ & Hm & _).
  fold (checkCollisions obstacles u) in Hg, Hm.
  split.
  - rewrite Hg. split.
    + intros Ht. destruct (Rle_dec (vy (position u)) 0) as [le|nle];
        [exact le|].
      destruct (collideFloor_above_floor u nle) as (_ & E & _).
      rewrite E in Ht. discriminate.
    + intros le. apply collideFloor_on_floor. exact le.
  - intros delta controls joystick cameraTheta testAnimation t Hy Hload.
    destruct (collideFloor_above_floor u Hy) as (_ & E & _).
    destruct (collideFloor_frame u) as (_ & _ & _ & Fm & _).
    apply (update_airborne delta controls joystick cameraTheta testAnimation
             (checkCollisions obstacles u) t).
    + rewrite Hm, Fm. exact Hload.
    + rewrite Hg. exact E.
Qed.

Lemma grounded_only_on_floor_witness :
  let u := load robotClips (newUnit (mkV3 5 2.5 (-20))) in
  ~ vy (position u) <= 0 /\ mixer u = Some 0 /\
  vy (velocity (update 0.016 jumpKey idleStick 0 None
                  (checkCollisions sceneObstacles u)))
  = vy (velocity (checkCollisions sceneObstacles u)) - 32.0 * 0.016.
Proof.
  cbv zeta.
  destruct (load_frame robotClips (newUnit (mkV3 5 2.5 (-20))))
    as (Hm & Hp & _).
  assert (Hy : ~ vy (position (load robotClips (newUnit (mkV3 5 2.5 (-20))))) <= 0)
    by (rewrite Hp; simpl; lra).
  split; [exact Hy|]. split; [exact Hm|].
  destruct (grounded_only_on_floor sceneObstacles
              (load robotClips (newUnit (mkV3 5 2.5 (-20))))) as [_ H].
  exact (H 0.016 jumpKey idleStick 0 None 0 Hy Hm).
Defined.

(** * Further properties of the heading *)

Lemma sqrt_one_plus_sqr x y :
  0 < x -> sqrt (1 + (y / x)²) = sqrt (x * x + y * y) / x.
Proof.
  intros Hx. unfold Rsqr.
  replace (1 + y / x * (y / x)) with ((x * x + y * y) / (x * x)) by (field; lra).
  rewrite sqrt_div_alt by nra. rewrite sqrt_square by lra. reflexivity.
Qed.

(** [Math.atan2(y, x)] is the angle of the point [(x, y)]. *)
Lemma atan2_cos_sin y x :
  x * x + y * y <> 0 ->
  cos (JsMath.atan2 y x) = x / sqrt (x * x + y * y) /\
  sin (JsMath.atan2 y x) = y / sqrt (x * x + y * y).
Proof.
  intros Hnz.
  assert (Hpos : 0 < x * x + y * y) by nra.
  pose proof (sqrt_lt_R0 _ Hpos) as Hr.
  set (r := sqrt (x * x + y * y)) in *.
  unfold JsMath.atan2.
  destruct (Rlt_dec 0 x) as [xpos|xnpos].
  - rewrite cos_atan, sin_atan, (sqrt_one_plus_sqr x y xpos). fold r.
    split; field; lra.
  - destruct (Rlt_dec x 0) as [xneg|xnneg].
    + assert (Hs : sqrt (1 + (y / x)²) = r / - x).
      { replace ((y / x)²) with ((y / - x)²) by (unfold Rsqr; field; lra).
        rewrite (sqrt_one_plus_sqr (- x) y) by lra.
        replace (- x * - x + y * y) with (x * x + y * y) by ring.
        reflexivity. }
      destruct (Rle_dec 0 y).
      * rewrite neg_cos, neg_sin, cos_atan, sin_atan, Hs.
        split; field; lra.
      * unfold Rminus. rewrite cos_plus, sin_plus, cos_neg, sin_neg, cos_PI, sin_PI.
        rewrite cos_atan, sin_atan, Hs. split; field; lra.
    + assert (Hx0 : x = 0) by lra. subst x.
      assert (Hry : r * r = y * y).
      { unfold r. rewrite sqrt_sqrt by lra. ring. }
      destruct (Rlt_dec 0 y) as [ypos|ynpos].
      * rewrite cos_PI2, sin_PI2. assert (E : r = y) by nra.
        clearbody r. subst r. split; field; lra.
      * destruct (Rlt_dec y 0) as [yneg|ynneg].
        -- rewrite cos_neg, sin_neg, cos_PI2, sin_PI2.
           assert (E : r = - y) by nra.
           clearbody r. subst r. split; field; lra.
        -- exfalso. assert (y = 0) by lra. subst y. lra.
Qed.

Lemma atan2_range y x : - PI < JsMath.atan2 y x <= PI.
Proof.
  pose proof PI_RGT_0 as Hpi. pose proof (atan_bound (y / x)) as Hb.
  unfold JsMath.atan2.
  destruct (Rlt_dec 0 x); [lra|].
  destruct (Rlt_dec x 0) as [xneg|].
  - destruct (Rle_dec 0 y) as [ynn|yneg].
    + assert (Hq : y / x <= 0).
      { unfold Rdiv. assert (/ x < 0) by (apply Rinv_lt_0_compat; exact xneg).
        nra. }
      assert (Ha : atan (y / x) <= 0).
      { rewrite <- atan_0. destruct Hq as [lt|eq].
        - left. apply atan_increasing. exact lt.
        - right. rewrite eq. reflexivity. }
      lra.
    + assert (Hq : 0 < y / x).
      { unfold Rdiv. assert (/ x < 0) by (apply Rinv_lt_0_compat; exact xneg).
        nra. }
      assert (Ha : 0 < atan (y / x)).
      { rewrite <- atan_0. apply atan_increasing. exact Hq. }
      lra.
  - destruct (Rlt_dec 0 y); [lra|]. destruct (Rlt_dec y 0); lra.
Qed.

Lemma moveDir_unit controls joystick cameraTheta :
  inputMag controls joystick > 0.05 ->
  vx (moveDir controls joystick cameraTheta)
  * vx (moveDir controls joystick cameraTheta)
  + vz (moveDir controls joystick cameraTheta)
    * vz (moveDir controls joystick cameraTheta) = 1.
Proof.
  intros Hmag.
  pose proof (inputMag_deadzone controls joystick Hmag) as Hpos.
  rewrite <- (moveDirRaw_lengthSq controls joystick cameraTheta) in Hpos.
  pose proof (sqrt_lt_R0 _ Hpos) as Hlen.
  destruct (normalize_unit (moveDirRaw controls joystick cameraTheta)
              (Vector3.length (moveDirRaw controls joystick cameraTheta)))
    as (Hn & Hsq & _); [exact Hlen | reflexivity |].
  fold (moveDir controls joystick cameraTheta) in Hn, Hsq.
  assert (Hy : vy (moveDir controls joystick cameraTheta) = 0).
  { rewrite Hn. unfold moveDirRaw.
    destruct (moveInput controls joystick) as [mx mz].
    unfold Vector3.multiplyScalar, Vector3.addScaledVector, Vector3.zero.
    simpl. ring. }
  unfold Vector3.lengthSq in Hsq. rewrite Hy in Hsq. lra.
Qed.

(** X10: when the input passes the deadzone, the target yaw that
    [update] steers to is the angle of the move direction in the ground
    plane: its sine is [moveDir.x] and its cosine [moveDir.z], and it is
    in [(-PI, PI]]. *)
Theorem target_yaw_faces_move_direction :
  forall controls joystick cameraTheta,
    inputMag controls joystick > 0.05 ->
    sin (targetRot controls joystick cameraTheta)
    = vx (moveDir controls joystick cameraTheta) /\
    cos (targetRot controls joystick cameraTheta)
    = vz (moveDir controls joystick cameraTheta) /\
    - PI < targetRot controls joystick cameraTheta <= PI.
Proof.
  intros controls joystick cameraTheta Hmag.
  pose proof (moveDir_unit controls joystick cameraTheta Hmag) as Hu.
  unfold targetRot.
  set (m := moveDir controls joystick cameraTheta) in *.
  assert (Hu' : vz m * vz m + vx m * vx m = 1) by lra.
  destruct (atan2_cos_sin (vx m) (vz m)) as [Hc Hs]; [lra|].
  rewrite Hu', sqrt_1 in Hc, Hs.
  split; [rewrite Hs; field|]. split; [rewrite Hc; field|].
  apply atan2_range.
Qed.

Lemma target_yaw_faces_move_direction_witness :
  inputMag forwardKey idleStick > 0.05 /\
  sin (targetRot forwardKey idleStick 0) = vx (moveDir forwardKey idleStick 0).
Proof.
  assert (H : inputMag forwardKey idleStick > 0.05)
    by (rewrite inputMag_forward; lra).
  split; [exact H|].
  apply (target_yaw_faces_move_direction forwardKey idleStick 0 H).
Defined.

(** A value strictly inside [(-PI, PI)] is the wrap of every angle that
    differs from it by whole turns. *)
Lemma wrapAngle_unique x (k : Z) :
  - PI < x < PI -> wrapAngle (x + PI * 2 * IZR k) = x.
Proof.
  intros Hx. pose proof PI_RGT_0 as Hpi.
  destruct (wrapAngle_range (x + PI * 2 * IZR k)) as [Hr _].
  destruct (wrapAngle_turns (x + PI * 2 * IZR k)) as [j Hj].
  set (w := wrapAngle (x + PI * 2 * IZR k)) in *.
  assert (Hw : w = x + PI * 2 * IZR (k + j)) by (rewrite plus_IZR; lra).
  assert (Hz : (k + j = 0)%Z).
  { assert (Hlt : -1 < IZR (k + j) < 1) by (split; nra).
    apply one_IZR_lt1. exact Hlt. }
  rewrite Hz in Hw. lra.
Qed.

(** X11: while the input passes the deadzone, each [update] of a loaded
    unit turns it 15% of the way: the wrapped difference between the
    target yaw and the heading after the call is 0.85 times the wrapped
    difference before it, so the heading closes in on the target without
    overshooting. *)
Theorem heading_error_contracts :
  forall delta controls joystick cameraTheta testAnimation u t,
    mixer u = Some t ->
    inputMag controls joystick > 0.05 ->
    let target := targetRot controls joystick cameraTheta in
    let u' := update delta controls joystick cameraTheta testAnimation u in
    wrapAngle (target - rotationY u')
    = 0.85 * wrapAngle (target - rotationY u).
Proof.
  intros delta controls joystick cameraTheta testAnimation u t Hm Hmag.
  cbv zeta. pose proof PI_RGT_0 as Hpi.
  pose proof (update_rotationY delta controls joystick cameraTheta
                testAnimation u) as Hr.
  rewrite Hm in Hr. destruct (Rgt_dec _ _) as [_|no] in Hr; [|contradiction].
  rewrite Hr. unfold yawDelta.
  set (T := targetRot controls joystick cameraTheta).
  destruct (wrapAngle_range (T - rotationY u)) as [Hd _].
  destruct (wrapAngle_turns (T - rotationY u)) as [k Hk].
  set (d := wrapAngle (T - rotationY u)) in *.
  replace (T - (rotationY u + d * 0.15))
    with (0.85 * d + PI * 2 * IZR (- k)) by (rewrite opp_IZR; lra).
  apply wrapAngle_unique. lra.
Qed.

Lemma heading_error_contracts_witness :
  let u := load robotClips (newUnit origin) in
  mixer u = Some 0 /\ inputMag forwardKey idleStick > 0.05 /\
  wrapAngle (targetRot forwardKey idleStick 0
             - rotationY (update 0.016 forwardKey idleStick 0 None u))
  = 0.85 * wrapAngle (targetRot forwardKey idleStick 0 - rotationY u).
Proof.
  cbv zeta.
  assert (Hm : mixer (load robotClips (newUnit origin)) = Some 0)
    by apply load_mixer.
  assert (H : inputMag forwardKey idleStick > 0.05)
    by (rewrite inputMag_forward; lra).
  split; [exact Hm|]. split; [exact H|].
  apply (heading_error_contracts 0.016 forwardKey idleStick 0 None _ 0 Hm H).
Defined.

(** * Further properties of the camera *)

Lemma sin_pitch_lower x : - 0.2 <= x <= 1.3 -> - 0.2 <= sin x.
Proof.
  intros [Hlo Hhi]. pose proof PI2_3_2 as Hpi.
  destruct (Rle_dec 0 x) as [nn|neg].
  - pose proof (sin_ge_0 x nn ltac:(lra)). lra.
  - assert (Hp : 0 < - x) by lra.
    pose proof (sin_lt_x (- x) Hp) as H. rewrite sin_neg in H. lra.
Qed.

(** X12: the camera is placed at distance 7.0 from the point it looks
    at, 8.5 with [run], for every pair of orbit angles; and after any
    sequence of camera events, with the character on or above the
    floor, the camera is at least 0.1 above the character's feet, so
    above the floor. *)
Theorem camera_keeps_distance_and_height :
  forall (run : bool) (o : CameraOrbit) (p : Vector3),
    Vector3.distanceTo (cameraPosition run o p) (cameraTarget p)
    = (if run then 8.5 else 7.0) /\
    (forall events : list CameraEvent,
       vy p + 0.1 <= vy (cameraPosition run (cameraOrbit (cameraRun events)) p)).
Proof.
  intros run o p. split.
  - unfold Vector3.distanceTo, Vector3.distanceToSquared, cameraPosition,
      cameraTarget, cameraOffset. cbv zeta. cbn [Vector3.add vx vy vz].
    pose proof (sin2_cos2 (theta o)) as Ht. pose proof (sin2_cos2 (phi o)) as Hp.
    unfold Rsqr in Ht, Hp.
    set (d := if run then 8.5 else 7.0).
    assert (Hd : 0 <= d) by (unfold d; destruct run; lra).
    set (st := sin (theta o)) in *. set (ct := cos (theta o)) in *.
    set (sp := sin (phi o)) in *. set (cp := cos (phi o)) in *.
    apply sqrt_of_square; [exact Hd|].
    transitivity (d * d * ((st * st + ct * ct) * (cp * cp) + sp * sp));
      [unfold Vector3.add; simpl; ring|].
    rewrite Ht. replace (1 * (cp * cp) + sp * sp) with (sp * sp + cp * cp) by ring.
    rewrite Hp. ring.
  - intros events.
    destruct (cameraSteps_pitch events initialRig) as [_ Hphi];
      [unfold pitchInRange; simpl; lra|].
    fold (cameraRun events) in Hphi.
    pose proof (sin_pitch_lower _ Hphi) as Hs.
    unfold cameraPosition, cameraOffset. cbv zeta. cbn [Vector3.add vx vy vz].
    unfold Vector3.add. cbn [vy].
    destruct run; nra.
Qed.

Lemma dragMoves_idle moves : forall c,
  isDragging c = false -> dragMoves moves c = c.
Proof.
  unfold dragMoves. induction moves as [|m rest IH]; intros c Hc; simpl.
  - reflexivity.
  - unfold onMouseMove at 2. rewrite Hc. simpl. apply IH. exact Hc.
Qed.

Lemma dragMoves_dragging moves : forall c,
  isDragging c = true ->
  let c' := dragMoves moves c in
  isDragging c' = true /\
  previousMouse c' = last moves (previousMouse c) /\
  targetTheta (cameraOrbit c')
  = targetTheta (cameraOrbit c)
    - (fst (last moves (previousMouse c)) - fst (previousMouse c)) * 0.008 /\
  theta (cameraOrbit c') = theta (cameraOrbit c) /\
  phi (cameraOrbit c') = phi (cameraOrbit c).
Proof.
  unfold dragMoves. induction moves as [|m rest IH] using rev_ind;
    intros c Hc; cbv zeta.
  - cbn [foldl last]. repeat split; try assumption; try reflexivity. ring.
  - rewrite foldl_snoc, last_last. destruct m as [mx my].
    destruct (IH c Hc) as (Hd & Hp & Ht & Hth & Hph). cbv zeta in *.
    set (cn := foldl _ c rest) in *.
    unfold onMouseMove. rewrite Hd.
    cbn [negb isDragging previousMouse cameraOrbit targetTheta theta phi].
    rewrite Hp, Ht.
    repeat split; try assumption; try reflexivity. ring.
Qed.

(** X13: pointer moves count only between a press and a release, and
    what a drag does to the yaw target depends on its end points only:
    after a press at [x0] and any moves, [targetTheta] has changed by
    [-0.008] times the last [clientX] minus [x0]; moves without a press
    change nothing. *)
Theorem drag_yaw_depends_on_end_points :
  forall (c : CameraRig) (x0 y0 : R) (moves : list (R * R)),
    let c' := dragMoves moves (onMouseDown x0 y0 c) in
    targetTheta (cameraOrbit c')
    = targetTheta (cameraOrbit c) - (fst (last moves (x0, y0)) - x0) * 0.008 /\
    theta (cameraOrbit c') = theta (cameraOrbit c) /\
    phi (cameraOrbit c') = phi (cameraOrbit c) /\
    dragMoves moves (onMouseUp c) = onMouseUp c.
Proof.
  intros c x0 y0 moves. cbv zeta.
  destruct (dragMoves_dragging moves (onMouseDown x0 y0 c) eq_refl)
    as (_ & _ & Ht & Hth & Hph).
  cbv zeta in *. simpl in Ht, Hth, Hph.
  split; [exact Ht|]. split; [exact Hth|]. split; [exact Hph|].
  apply dragMoves_idle. reflexivity.
Qed.

(** X14: frames without a recenter leave the targets alone and move
    [theta] and [phi] a tenth of the way to them, independently of the
    frame time: after [n] frames the distance of each angle from its
    target is [0.9^n] times what it was. *)
Theorem camera_smoothing_converges :
  forall (headings : list R) (c : CameraRig),
    let n := length headings in
    let c' := smoothFrames headings c in
    targetTheta (cameraOrbit c') = targetTheta (cameraOrbit c) /\
    targetPhi (cameraOrbit c') = targetPhi (cameraOrbit c) /\
    theta (cameraOrbit c') - targetTheta (cameraOrbit c)
    = 0.9 ^ n * (theta (cameraOrbit c) - targetTheta (cameraOrbit c)) /\
    phi (cameraOrbit c') - targetPhi (cameraOrbit c)
    = 0.9 ^ n * (phi (cameraOrbit c) - targetPhi (cameraOrbit c)).
Proof.
  intros headings. unfold smoothFrames.
  induction headings as [|h rest IH] using rev_ind; intros c; cbv zeta.
  - simpl. repeat split; lra.
  - rewrite foldl_snoc, length_app. simpl length.
    replace (length rest + 1)%nat with (S (length rest)) by lia.
    destruct (IH c) as (Et & Ep & Eth & Eph). cbv zeta in *.
    set (cn := foldl _ c rest) in *.
    unfold animateCamera, MathUtils.lerp. simpl.
    rewrite Et, Ep. repeat split; lra.
Qed.

(** * Properties of the dust particles *)

Lemma dustLoop_processes delta l1 : forall l2,
  dustLoop delta (length l1) (l1 ++ l2)
  = Some (omap (stepParticle delta) l1 ++ l2).
Proof.
  induction l1 as [|p l IH] using rev_ind; intros l2.
  - reflexivity.
  - rewrite length_app, Nat.add_1_r, <- app_assoc. cbn [dustLoop app].
    rewrite (list_lookup_middle l l2 p (length l) eq_refl).
    rewrite omap_app.
    assert (Hone : omap (stepParticle delta) [p]
                   = match stepParticle delta p with
                     | Some q => [q]
                     | None => []
                     end) by reflexivity.
    rewrite Hone. unfold stepParticle at 2. cbv zeta.
    destruct (Rle_dec (pLife (ageParticle delta p)) 0) as [dead|alive].
    + rewrite delete_middle, IH, app_nil_r. reflexivity.
    + replace (length l) with (length l + 0)%nat at 2 by lia.
      rewrite insert_app_r. cbn [insert list_insert].
      rewrite IH, <- app_assoc. reflexivity.
Qed.

Lemma updateDust_omap delta particles :
  updateDust delta particles = Some (omap (stepParticle delta) particles).
Proof.
  unfold updateDust.
  pose proof (dustLoop_processes delta particles []) as H.
  rewrite !app_nil_r in H. exact H.
Qed.

(** X15: the particle loop, which walks the array from its last index
    down and splices dead particles out while it walks, never reads an
    index that is not there and skips no particle: one frame applies the
    per-particle step to every particle and keeps the survivors in their
    order, so the number of particles does not grow. *)
Theorem dust_loop_visits_every_particle :
  forall delta (particles : list Particle),
    updateDust delta particles = Some (omap (stepParticle delta) particles) /\
    (length (omap (stepParticle delta) particles) <= length particles)%nat.
Proof.
  intros delta particles. split.
  - apply updateDust_omap.
  - induction particles as [|p rest IH]; [reflexivity|].
    change (omap (stepParticle delta) (p :: rest))
      with (match stepParticle delta p with
            | Some q => q :: omap (stepParticle delta) rest
            | None => omap (stepParticle delta) rest
            end).
    destruct (stepParticle delta p); cbn [length]; lia.
Qed.

Lemma spawnLoop_shape random pos count : forall i particles,
  exists fresh,
    spawnLoop random pos i count particles = particles ++ fresh /\
    length fresh = count /\
    Forall (fun p =>
              exists r1 r2 r3 r4 r5 k,
                p = newParticle pos r1 r2 r3 r4 r5 /\
                r1 = random k /\ r2 = random (k + 1)%nat /\
                r3 = random (k + 2)%nat /\ r4 = random (k + 3)%nat /\
                r5 = random (k + 4)%nat) fresh.
Proof.
  induction count as [|n IH]; intros i particles; cbn [spawnLoop].
  - exists []. rewrite app_nil_r. repeat split. constructor.
  - destruct (IH (S i) (particles ++
        [newParticle pos (random (5 * i)%nat) (random (5 * i + 1)%nat)
           (random (5 * i + 2)%nat) (random (5 * i + 3)%nat)
           (random (5 * i + 4)%nat)])) as (fresh & E & Hl & Hall).
    eexists (_ :: fresh). rewrite E, <- app_assoc. cbn [app].
    split; [reflexivity|]. split; [simpl; lia|].
    constructor; [|exact Hall].
    exists (random (5 * i)%nat), (random (5 * i + 1)%nat),
      (random (5 * i + 2)%nat), (random (5 * i + 3)%nat),
      (random (5 * i + 4)%nat), (5 * i)%nat.
    repeat split; reflexivity.
Qed.

Lemma omap_step_cons delta p rest :
  omap (stepParticle delta) (p :: rest)
  = match stepParticle delta p with
    | Some q => q :: omap (stepParticle delta) rest
    | None => omap (stepParticle delta) rest
    end.
Proof. reflexivity. Qed.

Lemma omap_same_life_alive delta (L : R) particles :
  Forall (fun p => pLife p = L) particles ->
  ~ L - delta * 0.8 <= 0 ->
  omap (stepParticle delta) particles
  = map (fun p => moveParticle delta (ageParticle delta p)) particles.
Proof.
  intros Hall Halive. induction Hall as [|p rest Hp Hrest IH].
  - reflexivity.
  - rewrite omap_step_cons. unfold stepParticle at 1. cbv zeta.
    cbn [pLife ageParticle]. rewrite Hp.
    destruct (Rle_dec _ _) as [dead|_]; [contradiction|].
    rewrite IH. reflexivity.
Qed.

Lemma omap_same_life_dead delta (L : R) particles :
  Forall (fun p => pLife p = L) particles ->
  L - delta * 0.8 <= 0 ->
  omap (stepParticle delta) particles = [].
Proof.
  intros Hall Hdead. induction Hall as [|p rest Hp Hrest IH].
  - reflexivity.
  - rewrite omap_step_cons. unfold stepParticle at 1. cbv zeta.
    cbn [pLife ageParticle]. rewrite Hp.
    destruct (Rle_dec _ _) as [_|alive]; [|contradiction].
    exact IH.
Qed.

Lemma dustFrames_none deltas :
  foldl (fun ps delta => ps ≫= updateDust delta) (Some []) deltas = Some [].
Proof. induction deltas as [|d rest IH]; simpl; [reflexivity|exact IH]. Qed.

Lemma survivor_life deltas : forall p,
  pLife (survivor deltas p) = pLife p - totalTime deltas * 0.8.
Proof.
  induction deltas as [|d rest IH]; intros p; simpl.
  - lra.
  - rewrite IH. simpl. lra.
Qed.

Lemma totalTime_nonneg deltas : Forall (fun d => 0 <= d) deltas -> 0 <= totalTime deltas.
Proof. induction 1; simpl; lra. Qed.

Lemma dustFrames_same_life deltas : forall (L : R) particles,
  Forall (fun d => 0 <= d) deltas ->
  Forall (fun p => pLife p = L) particles ->
  0 < L ->
  dustFrames deltas particles
  = Some (if Rle_dec (L - totalTime deltas * 0.8) 0 then []
          else map (survivor deltas) particles).
Proof.
  unfold dustFrames.
  induction deltas as [|d rest IH]; intros L particles Hd Hall HL.
  - simpl. destruct (Rle_dec _ _) as [dead|_]; [lra|].
    rewrite map_id. reflexivity.
  - inversion Hd as [|d' rest' Hd0 Hrest]; subst.
    pose proof (totalTime_nonneg rest Hrest) as Hsum.
    cbn [foldl]. cbn [mbind option_bind].
    rewrite updateDust_omap.
    destruct (Rle_dec (L - d * 0.8) 0) as [dead|alive].
    + rewrite (omap_same_life_dead d L particles Hall dead).
      rewrite dustFrames_none. simpl totalTime.
      destruct (Rle_dec _ _) as [_|no]; [reflexivity|exfalso; lra].
    + rewrite (omap_same_life_alive d L particles Hall alive).
      rewrite (IH (L - d * 0.8)); [| exact Hrest | | lra].
      * simpl totalTime.
        destruct (Rle_dec (L - d * 0.8 - totalTime rest * 0.8) 0) as [e|ne];
          destruct (Rle_dec (L - (d + totalTime rest) * 0.8) 0) as [e'|ne'];
          try lra; [reflexivity|].
        rewrite map_map. reflexivity.
      * clear -Hall. induction Hall as [|p r Hp Hr IHr]; simpl; constructor.
        -- cbn [pLife moveParticle ageParticle]. rewrite Hp. reflexivity.
        -- exact IHr.
Qed.

(** X16: a dust burst is 15 particles of life 1 and lives for 1.25
    seconds of frame time: after frames of non-negative times that sum
    to [T], the burst is gone when [0.8 T >= 1], and otherwise all 15
    particles are still there, each with life [1 - 0.8 T], opacity half
    its life and scale [1 + 4 (1 - life)], so between 1 and 5. *)
Theorem dust_burst_lifetime :
  forall (random : nat -> R) (pos : Vector3) (deltas : list R),
    Forall (fun d => 0 <= d) deltas ->
    deltas <> [] ->
    let burst := spawnDust random pos [] in
    let T := totalTime deltas in
    length burst = 15%nat /\
    (1 <= 0.8 * T -> dustFrames deltas burst = Some []) /\
    (0.8 * T < 1 ->
       exists particles,
         dustFrames deltas burst = Some particles /\
         length particles = 15%nat /\
         Forall (fun p =>
                   pLife p = 1 - 0.8 * T /\
                   pOpacity p = pLife p * 0.5 /\
                   pScale p = 1 + (1 - pLife p) * 4 /\
                   1 <= pScale p < 5) particles).
Proof.
  intros random pos deltas Hd Hne. cbv zeta.
  destruct (spawnLoop_shape random pos 15 0 []) as (fresh & E & Hlen & Hall).
  unfold spawnDust. rewrite E. cbn [app].
  assert (Hlife : Forall (fun p => pLife p = 1) fresh).
  { clear -Hall. induction Hall as [|p r Hp Hr IHr]; constructor; [|exact IHr].
    destruct Hp as (r1 & r2 & r3 & r4 & r5 & k & -> & _). simpl. lra. }
  pose proof (dustFrames_same_life deltas 1 fresh Hd Hlife ltac:(lra)) as Hrun.
  pose proof (totalTime_nonneg deltas Hd) as HT.
  split; [exact Hlen|]. split.
  - intros Hgone. rewrite Hrun.
    destruct (Rle_dec _ _) as [_|no]; [reflexivity|exfalso; lra].
  - intros Halive. rewrite Hrun.
    destruct (Rle_dec _ _) as [no|_]; [exfalso; lra|].
    exists (map (survivor deltas) fresh).
    split; [reflexivity|]. split; [rewrite length_map; exact Hlen|].
    clear -Hlife Hne Halive HT.
    induction Hlife as [|p r Hp Hr IHr]; simpl; constructor; [|exact IHr].
    assert (HL : pLife (survivor deltas p) = 1 - 0.8 * totalTime deltas)
      by (rewrite survivor_life, Hp; lra).
    assert (Hshape : forall q, pOpacity (survivor deltas q)
                               = pLife (survivor deltas q) * 0.5 /\
                               pScale (survivor deltas q)
                               = 1 + (1 - pLife (survivor deltas q)) * 4).
    { destruct deltas as [|d rest]; [contradiction|]. clear.
      revert d. induction rest as [|d' rest IH]; intros d q.
      - simpl. split; lra.
      - change (survivor (d :: d' :: rest) q)
          with (survivor (d' :: rest) (moveParticle d (ageParticle d q))).
        apply IH. }
    destruct (Hshape p) as [Ho Hs].
    split; [exact HL|]. split; [exact Ho|]. split; [exact Hs|].
    rewrite Hs, HL. lra.
Qed.

Lemma dust_burst_lifetime_witness :
  let deltas := [0.1; 0.1; 0.016] in
  Forall (fun d => 0 <= d) deltas /\ deltas <> [] /\
  length (spawnDust (fun _ => 0.5) origin []) = 15%nat.
Proof.
  cbv zeta.
  assert (Hd : Forall (fun d => 0 <= d) [0.1; 0.1; 0.016]).
  { constructor; [lra|]. constructor; [lra|]. constructor; [lra|]. constructor. }
  assert (Hne : [0.1; 0.1; 0.016] <> []) by discriminate.
  split; [exact Hd|]. split; [exact Hne|].
  apply (dust_burst_lifetime (fun _ => 0.5) origin [0.1; 0.1; 0.016] Hd Hne).
Defined.

(** * Properties of the keyboard and gamepad input *)

Ltac key_cases code :=
  repeat match goal with
  | |- context [String.eqb code ?s] =>
      destruct (String.eqb_spec code s); [subst code; cbn|]
  end; cbn; try reflexivity.

Lemma keyStep_flags c e :
  ControlState.forward (keyStep c e)
  = default (ControlState.forward c) (eventFor ["KeyW"; "ArrowUp"] e)
  /\ ControlState.backward (keyStep c e)
     = default (ControlState.backward c) (eventFor ["KeyS"; "ArrowDown"] e)
  /\ ControlState.left (keyStep c e)
     = default (ControlState.left c) (eventFor ["KeyA"; "ArrowLeft"] e)
  /\ ControlState.right (keyStep c e)
     = default (ControlState.right c) (eventFor ["KeyD"; "ArrowRight"] e)
  /\ ControlState.jump (keyStep c e)
     = default (ControlState.jump c) (eventFor ["Space"] e)
  /\ ControlState.run (keyStep c e)
     = default (ControlState.run c) (eventFor ["ShiftLeft"] e)
  /\ ControlState.resetCamera (keyStep c e)
     = default (ControlState.resetCamera c) (eventFor ["KeyR"] e).
Proof.
  destruct e as [code|code];
    unfold keyStep, handleKeyDown, handleKeyUp, eventFor; cbn [existsb];
    key_cases code; repeat split; reflexivity.
Qed.

(** X17: the keyboard handlers keep no count of the keys that are
    down: after any run of key events each flag is what the last event
    of one of its key codes made it (pressed or released), or what it
    was before when there was none.  So releasing one of two keys of a
    direction stops that direction whatever was done with the other
    key. *)
Theorem key_flags_follow_last_event :
  forall (events : list KeyEvent) (c : ControlState.t),
    let c' := keyRun events c in
    (ControlState.forward c'
     = lastEvent ["KeyW"; "ArrowUp"] events (ControlState.forward c)
     /\ ControlState.backward c'
        = lastEvent ["KeyS"; "ArrowDown"] events (ControlState.backward c)
     /\ ControlState.left c'
        = lastEvent ["KeyA"; "ArrowLeft"] events (ControlState.left c)
     /\ ControlState.right c'
        = lastEvent ["KeyD"; "ArrowRight"] events (ControlState.right c)
     /\ ControlState.jump c'
        = lastEvent ["Space"] events (ControlState.jump c)
     /\ ControlState.run c'
        = lastEvent ["ShiftLeft"] events (ControlState.run c)
     /\ ControlState.resetCamera c'
        = lastEvent ["KeyR"] events (ControlState.resetCamera c))
    /\ ControlState.forward
         (keyRun (events ++ [KeyDown "KeyW"; KeyUp "ArrowUp"]) c) = false.
Proof.
  intros events c. cbn zeta. split.
  - revert c. induction events as [|e events IH]; intros c.
    + cbn. repeat split; reflexivity.
    + unfold keyRun, lastEvent in *. cbn [foldl].
      destruct (keyStep_flags c e) as (H1 & H2 & H3 & H4 & H5 & H6 & H7).
      rewrite <- H1, <- H2, <- H3, <- H4, <- H5, <- H6, <- H7.
      apply IH.
  - unfold keyRun. rewrite foldl_app. reflexivity.
Qed.

Lemma mag_zero a b :
  a = 0 -> b = 0 -> Rmin (Vector2.length (mkV2 a b)) 1.0 = 0.
Proof.
  intros -> ->. unfold Vector2.length. cbn [x2 y2].
  replace (0 * 0 + 0 * 0) with 0 by ring. rewrite sqrt_0.
  unfold Rmin. destruct (Rle_dec 0 1.0); lra.
Qed.

Lemma mag_one a b :
  1 <= a * a + b * b -> Rmin (Vector2.length (mkV2 a b)) 1.0 = 1.
Proof.
  intros H. unfold Vector2.length. cbn [x2 y2].
  assert (Hs : 1 <= sqrt (a * a + b * b)).
  { rewrite <- sqrt_1 at 1. apply sqrt_le_1_alt. exact H. }
  unfold Rmin. destruct (Rle_dec (sqrt (a * a + b * b)) 1.0); lra.
Qed.

(** Without the joystick the input magnitude is all or nothing. *)
Lemma inputMag_keys c j :
  JoystickData.active j = false ->
  inputMag c j = if keysPush c then 1 else 0.
Proof.
  intros Hact. unfold inputMag, moveInput. rewrite Hact.
  destruct c as [f b l r jm rn rc].
  cbv [keysPush ControlState.forward ControlState.backward ControlState.left
       ControlState.right].
  destruct f, b, l, r; cbv [xorb orb];
    first [apply mag_zero; lra | apply mag_one; lra].
Qed.

Lemma jsLt_jsGt_exclusive a t :
  0 <= t -> (jsLt a (- t) && jsGt a t)%bool = false.
Proof.
  intros Ht. destruct a as [v|]; [|reflexivity].
  unfold jsLt, jsGt.
  destruct (Rlt_dec v (- t)), (Rgt_dec v t); try reflexivity. lra.
Qed.

Lemma updateGamepad_full gamepads gp c :
  gamepads !! 0%nat = Some (Some gp) ->
  (11 <= length (buttons gp))%nat ->
  updateGamepad gamepads c
  = Returned
      (ControlState.mk
         (jsLt (axes gp !! 1%nat) (- 0.15)) (jsGt (axes gp !! 1%nat) 0.15)
         (jsLt (axes gp !! 0%nat) (- 0.15)) (jsGt (axes gp !! 0%nat) 0.15)
         (default false (buttons gp !! 0%nat))
         (default false (buttons gp !! 10%nat))
         (default false (buttons gp !! 3%nat))).
Proof.
  intros Hgp Hlen. unfold updateGamepad. rewrite Hgp. cbn [mjoin option_join].
  destruct (lookup_lt_is_Some_2 (buttons gp) 0%nat ltac:(lia)) as [b0 H0].
  destruct (lookup_lt_is_Some_2 (buttons gp) 10%nat ltac:(lia)) as [b10 H10].
  destruct (lookup_lt_is_Some_2 (buttons gp) 3%nat ltac:(lia)) as [b3 H3].
  rewrite H0, H10, H3.
  replace (-0.15) with (Ropp 0.15) by lra. reflexivity.
Qed.

(** X18: with a gamepad in slot 0 that has at least 11 buttons, a poll
    returns normally and writes all seven flags from the pad alone: the
    state it leaves does not depend on the state before, so whatever
    the key handlers had written is gone; and it never sets two
    opposite directions at once. *)
Theorem gamepad_poll_overrides_keys :
  forall gamepads gp,
    gamepads !! 0%nat = Some (Some gp) ->
    (11 <= length (buttons gp))%nat ->
    exists c',
      (forall c, updateGamepad gamepads c = Returned c')
      /\ (forall events c,
            updateGamepad gamepads (keyRun events c) = Returned c')
      /\ (ControlState.forward c' && ControlState.backward c')%bool = false
      /\ (ControlState.left c' && ControlState.right c')%bool = false
      /\ ControlState.jump c' = default false (buttons gp !! 0%nat)
      /\ ControlState.run c' = default false (buttons gp !! 10%nat)
      /\ ControlState.resetCamera c' = default false (buttons gp !! 3%nat).
Proof.
  intros gamepads gp Hgp Hlen.
  eexists. split; [|split].
  - intros c. apply (updateGamepad_full _ _ _ Hgp Hlen).
  - intros events c. apply (updateGamepad_full _ _ _ Hgp Hlen).
  - cbn [ControlState.forward ControlState.backward ControlState.left
         ControlState.right ControlState.jump ControlState.run
         ControlState.resetCamera].
    replace (-0.15) with (Ropp 0.15) by lra.
    split; [apply jsLt_jsGt_exclusive; lra|].
    split; [apply jsLt_jsGt_exclusive; lra|].
    repeat split; reflexivity.
Qed.

(** A pad with a pushed stick and sixteen buttons, the left stick
    click held. *)
Lemma gamepad_poll_overrides_keys_witness :
  exists c',
    (forall c,
       updateGamepad
         [Some (mkGamepad [0.9; -0.4]
                  (replicate 10 false ++ [true] ++ replicate 5 false))] c
       = Returned c')
    /\ ControlState.run c' = true.
Proof.
  destruct (gamepad_poll_overrides_keys
              [Some (mkGamepad [0.9; -0.4]
                       (replicate 10 false ++ [true] ++ replicate 5 false))]
              (mkGamepad [0.9; -0.4]
                 (replicate 10 false ++ [true] ++ replicate 5 false))
              eq_refl ltac:(cbn; lia))
    as (c' & Hall & _ & _ & _ & _ & Hrun & _).
  exists c'. split; [exact Hall | exact Hrun].
Defined.

(** X19: with a gamepad in slot 0 that has fewer than 11 buttons, a
    poll ends in the [TypeError] of reading [pressed] of a missing
    button, after the four direction flags have been overwritten from
    the axes; [run] and [resetCamera] are as before, and [jump] is
    written only when the pad has a button 0. *)
Theorem gamepad_short_button_list_throws :
  forall gamepads gp c,
    gamepads !! 0%nat = Some (Some gp) ->
    (length (buttons gp) < 11)%nat ->
    exists c',
      updateGamepad gamepads c = Threw c'
      /\ ControlState.forward c' = jsLt (axes gp !! 1%nat) (- 0.15)
      /\ ControlState.backward c' = jsGt (axes gp !! 1%nat) 0.15
      /\ ControlState.left c' = jsLt (axes gp !! 0%nat) (- 0.15)
      /\ ControlState.right c' = jsGt (axes gp !! 0%nat) 0.15
      /\ ControlState.jump c'
         = default (ControlState.jump c) (buttons gp !! 0%nat)
      /\ ControlState.run c' = ControlState.run c
      /\ ControlState.resetCamera c' = ControlState.resetCamera c.
Proof.
  intros gamepads gp c Hgp Hlen. unfold updateGamepad. rewrite Hgp.
  cbn [mjoin option_join].
  assert (H10 : buttons gp !! 10%nat = None)
    by (apply lookup_ge_None_2; lia).
  rewrite H10.
  replace (-0.15) with (Ropp 0.15) by lra.
  destruct (buttons gp !! 0%nat) as [b0|];
    (eexists; split; [reflexivity|]); cbn; repeat split; reflexivity.
Qed.

(** A pad with four buttons, button 0 held, while [run] is set. *)
Lemma gamepad_short_button_list_throws_witness :
  exists c',
    updateGamepad [Some (mkGamepad [0; -1] [true; false; false; false])]
      (setRun true noKeys) = Threw c'
    /\ ControlState.forward c' = true
    /\ ControlState.jump c' = true
    /\ ControlState.run c' = true.
Proof.
  destruct (gamepad_short_button_list_throws
              [Some (mkGamepad [0; -1] [true; false; false; false])]
              (mkGamepad [0; -1] [true; false; false; false])
              (setRun true noKeys) eq_refl ltac:(cbn; lia))
    as (c' & Hthrew & Hf & _ & _ & _ & Hj & Hr & _).
  exists c'. split; [exact Hthrew|].
  split; [|split; [exact Hj | exact Hr]].
  rewrite Hf. cbn [lookup list_lookup axes]. unfold jsLt.
  destruct (Rlt_dec (-1) (-0.15)) as [_|n]; [reflexivity|].
  exfalso. apply n. lra.
Defined.

(** X20: with the joystick inactive the input magnitude that [update]
    computes from the direction flags is 1 or 0: it is 1 when a
    direction is held whose opposite is not (a diagonal is no faster
    than a straight line), and 0 when every held direction is cancelled
    by its opposite; the raw input is then the zero vector. *)
Theorem keyboard_input_is_all_or_nothing :
  forall (c : ControlState.t) (j : JoystickData.t),
    JoystickData.active j = false ->
    inputMag c j = (if keysPush c then 1 else 0)
    /\ (keysPush c = false -> moveInput c j = (0, 0)).
Proof.
  intros c j Hact. split; [apply inputMag_keys; exact Hact|].
  unfold moveInput, keysPush. rewrite Hact.
  destruct c as [f b l r jm rn rc].
  cbn [ControlState.forward ControlState.backward ControlState.left
       ControlState.right].
  destruct f, b, l, r; cbn [xorb orb]; intros H; try discriminate H;
    f_equal; lra.
Qed.

(** Forward and backward held together, with left. *)
Lemma keyboard_input_is_all_or_nothing_witness :
  inputMag (ControlState.mk true true true false false false false) idleStick
  = 1
  /\ inputMag (ControlState.mk true true false false false false false)
       idleStick = 0.
Proof.
  split.
  - exact (proj1 (keyboard_input_is_all_or_nothing
                    (ControlState.mk true true true false false false false)
                    idleStick eq_refl)).
  - exact (proj1 (keyboard_input_is_all_or_nothing
                    (ControlState.mk true true false false false false false)
                    idleStick eq_refl)).
Defined.

(** X21: after a poll of a gamepad with at least 11 buttons, and with
    the on-screen joystick inactive, the character is driven by the pad
    alone and the stick works as a switch: the input magnitude is 1 as
    soon as one axis is beyond the threshold 0.15 and 0 otherwise,
    whatever keys were held before the poll; the speed is 12 or 6 by
    button 10. *)
Theorem pad_stick_is_all_or_nothing :
  forall gamepads gp c j,
    gamepads !! 0%nat = Some (Some gp) ->
    (11 <= length (buttons gp))%nat ->
    JoystickData.active j = false ->
    let c' := polledState (updateGamepad gamepads c) in
    let axisX := axes gp !! 0%nat in
    let axisY := axes gp !! 1%nat in
    inputMag c' j
    = (if (jsLt axisY (-0.15) || jsGt axisY 0.15
           || jsLt axisX (-0.15) || jsGt axisX 0.15)%bool
       then 1 else 0)
    /\ speed c' = (if default false (buttons gp !! 10%nat) then 12.0 else 6.0).
Proof.
  intros gamepads gp c j Hgp Hlen Hact. cbn zeta.
  rewrite (updateGamepad_full _ _ c Hgp Hlen). cbn [polledState].
  split; [|reflexivity].
  rewrite (inputMag_keys _ j Hact).
  unfold keysPush.
  cbn [ControlState.forward ControlState.backward ControlState.left
       ControlState.right].
  pose proof (jsLt_jsGt_exclusive (axes gp !! 1%nat) 0.15 ltac:(lra)) as Hy.
  pose proof (jsLt_jsGt_exclusive (axes gp !! 0%nat) 0.15 ltac:(lra)) as Hx.
  replace (-0.15) with (Ropp 0.15) by lra.
  destruct (jsLt (axes gp !! 1%nat) (- (0.15))),
           (jsGt (axes gp !! 1%nat) 0.15),
           (jsLt (axes gp !! 0%nat) (- (0.15))),
           (jsGt (axes gp !! 0%nat) 0.15);
    cbn in Hx, Hy; try discriminate; reflexivity.
Qed.

(** A pad at rest while W is held: the character gets no input. *)
Lemma pad_stick_is_all_or_nothing_witness :
  inputMag
    (polledState
       (updateGamepad [Some (mkGamepad [0.1; -0.1] (replicate 17 false))]
          (handleKeyDown "KeyW" noKeys)))
    idleStick = 0.
Proof.
  pose proof (pad_stick_is_all_or_nothing
                [Some (mkGamepad [0.1; -0.1] (replicate 17 false))]
                (mkGamepad [0.1; -0.1] (replicate 17 false))
                (handleKeyDown "KeyW" noKeys) idleStick
                eq_refl ltac:(cbn; lia) eq_refl) as [H _].
  cbn zeta in H. rewrite H.
  cbn [lookup list_lookup axes]. unfold jsLt, jsGt.
  destruct (Rlt_dec (-0.1) (-0.15)); [lra|].
  destruct (Rgt_dec (-0.1) 0.15); [lra|].
  destruct (Rlt_dec 0.1 (-0.15)); [lra|].
  destruct (Rgt_dec 0.1 0.15); [lra|].
  reflexivity.
Defined.

(** * Properties of the speed read-out *)

Lemma targetSpeed_range c j : 0 <= targetSpeed c j <= 100.
Proof.
  unfold targetSpeed. cbv zeta.
  pose proof (sqrt_pos (JoystickData.x j ^ 2 + JoystickData.y j ^ 2)) as Hs.
  set (s := sqrt (JoystickData.x j ^ 2 + JoystickData.y j ^ 2)) in *.
  assert (Hm : 0 <= Rmin s 1.0 <= 1).
  { unfold Rmin. destruct (Rle_dec s 1.0); lra. }
  destruct (ControlState.forward c || ControlState.backward c
            || ControlState.left c || ControlState.right c
            || JoystickData.active j)%bool; [|lra].
  destruct (ControlState.run c), (JoystickData.active j); nra.
Qed.

Lemma updateUI_range c j h :
  0 <= speedPercent h <= 100 -> 0 <= speedPercent (updateUI c j h) <= 100.
Proof.
  intros H. pose proof (targetSpeed_range c j) as Ht.
  unfold updateUI. cbn [speedPercent]. lra.
Qed.

(** X22: the speed bar never leaves the range 0 to 100: from a value
    in the range, any run of frames, with whatever inputs, leaves it in
    the range; and the boost indicator shows the [run] flag of the last
    frame. *)
Theorem speed_bar_stays_in_range :
  forall (inputs : list (ControlState.t * JoystickData.t)) (h : Hud),
    0 <= speedPercent h <= 100 ->
    0 <= speedPercent (hudFrames inputs h) <= 100
    /\ (forall i,
          isBoosting (hudFrames (inputs ++ [i]) h) = ControlState.run (fst i)).
Proof.
  intros inputs h Hh. split.
  - revert h Hh. induction inputs as [|i inputs IH]; intros h Hh.
    + exact Hh.
    + unfold hudFrames in *. cbn [foldl]. apply IH.
      apply updateUI_range. exact Hh.
  - intros i. unfold hudFrames. rewrite foldl_app. reflexivity.
Qed.

(** Three frames from the initial read-out: running with W, then the
    joystick pushed half way, then nothing. *)
Lemma speed_bar_stays_in_range_witness :
  0 <= speedPercent
         (hudFrames
            [(setRun true forwardKey, idleStick);
             (noKeys, JoystickData.mk 0.3 0.4 true);
             (noKeys, idleStick)]
            initialHud) <= 100.
Proof.
  apply (proj1 (speed_bar_stays_in_range
                  [(setRun true forwardKey, idleStick);
                   (noKeys, JoystickData.mk 0.3 0.4 true);
                   (noKeys, idleStick)]
                  initialHud
                  ltac:(cbn [speedPercent initialHud]; lra))).
Defined.

(** X23: while the inputs stay the same the speed bar closes a tenth
    of its distance to the target in each frame: after [n] frames the
    distance is [0.9 ^ n] of what it was, so the bar approaches the
    target from one side and does not overshoot. *)
Theorem speed_bar_converges :
  forall (c : ControlState.t) (j : JoystickData.t) (n : nat) (h : Hud),
    speedPercent (hudFrames (replicate n (c, j)) h) - targetSpeed c j
    = 0.9 ^ n * (speedPercent h - targetSpeed c j).
Proof.
  intros c j n. induction n as [|n IH]; intros h.
  - cbn. ring.
  - cbn [replicate]. unfold hudFrames in *. cbn [foldl fst snd].
    rewrite IH. unfold updateUI. cbn [speedPercent].
    rewrite <- tech_pow_Rmult. lra.
Qed.

Lemma pow2_sum a b : a ^ 2 + b ^ 2 = a * a + - b * - b.
Proof. ring. Qed.

(** X24: the read-out and the character agree on the joystick and
    not on the keys.  With the joystick active the target of the speed
    bar is the character's target speed on the scale on which 12 is
    100, whatever the keys.  With the joystick inactive the target is
    the full 50 or 100 as soon as any direction flag is set, also when
    the held directions cancel and the character's input magnitude is
    0. *)
Theorem speed_bar_target_and_motion :
  forall (c : ControlState.t) (j : JoystickData.t),
    (JoystickData.active j = true ->
     targetSpeed c j = 100 / 12 * (inputMag c j * speed c))
    /\ (JoystickData.active j = false ->
        targetSpeed c j
        = (if (ControlState.forward c || ControlState.backward c
               || ControlState.left c || ControlState.right c)%bool
           then 100 / 12 * speed c else 0)
        /\ inputMag c j = (if keysPush c then 1 else 0)).
Proof.
  intros c j. split; intros Hact.
  - unfold targetSpeed, inputMag, moveInput, speed, Vector2.length.
    cbv zeta. rewrite Hact. cbn [x2 y2]. rewrite orb_true_r.
    rewrite pow2_sum.
    destruct (ControlState.run c); lra.
  - split; [|apply inputMag_keys; exact Hact].
    unfold targetSpeed, speed. cbv zeta. rewrite Hact, orb_false_r.
    destruct (ControlState.forward c || ControlState.backward c
              || ControlState.left c || ControlState.right c)%bool;
      [|reflexivity].
    destruct (ControlState.run c); lra.
Qed.

(** Any direction key with its opposite, the joystick inactive: the
    bar aims at 50 while the character has no input. *)
Lemma speed_bar_target_and_motion_witness :
  targetSpeed (ControlState.mk true true false false false false false)
    idleStick = 50
  /\ inputMag (ControlState.mk true true false false false false false)
       idleStick = 0.
Proof.
  destruct (proj2 (speed_bar_target_and_motion
                     (ControlState.mk true true false false false false false)
                     idleStick) eq_refl) as [Ht Hi].
  split; [|exact Hi].
  rewrite Ht. cbn [ControlState.forward orb]. unfold speed.
  cbn [ControlState.run]. lra.
Defined.

(** * Properties of the on-screen joystick *)

(** A point is its distance from the origin times the cosine and sine
    of its [atan2] angle; at the origin both sides are zero. *)
Lemma polar_decompose dx dy :
  cos (JsMath.atan2 dy dx) * sqrt (dx * dx + dy * dy) = dx /\
  sin (JsMath.atan2 dy dx) * sqrt (dx * dx + dy * dy) = dy.
Proof.
  destruct (Req_dec_T (dx * dx + dy * dy) 0) as [Hz|Hnz].
  - assert (Hx : dx = 0) by nra. assert (Hy : dy = 0) by nra.
    rewrite Hz, sqrt_0. rewrite Hx, Hy at 2. lra.
  - destruct (atan2_cos_sin dy dx Hnz) as [Hc Hs]. rewrite Hc, Hs.
    assert (Hpos : 0 < dx * dx + dy * dy) by nra.
    pose proof (sqrt_lt_R0 _ Hpos) as Hr.
    split; field; lra.
Qed.

Lemma cos2_sin2_atan2 dy dx :
  cos (JsMath.atan2 dy dx) * cos (JsMath.atan2 dy dx)
  + sin (JsMath.atan2 dy dx) * sin (JsMath.atan2 dy dx) = 1.
Proof.
  pose proof (sin2_cos2 (JsMath.atan2 dy dx)) as H. unfold Rsqr in H. lra.
Qed.

(** X25: with a base of positive width the joystick is linear inside
    the base and clamped outside: a pointer within the radius
    [width / 2] of the centre puts the knob under the pointer and emits
    the offset divided by the radius; a pointer farther out puts the
    knob on the rim and emits the unit vector towards the pointer.  The
    emitted vector is active and its length is the distance over the
    radius, cut at 1. *)
Theorem joystick_output_is_linear_then_clamped :
  forall (rect : Joystick.DOMRect) (clientX clientY : R),
    0 < Joystick.rectWidth rect ->
    let dx :=
      clientX - (Joystick.rectLeft rect + Joystick.rectWidth rect / 2) in
    let dy :=
      clientY - (Joystick.rectTop rect + Joystick.rectHeight rect / 2) in
    let distance := sqrt (dx * dx + dy * dy) in
    let maxDistance := Joystick.rectWidth rect / 2 in
    let knob := fst (Joystick.moveTo rect clientX clientY) in
    let data := snd (Joystick.moveTo rect clientX clientY) in
    JoystickData.active data = true
    /\ (distance <= maxDistance ->
        knob = (dx, dy)
        /\ JoystickData.x data = dx / maxDistance
        /\ JoystickData.y data = dy / maxDistance)
    /\ (maxDistance < distance ->
        knob = (dx * (maxDistance / distance), dy * (maxDistance / distance))
        /\ JoystickData.x data = dx / distance
        /\ JoystickData.y data = dy / distance)
    /\ sqrt (JoystickData.x data * JoystickData.x data
             + JoystickData.y data * JoystickData.y data)
       = Rmin (distance / maxDistance) 1.
Proof.
  intros rect clientX clientY Hw. cbv zeta.
  unfold Joystick.moveTo. cbv zeta.
  cbn [fst snd JoystickData.active JoystickData.x JoystickData.y].
  set (dx := clientX - (Joystick.rectLeft rect + Joystick.rectWidth rect / 2)).
  set (dy := clientY - (Joystick.rectTop rect + Joystick.rectHeight rect / 2)).
  destruct (polar_decompose dx dy) as [Hc Hs].
  pose proof (cos2_sin2_atan2 dy dx) as Hcs.
  pose proof (sqrt_pos (dx * dx + dy * dy)) as Hd.
  set (d := sqrt (dx * dx + dy * dy)) in *.
  set (a := JsMath.atan2 dy dx) in *.
  set (m := Joystick.rectWidth rect / 2).
  assert (Hm : 0 < m) by (unfold m; lra).
  clearbody m a d dx dy.
  split; [reflexivity|]. split; [|split].
  - intros Hle.
    replace (Rmin d m) with d
      by (unfold Rmin; destruct (Rle_dec d m); lra).
    split; [f_equal; assumption|].
    split.
    + rewrite <- Hc. field. lra.
    + rewrite <- Hs. field. lra.
  - intros Hlt.
    replace (Rmin d m) with m
      by (unfold Rmin; destruct (Rle_dec d m); lra).
    assert (Hdpos : 0 < d) by lra.
    split; [|split].
    + f_equal.
      * rewrite <- Hc. field. lra.
      * rewrite <- Hs. field. lra.
    + rewrite <- Hc. field. lra.
    + rewrite <- Hs. field. lra.
  - set (k := Rmin d m / m).
    assert (Hk : 0 <= k).
    { unfold k. apply Rmult_le_pos; [|left; apply Rinv_0_lt_compat; exact Hm].
      unfold Rmin. destruct (Rle_dec d m); lra. }
    replace (cos a * k * (cos a * k) + sin a * k * (sin a * k))
      with ((cos a * cos a + sin a * sin a) * (k * k)) by ring.
    rewrite Hcs, Rmult_1_l, (sqrt_square k Hk).
    unfold k, Rmin.
    destruct (Rle_dec d m) as [Hle|Hgt], (Rle_dec (d / m) 1) as [Hle'|Hgt'].
    + reflexivity.
    + exfalso. apply Hgt'. apply (Rmult_le_reg_r m); [exact Hm|].
      replace (d / m * m) with d by (field; lra). lra.
    + assert (Hdm : d / m * m = d) by (field; lra).
      assert (d / m = 1) by nra. rewrite H. field. lra.
    + field. lra.
Qed.

(** A base of 128 pixels at the origin and a pointer 100 pixels to the
    right of its centre: the output is the unit vector. *)
Lemma joystick_output_is_linear_then_clamped_witness :
  sqrt (JoystickData.x (snd (Joystick.moveTo (Joystick.mkRect 0 0 128 128) 164 64))
        * JoystickData.x (snd (Joystick.moveTo (Joystick.mkRect 0 0 128 128) 164 64))
        + JoystickData.y (snd (Joystick.moveTo (Joystick.mkRect 0 0 128 128) 164 64))
          * JoystickData.y (snd (Joystick.moveTo (Joystick.mkRect 0 0 128 128) 164 64)))
  <= 1.
Proof.
  destruct (joystick_output_is_linear_then_clamped
              (Joystick.mkRect 0 0 128 128) 164 64
              ltac:(cbn [Joystick.rectWidth]; lra)) as (_ & _ & _ & H).
  cbv zeta in H. rewrite H. apply Rmin_r.
Defined.

(** With the joystick active the keys do not count. *)
Lemma inputMag_joystick controls j :
  JoystickData.active j = true ->
  inputMag controls j
  = Rmin (sqrt (JoystickData.x j * JoystickData.x j
                + JoystickData.y j * JoystickData.y j)) 1.
Proof.
  intros Hact. unfold inputMag, moveInput, Vector2.length. rewrite Hact.
  cbn [x2 y2].
  replace (JoystickData.x j * JoystickData.x j
           + - JoystickData.y j * - JoystickData.y j)
    with (JoystickData.x j * JoystickData.x j
          + JoystickData.y j * JoystickData.y j) by ring.
  unfold Rmin.
  destruct (Rle_dec _ 1.0), (Rle_dec _ 1); lra.
Qed.

(** For a joystick vector of length at most 1 the normalisation of the
    move direction and the factor [inputMag] cancel: the target
    velocity is the speed times the vector, turned by the camera
    angle. *)
Lemma joystick_target controls j cameraTheta :
  JoystickData.active j = true ->
  0 < sqrt (JoystickData.x j * JoystickData.x j
            + JoystickData.y j * JoystickData.y j) <= 1 ->
  vx (moveDir controls j cameraTheta) * inputMag controls j
  = cos cameraTheta * JoystickData.x j + sin cameraTheta * JoystickData.y j
  /\ vz (moveDir controls j cameraTheta) * inputMag controls j
     = cos cameraTheta * JoystickData.y j - sin cameraTheta * JoystickData.x j.
Proof.
  intros Hact Hr.
  rewrite (inputMag_joystick controls j Hact).
  unfold moveDir, Vector3.normalize, Vector3.length.
  rewrite moveDirRaw_lengthSq.
  unfold moveDirRaw, moveInput. rewrite Hact. cbn [fst snd].
  replace (JoystickData.x j * JoystickData.x j
           + - JoystickData.y j * - JoystickData.y j)
    with (JoystickData.x j * JoystickData.x j
          + JoystickData.y j * JoystickData.y j) by ring.
  set (r := sqrt (JoystickData.x j * JoystickData.x j
                  + JoystickData.y j * JoystickData.y j)) in *.
  replace (Rmin r 1) with r by (unfold Rmin; destruct (Rle_dec r 1); lra).
  unfold JsMath.or_num. destruct (Req_dec_T r 0) as [Hz|_]; [lra|].
  unfold Vector3.divideScalar, Vector3.multiplyScalar,
    Vector3.addScaledVector, Vector3.zero.
  cbn [vx vy vz]. split; field; lra.
Qed.

(** X26: the joystick drives the character in proportion, and
    overrides the keys.  For a pointer at the given place over a base
    of positive width, and a loaded unit: the input magnitude is the
    pointer's distance over the base radius, cut at 1, whatever keys
    are held; within 5 percent of the radius the update only decays the
    horizontal velocity and leaves the heading; beyond that it blends
    the horizontal velocity by 0.15 towards the speed times the emitted
    vector turned by the camera angle. *)
Theorem joystick_drives_character :
  forall (rect : Joystick.DOMRect) (clientX clientY delta : R)
         (controls : ControlState.t) (cameraTheta : R)
         (testAnimation : option string) (u : Unit) (t : R),
    0 < Joystick.rectWidth rect ->
    mixer u = Some t ->
    let dx :=
      clientX - (Joystick.rectLeft rect + Joystick.rectWidth rect / 2) in
    let dy :=
      clientY - (Joystick.rectTop rect + Joystick.rectHeight rect / 2) in
    let distance := sqrt (dx * dx + dy * dy) in
    let maxDistance := Joystick.rectWidth rect / 2 in
    let joystick :=
      afterStep
        (Joystick.handleMove (Some rect) (Joystick.MouseEvent clientX clientY)
           (Joystick.mkState (0, 0) true None))
        idleStick in
    let u' := update delta controls joystick cameraTheta testAnimation u in
    inputMag controls joystick = Rmin (distance / maxDistance) 1
    /\ (distance <= 0.05 * maxDistance ->
        vx (velocity u') = 0.85 * vx (velocity u)
        /\ vz (velocity u') = 0.85 * vz (velocity u)
        /\ rotationY u' = rotationY u)
    /\ (0.05 * maxDistance < distance ->
        vx (velocity u')
        = 0.85 * vx (velocity u)
          + 0.15 * (speed controls
                    * (cos cameraTheta * JoystickData.x joystick
                       + sin cameraTheta * JoystickData.y joystick))
        /\ vz (velocity u')
           = 0.85 * vz (velocity u)
             + 0.15 * (speed controls
                       * (cos cameraTheta * JoystickData.y joystick
                          - sin cameraTheta * JoystickData.x joystick))).
Proof.
  intros rect clientX clientY delta controls cameraTheta testAnimation u t
    Hw Hm. cbv zeta.
  assert (Hj : afterStep
                 (Joystick.handleMove (Some rect)
                    (Joystick.MouseEvent clientX clientY)
                    (Joystick.mkState (0, 0) true None)) idleStick
               = snd (Joystick.moveTo rect clientX clientY)).
  { unfold afterStep, Joystick.handleMove, handleJoystickMove.
    cbn [Joystick.isDragging].
    destruct (Joystick.moveTo rect clientX clientY) as [knob data].
    reflexivity. }
  rewrite Hj.
  set (j := snd (Joystick.moveTo rect clientX clientY)).
  assert (Hact : JoystickData.active j = true) by reflexivity.
  assert (Hlen : sqrt (JoystickData.x j * JoystickData.x j
                       + JoystickData.y j * JoystickData.y j)
                 = Rmin (sqrt ((clientX - (Joystick.rectLeft rect
                                           + Joystick.rectWidth rect / 2))
                               * (clientX - (Joystick.rectLeft rect
                                             + Joystick.rectWidth rect / 2))
                               + (clientY - (Joystick.rectTop rect
                                             + Joystick.rectHeight rect / 2))
                                 * (clientY - (Joystick.rectTop rect
                                               + Joystick.rectHeight rect / 2)))
                         / (Joystick.rectWidth rect / 2)) 1).
  { unfold j. unfold Joystick.moveTo. cbv zeta.
    cbn [snd JoystickData.x JoystickData.y].
    set (dx := clientX - (Joystick.rectLeft rect + Joystick.rectWidth rect / 2)).
    set (dy := clientY - (Joystick.rectTop rect + Joystick.rectHeight rect / 2)).
    pose proof (cos2_sin2_atan2 dy dx) as Hcs.
    pose proof (sqrt_pos (dx * dx + dy * dy)) as Hd.
    set (d := sqrt (dx * dx + dy * dy)) in *.
    set (a := JsMath.atan2 dy dx) in *.
    set (m := Joystick.rectWidth rect / 2).
    assert (Hmp : 0 < m) by (unfold m; lra).
    clearbody m a d dx dy.
    set (k := Rmin d m / m).
    assert (Hk : 0 <= k).
    { unfold k. apply Rmult_le_pos; [|left; apply Rinv_0_lt_compat; exact Hmp].
      unfold Rmin. destruct (Rle_dec d m); lra. }
    replace (cos a * k * (cos a * k) + sin a * k * (sin a * k))
      with ((cos a * cos a + sin a * sin a) * (k * k)) by ring.
    rewrite Hcs, Rmult_1_l, (sqrt_square k Hk).
    unfold k, Rmin.
    destruct (Rle_dec d m) as [Hle|Hgt], (Rle_dec (d / m) 1) as [Hle'|Hgt'].
    - reflexivity.
    - exfalso. apply Hgt'. apply (Rmult_le_reg_r m); [exact Hmp|].
      replace (d / m * m) with d by (field; lra). lra.
    - assert (Hdm : d / m * m = d) by (field; lra).
      assert (d / m = 1) by nra. rewrite H. field. lra.
    - field. lra. }
  set (d := sqrt ((clientX - (Joystick.rectLeft rect
                              + Joystick.rectWidth rect / 2))
                  * (clientX - (Joystick.rectLeft rect
                                + Joystick.rectWidth rect / 2))
                  + (clientY - (Joystick.rectTop rect
                                + Joystick.rectHeight rect / 2))
                    * (clientY - (Joystick.rectTop rect
                                  + Joystick.rectHeight rect / 2)))) in *.
  set (m := Joystick.rectWidth rect / 2) in *.
  assert (Hmp : 0 < m) by (unfold m; lra).
  assert (Hd : 0 <= d) by apply sqrt_pos.
  assert (Hdm : d / m * m = d) by (field; lra).
  assert (Hmag : inputMag controls j = Rmin (d / m) 1).
  { rewrite (inputMag_joystick controls j Hact), Hlen.
    apply Rmin_left. apply Rmin_r. }
  destruct (update_horizontal delta controls j cameraTheta testAnimation u t Hm)
    as [Hux Huz].
  split; [exact Hmag|]. split.
  - intros Hnear.
    assert (Hdz : inputMag controls j <= 0.05).
    { rewrite Hmag. eapply Rle_trans; [apply Rmin_l|].
      apply (Rmult_le_reg_r m); [exact Hmp|]. rewrite Hdm. lra. }
    destruct (steer_deadzone controls j cameraTheta u Hdz) as (Hx & Hz & Hr).
    rewrite Hux, Huz, Hx, Hz. split; [reflexivity|]. split; [reflexivity|].
    rewrite update_rotationY, Hm.
    destruct (Rgt_dec (inputMag controls j) 0.05); lra.
  - intros Hfar.
    assert (Hgo : inputMag controls j > 0.05).
    { rewrite Hmag. unfold Rmin. destruct (Rle_dec (d / m) 1); [|lra].
      apply (Rmult_lt_reg_r m); [exact Hmp|]. rewrite Hdm. lra. }
    assert (Hr : 0 < sqrt (JoystickData.x j * JoystickData.x j
                           + JoystickData.y j * JoystickData.y j) <= 1).
    { rewrite Hlen. split; [|apply Rmin_r].
      rewrite <- Hmag. lra. }
    destruct (joystick_target controls j cameraTheta Hact Hr) as [Tx Tz].
    rewrite Hux, Huz. unfold steer.
    destruct (Rgt_dec (inputMag controls j) 0.05) as [_|n]; [|lra].
    unfold MathUtils.lerp.
    cbn [velocity setVelocity setRotationY vx vy vz].
    rewrite Tx, Tz. split; lra.
Qed.

(** The pointer 16 pixels above the centre of a base of 128 pixels, at
    camera angle 0: a quarter of the walking speed, along the camera's
    forward direction (negative z). *)
Lemma joystick_drives_character_witness :
  inputMag noKeys
    (afterStep
       (Joystick.handleMove (Some (Joystick.mkRect 0 0 128 128))
          (Joystick.MouseEvent 64 48) (Joystick.mkState (0, 0) true None))
       idleStick)
  = Rmin (sqrt ((64 - (0 + 128 / 2)) * (64 - (0 + 128 / 2))
                + (48 - (0 + 128 / 2)) * (48 - (0 + 128 / 2)))
          / (128 / 2)) 1.
Proof.
  exact (proj1 (joystick_drives_character
                  (Joystick.mkRect 0 0 128 128) 64 48 0.016 noKeys 0 None
                  (load robotClips (newUnit origin)) 0
                  ltac:(cbn [Joystick.rectWidth]; lra) eq_refl)).
Defined.

Lemma find_untracked s id others :
  Joystick.activeTouchId s = Some id ->
  Forall (fun t' => Joystick.identifier t' <> id) others ->
  List.find (Joystick.isTracked s) others = None
  /\ existsb (Joystick.isTracked s) others = false.
Proof.
  intros Hid Hall. induction Hall as [|t' others Hne _ IH].
  - split; reflexivity.
  - cbn [List.find existsb]. unfold Joystick.isTracked at 1 3. rewrite Hid.
    destruct (Z.eqb_spec (Joystick.identifier t') id) as [e|_];
      [contradiction|].
    exact IH.
Qed.

Lemma find_tracked s id before t' after :
  Joystick.activeTouchId s = Some id ->
  Forall (fun t'' => Joystick.identifier t'' <> id) before ->
  Joystick.identifier t' = id ->
  List.find (Joystick.isTracked s) (before ++ t' :: after) = Some t'
  /\ existsb (Joystick.isTracked s) (before ++ t' :: after) = true.
Proof.
  intros Hid Hall Ht. induction Hall as [|t'' before Hne _ IH].
  - cbn [app List.find existsb]. unfold Joystick.isTracked. rewrite Hid, Ht.
    rewrite Z.eqb_refl. split; reflexivity.
  - cbn [app List.find existsb]. unfold Joystick.isTracked at 1 3.
    rewrite Hid.
    destruct (Z.eqb_spec (Joystick.identifier t'') id) as [e|_];
      [contradiction|].
    exact IH.
Qed.

(** X27: the joystick follows the finger that started the drag and no
    other.  A touch start records the identifier of its first changed
    touch.  From then on a touch move or a touch end that does not
    carry that identifier leaves the state alone and calls [onMove]
    with nothing; a touch move that carries it, at any place of the
    list, acts as a pointer move to that touch's coordinates; a touch
    end that carries it resets the component and emits the inactive
    zero vector. *)
Theorem joystick_tracks_one_touch :
  forall (s : Joystick.State) (t : Joystick.Touch)
         (touches rest : list Joystick.Touch),
    let s' :=
      Joystick.mkState (Joystick.position s) true
        (Some (Joystick.identifier t)) in
    Joystick.handleStart (Joystick.TouchEvent touches (t :: rest)) s = Some s'
    /\ (forall container others more,
          Forall (fun t' => Joystick.identifier t' <> Joystick.identifier t)
            others ->
          Joystick.handleMove container (Joystick.TouchEvent others more) s'
          = (s', None)
          /\ Joystick.handleEnd (Joystick.TouchEvent more others) s'
             = (s', None))
    /\ (forall container before t' after more,
          Forall (fun t'' => Joystick.identifier t'' <> Joystick.identifier t)
            before ->
          Joystick.identifier t' = Joystick.identifier t ->
          Joystick.handleMove container
            (Joystick.TouchEvent (before ++ t' :: after) more) s'
          = Joystick.handleMove container
              (Joystick.MouseEvent (Joystick.touchX t') (Joystick.touchY t'))
              s'
          /\ Joystick.handleEnd
               (Joystick.TouchEvent more (before ++ t' :: after)) s'
             = (Joystick.initialState, Some idleStick)).
Proof.
  intros s t touches rest. cbn zeta.
  set (s' := Joystick.mkState (Joystick.position s) true
               (Some (Joystick.identifier t))).
  assert (Hid : Joystick.activeTouchId s' = Some (Joystick.identifier t))
    by reflexivity.
  split; [reflexivity|]. split.
  - intros container others more Hall.
    destruct (find_untracked s' _ others Hid Hall) as [Hf He].
    split.
    + unfold Joystick.handleMove. rewrite Hf.
      destruct container; reflexivity.
    + unfold Joystick.handleEnd. rewrite He. reflexivity.
  - intros container before t' after more Hall Ht.
    destruct (find_tracked s' _ before t' after Hid Hall Ht) as [Hf He].
    split.
    + unfold Joystick.handleMove. rewrite Hf. reflexivity.
    + unfold Joystick.handleEnd. rewrite He. reflexivity.
Qed.

(** A drag started by finger 7 while finger 3 is elsewhere on the
    screen: a move of finger 3 alone is ignored. *)
Lemma joystick_tracks_one_touch_witness :
  Joystick.handleMove (Some (Joystick.mkRect 0 0 128 128))
    (Joystick.TouchEvent [Joystick.mkTouch 3 500 300] [])
    (Joystick.mkState (0, 0) true (Some 7%Z))
  = (Joystick.mkState (0, 0) true (Some 7%Z), None).
Proof.
  destruct (joystick_tracks_one_touch Joystick.initialState
              (Joystick.mkTouch 7 60 60) [] []) as (_ & Hother & _).
  apply (Hother (Some (Joystick.mkRect 0 0 128 128))
           [Joystick.mkTouch 3 500 300] []).
  constructor; [|constructor].
  cbn [Joystick.identifier]. discriminate.
Defined.
